(** * pyaquarium: the entity simulation of [pyaquarium.py]

    A shallow embedding of the entity model ([Entity] and its four
    subclasses), of the collision test, of the per-tick movement, of the
    spawn methods and of [Aquarium.update], followed by the properties
    the specification states about them.

    Modelling conventions.
    - Python integers are unbounded: [Z].
    - A Python [str] is a sequence of code points.  Every character of the
      art tables is below U+0100, so a line is a [string] whose every
      [ascii] stands for one code point ([len] is [String.length]).
    - Entities are mutable objects that several lists refer to at once
      ([self.entities], the [sharks] snapshot, [new_entities]).  Objects
      live in a heap (a list indexed by address); the lists hold
      addresses.
    - [random] is an external source.  It is an infinite sequence of raw
      draws with a cursor; every call of the [random] module consumes one
      draw.  Floats in [0,1) are rationals.
    - Exceptions the code can raise are results of the error monad. *)

From Stdlib Require Import ZArith QArith String Ascii List Lia.
From stdpp Require Import base tactics option list.

Open Scope Z_scope.

(** ** Strings and art tables *)

(** [len(line)] *)
Definition len (s : string) : Z := Z.of_nat (String.length s).

(** U+00BA and U+00B0, the two characters of the art outside ASCII. *)
Definition ordm : string := String (ascii_of_nat 186) EmptyString.
Definition degree : string := String (ascii_of_nat 176) EmptyString.

Definition FISH_ART : list (list string) :=
  [ [ String.append ">((" (String.append ordm ">");
      String.append "<" (String.append ordm "))><") ];
    [ "><>"%string; "<><"%string ] ].

Definition SHARK_ART : list (list string) :=
  [ [ "              |\\";
      "    \\`.__---~~  ~~~--_";
      "    //~~----___  (_o_-~";
      "   '           |/'" ]%string;
    [ "            //|";
      "        _--~~~  ~~---__.'`//";
      "       ~-_o_)  ___----~~\\";
      "            '\|           '" ]%string ].

Definition OTHER_CREATURES : list (list string) :=
  [ [ String.append "V=("
        (String.append degree (String.append " " (String.append degree ")=V"))) ];
    [ "      _____";
      "   ,-~     ~-,";
      "  (           )";
      "   \_-,',',-_/";
      "    / /| |\ \ ";
      "   | | | | | |";
      "  / / /   \ \ \ " ]%string ].

(** ** Entities *)

(** The [kind] attribute, a string in the source, set by each subclass. *)
Inductive Kind := fish | bubble | shark | other_creature.

#[global] Instance Kind_eq_dec : EqDecision Kind.
Proof. solve_decision. Defined.

(** [curses.color_pair(n)]: an opaque display attribute. *)
Inductive Color := color_pair (n : Z).

#[global] Instance Color_eq_dec : EqDecision Color.
Proof. solve_decision. Defined.

(** The attributes of an entity object.  [kind] is [None] for an instance
    of the base class, which has no such attribute. *)
Record Entity := mkEntity {
  x : Z;
  y : Z;
  art : list string;
  direction : Z;
  color : Color;
  width : Z;
  height : Z;
  dead : bool;
  kind : option Kind
}.

Definition set_x (v : Z) (e : Entity) : Entity :=
  mkEntity v (y e) (art e) (direction e) (color e) (width e) (height e) (dead e) (kind e).
Definition set_y (v : Z) (e : Entity) : Entity :=
  mkEntity (x e) v (art e) (direction e) (color e) (width e) (height e) (dead e) (kind e).
Definition set_dead (v : bool) (e : Entity) : Entity :=
  mkEntity (x e) (y e) (art e) (direction e) (color e) (width e) (height e) v (kind e).
Definition set_kind (v : Kind) (e : Entity) : Entity :=
  mkEntity (x e) (y e) (art e) (direction e) (color e) (width e) (height e) (dead e) (Some v).

(** [max(len(line) for line in self.art) if self.art else 0] *)
Definition art_width (a : list string) : Z :=
  match a with
  | [] => 0
  | l :: ls => fold_left (fun m s => Z.max m (len s)) ls (len l)
  end.

(** [Entity.__init__(self, x, y, art, direction=1, color=None)].  Every
    caller passes integers for [x] and [y], on which [int] is the
    identity; an omitted or [None] color is [None] here. *)
Definition Entity_init (x0 y0 : Z) (a : list string) (d : Z) (c : option Color) : Entity :=
  {| x := x0;
     y := y0;
     art := a;
     direction := d;
     color := match c with Some c' => c' | None => color_pair 1 end;
     width := art_width a;
     height := Z.of_nat (length a);
     dead := false;
     kind := None |}.

(** [Entity.move(self, max_width, max_height)] *)
Definition Entity_move (max_width max_height : Z) (self : Entity) : Entity :=
  let self := set_x (x self + direction self) self in
  if (x self <? - width self) || (x self >? max_width)
  then set_dead true self
  else self.

(** [Bubble.move(self, max_width, max_height)] *)
Definition Bubble_move (max_width max_height : Z) (self : Entity) : Entity :=
  let self := set_y (y self - 1) self in
  if y self <? 1 then set_dead true self else self.

(** Method resolution of [entity.move]: [Bubble] is the one subclass that
    overrides it, and the one class whose instances have kind [bubble]. *)
Definition move (max_width max_height : Z) (self : Entity) : Entity :=
  match kind self with
  | Some bubble => Bubble_move max_width max_height self
  | _ => Entity_move max_width max_height self
  end.

(** [Entity.collides_with(self, other)] *)
Definition collides_with (self other : Entity) : bool :=
  (x self <? x other + width other) &&
  (x self + width self >? x other) &&
  (y self <? y other + height other) &&
  (y self + height self >? y other).

(** ** The object heap, the random source and exceptions *)

(** The exceptions the embedded code can raise.  [BadRef] belongs to the
    model alone: it is the result of following an address outside the
    heap, which no Python reference can be. *)
Inductive Exn := AttributeError | ValueError | IndexError | BadRef.

Record World := mkWorld {
  heap : list Entity;       (* entity objects, by address *)
  draws : nat -> Z;         (* the raw output of the random source *)
  cursor : nat              (* how many draws have been consumed *)
}.

Inductive Outcome (A : Type) :=
| Returns (a : A) (w : World)
| Raises (e : Exn).
Arguments Returns {A} a w.
Arguments Raises {A} e.

Definition M (A : Type) : Type := World -> Outcome A.

#[global] Instance M_ret : MRet M := fun A a w => Returns a w.
#[global] Instance M_bind : MBind M := fun A B f m w =>
  match m w with
  | Returns a w' => f a w'
  | Raises e => Raises e
  end.

Definition raise {A} (e : Exn) : M A := fun _ => Raises e.

(** Reading an object through a reference. *)
Definition deref (l : nat) : M Entity := fun w =>
  match heap w !! l with
  | Some e => Returns e w
  | None => Raises BadRef
  end.

(** An attribute assignment on the object at [l]. *)
Definition modify (l : nat) (f : Entity -> Entity) : M unit := fun w =>
  match heap w !! l with
  | Some e => Returns tt (mkWorld (<[l := f e]> (heap w)) (draws w) (cursor w))
  | None => Raises BadRef
  end.

(** A new object; its address is the next free one. *)
Definition alloc (e : Entity) : M nat := fun w =>
  Returns (length (heap w)) (mkWorld (heap w ++ [e]) (draws w) (cursor w)).

(** [entity.kind] *)
Definition get_kind (l : nat) : M Kind :=
  e ← deref l;
  match kind e with
  | Some k => mret k
  | None => raise AttributeError
  end.

Definition draw : M Z := fun w =>
  Returns (draws w (cursor w)) (mkWorld (heap w) (draws w) (S (cursor w))).

(** [random.random()]: a multiple of 2^-53 in [0, 1) *)
Definition random : M Q :=
  z ← draw; mret (Qmake (z mod 2 ^ 53) (2 ^ 53)).

(** [random.randint(a, b)] *)
Definition randint (a b : Z) : M Z :=
  if b <? a then raise ValueError
  else z ← draw; mret (a + z mod (b - a + 1)).

(** [seq[i]], with Python's negative indices *)
Definition getitem {A} (seq : list A) (i : Z) : M A :=
  let n := Z.of_nat (length seq) in
  let j := if i <? 0 then i + n else i in
  if j <? 0 then raise IndexError
  else match seq !! Z.to_nat j with
       | Some a => mret a
       | None => raise IndexError
       end.

(** [random.choice(seq)] *)
Definition choice {A} (seq : list A) : M A :=
  match seq with
  | [] => raise IndexError
  | _ => z ← draw; getitem seq (z mod Z.of_nat (length seq))
  end.

(** [a < b] on floats *)
Definition Qlt_bool (a b : Q) : bool := negb (Qle_bool b a).

(** ** Loops and comprehensions over lists *)

(** [for a in l: body(a)] *)
Fixpoint for_each {A} (body : A -> M unit) (l : list A) : M unit :=
  match l with
  | [] => mret tt
  | a :: l' => body a;; for_each body l'
  end.

(** [for a in l: acc = body(acc, a)] *)
Fixpoint for_fold {A B} (body : B -> A -> M B) (acc : B) (l : list A) : M B :=
  match l with
  | [] => mret acc
  | a :: l' => acc' ← body acc a; for_fold body acc' l'
  end.

(** [[a for a in l if test(a)]] *)
Fixpoint comprehension {A} (test : A -> M bool) (l : list A) : M (list A) :=
  match l with
  | [] => mret []
  | a :: l' =>
      b ← test a;
      r ← comprehension test l';
      mret (if b : bool then a :: r else r)
  end.

(** ** The entity subclasses *)

(** [Fish(x, y, art, direction, color)] *)
Definition Fish (x0 y0 : Z) (a : list string) (d : Z) (c : option Color) : M nat :=
  alloc (set_kind fish (Entity_init x0 y0 a d c)).

(** [Bubble(x, y, color)] *)
Definition Bubble (x0 y0 : Z) (c : option Color) : M nat :=
  glyph ← choice ["."; "o"; "O"]%string;
  alloc (set_kind bubble (Entity_init x0 y0 [glyph] 0 c)).

(** [Shark(max_width, max_height)] *)
Definition Shark (max_width max_height : Z) : M nat :=
  d ← choice [-1; 1];
  let art_index := if d =? 1 then 0 else 1 in
  a ← getitem SHARK_ART art_index;
  y0 ← randint 8 (max_height - Z.of_nat (length a) - 2);
  let self := Entity_init 0 y0 a d (Some (color_pair 4)) in
  let self := set_x (if d =? 1 then 0 - width self else max_width) self in
  alloc (set_kind shark self).

(** [OtherCreature(max_width, max_height)] *)
Definition OtherCreature (max_width max_height : Z) : M nat :=
  d ← choice [-1; 1];
  a ← getitem OTHER_CREATURES 0;
  y0 ← randint 5 (max_height - Z.of_nat (length a) - 5);
  let self := Entity_init 0 y0 a d (Some (color_pair 7)) in
  let self := set_x (if d =? 1 then 0 - width self else max_width) self in
  alloc (set_kind other_creature self).

(** ** The aquarium *)

(** The attributes of [Aquarium] that the simulation reads and writes.
    The screen, the castle and water decoration and the timers belong to
    the renderer and to the scheduler of [run]. *)
Record Aquarium := mkAquarium {
  max_y : Z;
  max_x : Z;
  entities : list nat;
  fish_colors : list Color;
  water_colors : list Color;
  water_color_index : Z
}.

Definition set_entities (v : list nat) (a : Aquarium) : Aquarium :=
  mkAquarium (max_y a) (max_x a) v (fish_colors a) (water_colors a) (water_color_index a).

(** [Aquarium.__init__(self, screen)], from the result of
    [screen.getmaxyx()]: no entity yet, and empty palettes until [run]
    fills them. *)
Definition Aquarium_init (maxyx : Z * Z) : Aquarium :=
  {| max_y := fst maxyx;
     max_x := snd maxyx;
     entities := [];
     fish_colors := [];
     water_colors := [];
     water_color_index := 0 |}.

(** [Aquarium.spawn_fish(self)] *)
Definition spawn_fish (self : Aquarium) : M Aquarium :=
  art_pair ← choice FISH_ART;
  d ← choice [-1; 1];
  shape ← getitem art_pair (if d =? 1 then 0 else 1);
  let lines := [shape] in
  first ← getitem lines 0;
  let x0 := if d =? 1 then 0 - len first else max_x self in
  y0 ← randint 5 (max_y self - 5);
  random_color ← choice (fish_colors self);
  f ← Fish x0 y0 lines d (Some random_color);
  mret (set_entities (entities self ++ [f]) self).

(** [Aquarium.maybe_spawn_shark(self)] *)
Definition maybe_spawn_shark (self : Aquarium) : M Aquarium :=
  r ← random;
  if Qlt_bool r 0.05 then
    s ← Shark (max_x self) (max_y self);
    mret (set_entities (entities self ++ [s]) self)
  else mret self.

(** [Aquarium.maybe_spawn_other_creature(self)] *)
Definition maybe_spawn_other_creature (self : Aquarium) : M Aquarium :=
  r ← random;
  if Qlt_bool r 0.09 then
    c ← OtherCreature (max_x self) (max_y self);
    mret (set_entities (entities self ++ [c]) self)
  else mret self.

(** The bubble roll of [update], lines 225 to 229 of the source. *)
Definition roll_bubble (self : Aquarium) (entity : nat) (new_entities : list nat)
  : M (list nat) :=
  k ← get_kind entity;
  if bool_decide (k = fish) || bool_decide (k = other_creature) then
    r ← random;
    if Qlt_bool r 0.02 then
      e ← deref entity;
      n ← randint 0 (width e - 1);
      let bubble_x := x e + n in
      bubble_color ← getitem (water_colors self) (water_color_index self);
      b ← Bubble bubble_x (y e) (Some bubble_color);
      mret (new_entities ++ [b])
    else mret new_entities
  else mret new_entities.

(** The inner loop of [update] over the shark snapshot, lines 232 to 235:
    it stops at the first shark that marks the entity dead. *)
Fixpoint predation (entity : nat) (sharks : list nat) : M unit :=
  match sharks with
  | [] => mret tt
  | s :: sharks' =>
      e ← deref entity;
      hit ← (if dead e then mret false
             else sh ← deref s; mret (collides_with sh e));
      if hit : bool then modify entity (set_dead true)
      else predation entity sharks'
  end.

(** The body of the second loop of [update], lines 225 to 235. *)
Definition tick_entity (self : Aquarium) (sharks : list nat)
    (new_entities : list nat) (entity : nat) : M (list nat) :=
  new_entities ← roll_bubble self entity new_entities;
  k ← get_kind entity;
  (if bool_decide (k = fish) then predation entity sharks else mret tt);;
  mret new_entities.

(** [Aquarium.update(self)] *)
Definition update (self : Aquarium) : M Aquarium :=
  let new_entities := [] in
  sharks ← comprehension
              (fun e => k ← get_kind e; mret (bool_decide (k = shark)))
              (entities self);
  for_each (fun entity => modify entity (move (max_x self) (max_y self)))
           (entities self);;
  new_entities ← for_fold (tick_entity self sharks) new_entities (entities self);
  let self := set_entities (entities self ++ new_entities) self in
  live ← comprehension (fun e => o ← deref e; mret (negb (dead o)))
                       (entities self);
  mret (set_entities live self).

(** ** Vocabulary of the statements *)

(** The kinds that move horizontally, through [Entity.move]. *)
Definition horizontal (e : Entity) : Prop :=
  kind e = Some fish \/ kind e = Some shark \/ kind e = Some other_creature.

(** The attributes of [e] that are fixed at construction are those of
    [e']. *)
Definition keeps_attributes (e e' : Entity) : Prop :=
  direction e' = direction e /\ art e' = art e /\ width e' = width e /\
  height e' = height e /\ color e' = color e /\ kind e' = kind e.

(** The kind of the object at an address, when there is one. *)
Definition kind_at (h : list Entity) (l : nat) : option Kind := h !! l ≫= kind.

(** The test of the last comprehension of [update] at an address. *)
Definition live_at (h : list Entity) (l : nat) : bool :=
  match h !! l with
  | Some e => negb (dead e)
  | None => false
  end.

(** How many times the list [ls] refers to the object at [l]. *)
Definition occ (l : nat) (ls : list nat) : nat := count_occ Nat.eq_dec ls l.

(** The world after [n] more calls of the random source. *)
Definition advance (n : nat) (w : World) : World :=
  mkWorld (heap w) (draws w) (n + cursor w).

(** The world with one more object. *)
Definition extend (e : Entity) (w : World) : World :=
  mkWorld (heap w ++ [e]) (draws w) (cursor w).

(** The float that the next [random.random()] returns. *)
Definition next_random (w : World) : Q :=
  Qmake (draws w (cursor w) mod 2 ^ 53) (2 ^ 53).

(** The indices Python accepts for a sequence. *)
Definition valid_index {A} (seq : list A) (i : Z) : Prop :=
  - Z.of_nat (length seq) <= i < Z.of_nat (length seq).

(** A bubble as [Bubble(x, y, color)] builds it, for a given glyph. *)
Definition bubble_obj (x0 y0 : Z) (c : option Color) (glyph : string) : Entity :=
  set_kind bubble (Entity_init x0 y0 [glyph] 0 c).

(** The kinds that make the bubble roll. *)
Definition rolls (k : Kind) : bool :=
  bool_decide (k = fish) || bool_decide (k = other_creature).

(** Whether some shark of the list overlaps the entity [e]. *)
Definition hit_by (h : list Entity) (e : Entity) (sharks : list nat) : bool :=
  existsb (fun s => match h !! s with
                    | Some sh => collides_with sh e
                    | None => false
                    end) sharks.

(** What the second loop of [update] can have done between the world
    [w0] and a later world [w]: consumed draws, marked fish dead, and
    added live bubbles at new addresses. *)
Definition ticked (w0 w : World) : Prop :=
  draws w = draws w0 /\
  (cursor w0 <= cursor w)%nat /\
  (length (heap w0) <= length (heap w))%nat /\
  (forall l e, heap w0 !! l = Some e ->
     heap w !! l = Some e \/
     (kind e = Some fish /\ heap w !! l = Some (set_dead true e))) /\
  (forall l e, (length (heap w0) <= l)%nat -> heap w !! l = Some e ->
     kind e = Some bubble /\ dead e = false).

(** The references collected in [new_entities] since the world [w0]:
    distinct addresses allocated after [w0]. *)
Definition fresh_refs (w0 w : World) (new : list nat) : Prop :=
  NoDup new /\
  Forall (fun l => (length (heap w0) <= l < length (heap w))%nat) new.

(** The shark snapshot that [update] takes of a collection. *)
Definition snapshot (h : list Entity) (ls : list nat) : list nat :=
  List.filter (fun l => bool_decide (kind_at h l = Some shark)) ls.

(** What [update] needs in order not to raise: every reference of the
    collection leads to an object with a [kind]; an object that may make
    the bubble roll has an art of positive width, so that the bubble
    offset has a non-empty range; the water palette and its index are set
    up as [run] does. *)
Definition ready (a : Aquarium) (w : World) : Prop :=
  valid_index (water_colors a) (water_color_index a) /\
  forall l, l ∈ entities a ->
    exists e, heap w !! l = Some e /\ is_Some (kind e) /\
      (kind e = Some fish \/ kind e = Some other_creature -> 0 < width e).

(** [ready], as a test that runs. *)
Definition readyb (a : Aquarium) (w : World) : bool :=
  (- Z.of_nat (length (water_colors a)) <=? water_color_index a) &&
  (water_color_index a <? Z.of_nat (length (water_colors a))) &&
  forallb (fun l => match heap w !! l with
                    | Some e => match kind e with
                                | Some k => negb (rolls k) || (0 <? width e)
                                | None => false
                                end
                    | None => false
                    end) (entities a).

(** ** Concrete states *)

(** The palettes as [run] sets them up. *)
Definition run_fish_colors : list Color := [color_pair 1; color_pair 5; color_pair 6].
Definition run_water_colors : list Color := [color_pair 1; color_pair 2].

(** An 80 x 24 aquarium over a given collection. *)
Definition aquarium_80x24 (ls : list nat) : Aquarium :=
  mkAquarium 24 80 ls run_fish_colors run_water_colors 0.

(** A fish and a shark, both at (40, 10), heading towards each other. *)
Definition fish_40_10 : Entity :=
  set_kind fish (Entity_init 40 10 ["><>"%string] 1 (Some (color_pair 5))).
Definition shark_40_10 : Entity :=
  set_kind shark (Entity_init 40 10 (nth 1 SHARK_ART []) (-1) (Some (color_pair 4))).

(** A world whose random source only draws 0. *)
Definition world_of (h : list Entity) : World := mkWorld h (fun _ => 0) 0.

(** ** Tactics *)

(** One case for each element of an explicit list. *)
Ltac elem_cases H :=
  repeat (apply elem_of_cons in H as [H|H]);
  [..|by apply elem_of_nil in H].

(** The width of an explicit art and the length of an explicit line,
    computed. *)
Ltac eval_art_width :=
  repeat match goal with
         | |- context [art_width ?l] =>
             let v := eval vm_compute in (art_width l) in
             progress change (art_width l) with v
         | |- context [len ?s] =>
             let v := eval vm_compute in (len s) in
             progress change (len s) with v
         end.

(** ** Boxes and cells *)

(** The character cell [(cx, cy)] lies in the half-open box of [e]. *)
Definition covers (e : Entity) (cx cy : Z) : Prop :=
  x e <= cx < x e + width e /\ y e <= cy < y e + height e.

(** The two positions at which the spawn code places a horizontal
    entity: just left of column 0 when it heads right, at column
    [max_width] when it heads left. *)
Definition at_entry (max_width : Z) (e : Entity) : Prop :=
  (direction e = 1 /\ x e = - width e) \/
  (direction e = -1 /\ x e = max_width).

(** ** Counting *)

(** Whether the object at [l] is of a kind that makes the bubble roll. *)
Definition rolls_at (h : list Entity) (l : nat) : bool :=
  match kind_at h l with
  | Some k => rolls k
  | None => false
  end.

(** How many references of the list lead to such an object. *)
Definition rollers (h : list Entity) (ls : list nat) : nat :=
  length (List.filter (rolls_at h) ls).

(** The references of [ls] whose bubble roll succeeds, in the order of
    the second loop of [update], when the loop reads the random source
    [tape] from position [c] on: a reference to a fish or other creature
    takes one draw for the roll, and two more (offset and glyph) when
    the roll is below 0.02; any other reference takes none.  The heap is
    read for the kinds alone. *)
Fixpoint emitters (h : list Entity) (tape : nat -> Z) (c : nat) (ls : list nat)
  : list nat :=
  match ls with
  | [] => []
  | l :: ls' =>
      if rolls_at h l then
        if Qlt_bool (Qmake (tape c mod 2 ^ 53) (2 ^ 53)) 0.02
        then l :: emitters h tape (3 + c) ls'
        else emitters h tape (1 + c) ls'
      else emitters h tape c ls'
  end.

(** ** The main loop, as far as the simulation goes *)

(** The palette assignments of [run], lines 268 to 282. *)
Definition run_palettes (a : Aquarium) : Aquarium :=
  mkAquarium (max_y a) (max_x a) (entities a)
             run_fish_colors run_water_colors (water_color_index a).

(** [self.water_color_index = (self.water_color_index + 1) %
    len(self.water_colors)], line 310.  [None] stands for the
    [ZeroDivisionError] of an empty palette. *)
Definition cycle_water_color (a : Aquarium) : option Aquarium :=
  match water_colors a with
  | [] => None
  | _ => Some (mkAquarium (max_y a) (max_x a) (entities a)
                          (fish_colors a) (water_colors a)
                          ((water_color_index a + 1)
                             mod Z.of_nat (length (water_colors a))))
  end.

(** The states the main loop can be in between two of its steps: it
    starts from a new aquarium with the palettes of [run], and then
    spawns, cycles the water color and updates, in any order and as long
    as the calls return. *)
Inductive reachable : Aquarium -> World -> Prop :=
| reach_start maxyx w :
    reachable (run_palettes (Aquarium_init maxyx)) w
| reach_spawn_fish a w a' w' :
    reachable a w -> spawn_fish a w = Returns a' w' -> reachable a' w'
| reach_spawn_shark a w a' w' :
    reachable a w -> maybe_spawn_shark a w = Returns a' w' -> reachable a' w'
| reach_spawn_other_creature a w a' w' :
    reachable a w -> maybe_spawn_other_creature a w = Returns a' w' ->
    reachable a' w'
| reach_cycle_water_color a w a' :
    reachable a w -> cycle_water_color a = Some a' -> reachable a' w
| reach_update a w a' w' :
    reachable a w -> update a w = Returns a' w' -> reachable a' w'.

(** What holds of every such state. *)
Definition sound (a : Aquarium) (w : World) : Prop :=
  ready a w /\ NoDup (entities a) /\
  (forall l, l ∈ entities a -> live_at (heap w) l = true) /\
  fish_colors a = run_fish_colors /\ water_colors a = run_water_colors.

(** ** Strings, as Python slices and repeats them *)

Definition chars (s : string) : list ascii := list_ascii_of_string s.
Definition str (l : list ascii) : string := string_of_list_ascii l.

(** The bound [i] of a slice of a sequence of length [n], as Python
    normalises it: a negative bound counts from the end, and the result
    is clipped to [0 .. n]. *)
Definition slice_bound (i : Z) (n : nat) : nat :=
  Z.to_nat (Z.min (Z.max (if i <? 0 then i + Z.of_nat n else i) 0) (Z.of_nat n)).

(** [s[i:]] *)
Definition slice_from (s : string) (i : Z) : string :=
  str (drop (slice_bound i (length (chars s))) (chars s)).

(** [s[:i]] *)
Definition slice_to (s : string) (i : Z) : string :=
  str (take (slice_bound i (length (chars s))) (chars s)).

(** [s * k]: empty when [k] is not positive. *)
Definition str_mul (s : string) (k : Z) : string :=
  str (concat (replicate (Z.to_nat k) (chars s))).

(** [str.isspace] on one character below U+0100. *)
Definition is_space (c : ascii) : bool :=
  let n := nat_of_ascii c in
  ((9 <=? n) && (n <=? 13) || (28 <=? n) && (n <=? 32)
   || (n =? 133) || (n =? 160))%nat.

(** The sequence without its leading white space. *)
Fixpoint drop_spaces (l : list ascii) : list ascii :=
  match l with
  | c :: l' => if is_space c then drop_spaces l' else l
  | [] => []
  end.

(** [s.strip()] *)
Definition strip (s : string) : string :=
  str (rev (drop_spaces (rev (drop_spaces (chars s))))).

(** The characters below U+0100 at which [str.splitlines] breaks a
    line, the carriage return apart. *)
Definition is_linebreak (c : ascii) : bool :=
  let n := nat_of_ascii c in
  ((n =? 10) || (n =? 11) || (n =? 12) || (n =? 28) || (n =? 29) || (n =? 30)
   || (n =? 133))%nat.

(** [cur] holds the characters of the line being read, last first. *)
Fixpoint splitlines_from (cur : list ascii) (l : list ascii) : list string :=
  match l with
  | [] => match cur with [] => [] | _ => [str (rev cur)] end
  | c :: l' =>
      if (nat_of_ascii c =? 13)%nat then
        match l' with
        | c' :: l'' =>
            if (nat_of_ascii c' =? 10)%nat then
              str (rev cur) :: splitlines_from [] l''
            else str (rev cur) :: splitlines_from [] l'
        | [] => str (rev cur) :: splitlines_from [] l'
        end
      else if is_linebreak c then str (rev cur) :: splitlines_from [] l'
      else splitlines_from (c :: cur) l'
  end.

(** [s.splitlines()] *)
Definition splitlines (s : string) : list string := splitlines_from [] (chars s).

(** ** Decoration tables *)

Definition CASTLE_ART : list string :=
  [ "
++++=++++|
         |
        /^\
       / | \
_  _  /  |  \  _   _   _
[ ]_[ ]_ _   _ [ ]_[ ]_[ ]
|_=__- =_[ ]_[ ]_=-___-__|
 | _- =  =_ = _  = _=   |
 |= -[] - _ = _ =_-=_[] |
 | =_  = -  ___ =_ =  = |
 |=  []- - /| |\ =_ =[] |
 |- =_ = =| | | | - = - |
 |________|_|_|_|_______|
"%string ].

Definition WATER_LINE : list string :=
  [ "~~~-__~`~__-~~~~-~~~~-~~~~-~~~~-__~`~__-~~~~~-~~~~-~~";
    "^^^^ ^^^  ^^^   ^^^    ^^^^      ";
    "^^^     ^^^^     ^^^    ^^      ";
    "^^     ^^^^     ^^^    ^^^^^^  " ]%string.

(** ** The screen *)

(** The calls that the program makes on the curses window. *)
Inductive Call :=
| clear
| refresh
| addstr (row col : Z) (text : string) (attr : Color).

(** The window, as the program sees it: which calls it answers with
    [curses.error], and the calls that reached it so far, oldest
    first. *)
Record Screen := mkScreen {
  refuses : Call -> bool;
  calls : list Call
}.

(** The exceptions of the rendering code: that of curses, those of the
    conversion of arguments and of the integer division, and the ones
    it shares with the simulation. *)
Inductive ScreenExn :=
| CursesError
| OverflowError
| ZeroDivisionError
| Simulation (e : Exn).

Inductive Drawn (A : Type) :=
| Done (a : A) (s : Screen)
| Failed (e : ScreenExn) (s : Screen).
Arguments Done {A} a s.
Arguments Failed {A} e s.

Definition D (A : Type) : Type := Screen -> Drawn A.

#[global] Instance D_ret : MRet D := fun A a s => Done a s.
#[global] Instance D_bind : MBind D := fun A B f m s =>
  match m s with
  | Done a s' => f a s'
  | Failed e s' => Failed e s'
  end.

Definition fail {A} (e : ScreenExn) : D A := fun s => Failed e s.

(** Whether an integer fits a C [int], the type in which [addstr]
    takes a row and a column. *)
Definition c_int (z : Z) : bool := (- 2 ^ 31 <=? z) && (z <? 2 ^ 31).

(** Whether a text holds the null character. *)
Definition has_nul (text : string) : bool :=
  existsb (fun c => (nat_of_ascii c =? 0)%nat) (chars text).

(** The exception that the conversion of the arguments of a call
    raises, if any.  [addstr] converts them before it reaches the
    window: the row and the column to C [int]s ([OverflowError] outside
    that range), then the text to a C string ([ValueError] for an
    embedded null character).  The attribute is the result of a
    [curses.color_pair] call, which converts, and the text is passed as
    wide characters, as the module does when it is built against
    ncursesw, so that no character has to be encoded. *)
Definition conversion (c : Call) : option ScreenExn :=
  match c with
  | addstr row col text _ =>
      if negb (c_int row && c_int col) then Some OverflowError
      else if has_nul text then Some (Simulation ValueError)
      else None
  | _ => None
  end.

(** One call on the window.  A call whose arguments do not convert
    raises without reaching the window; the others reach it, and raise
    [curses.error] when it refuses them. *)
Definition call (c : Call) : D unit := fun s =>
  match conversion c with
  | Some e => Failed e s
  | None =>
      let s' := mkScreen (refuses s) (calls s ++ [c]) in
      if refuses s c then Failed CursesError s' else Done tt s'
  end.

(** [try: m  except curses.error: pass] *)
Definition except_curses_pass (m : D unit) : D unit := fun s =>
  match m s with
  | Failed CursesError s' => Done tt s'
  | r => r
  end.

(** [for a in l: body(a)] *)
Fixpoint draw_each {A} (body : A -> D unit) (l : list A) : D unit :=
  match l with
  | [] => mret tt
  | a :: l' => body a;; draw_each body l'
  end.

(** [enumerate(l)] *)
Definition enumerate {A} (l : list A) : list (Z * A) :=
  imap (fun i a => (Z.of_nat i, a)) l.

(** [seq[i]] in the rendering code. *)
Definition item {A} (seq : list A) (i : Z) : D A :=
  let n := Z.of_nat (length seq) in
  let j := if i <? 0 then i + n else i in
  if j <? 0 then fail (Simulation IndexError)
  else match seq !! Z.to_nat j with
       | Some a => mret a
       | None => fail (Simulation IndexError)
       end.

(** [Entity.draw(self, screen)] *)
Definition Entity_draw (self : Entity) : D unit :=
  draw_each (fun '(i, line) =>
               except_curses_pass (call (addstr (y self + i) (x self) line (color self))))
            (enumerate (art self)).

(** The attributes of [Aquarium] that only the rendering reads. *)
Record Decoration := mkDecoration {
  castle_colors : list Color;
  castle_color_index : Z;
  water_offset : Z
}.

(** The text that [add_water_lines] writes for one line of the table. *)
Definition water_row (line : string) (offset_total max_width : Z) : D string :=
  if len line =? 0 then fail ZeroDivisionError
  else
    let offset := offset_total mod len line in
    let rotated_line := String.append (slice_from line offset) (slice_to line offset) in
    if len rotated_line =? 0 then fail ZeroDivisionError
    else
      let repeat := max_width / len rotated_line + 1 in
      mret (slice_to (str_mul rotated_line repeat) max_width).

(** [Aquarium.add_water_lines(self)] *)
Definition add_water_lines (self : Aquarium) (deco : Decoration) : D unit :=
  current_water_color ← item (water_colors self) (water_color_index self);
  draw_each (fun '(i, line) =>
               tiled ← water_row line (water_offset deco) (max_x self);
               call (addstr (i + 1) 0 tiled current_water_color))
            (enumerate WATER_LINE).

(** [Aquarium.add_castle(self)] *)
Definition add_castle (self : Aquarium) (deco : Decoration) : D unit :=
  first ← item CASTLE_ART 0;
  let castle_lines := splitlines (strip first) in
  let castle_height := Z.of_nat (length castle_lines) in
  castle_width ← match castle_lines with
                 | [] => fail (Simulation ValueError)
                 | _ => mret (art_width castle_lines)
                 end;
  let y_start := max_y self - castle_height - 1 in
  let x_start := max_x self - castle_width - 2 in
  current_castle_color ← item (castle_colors deco) (castle_color_index deco);
  draw_each (fun '(i, line) =>
               except_curses_pass
                 (call (addstr (y_start + i) x_start line current_castle_color)))
            (enumerate castle_lines).

(** [Aquarium.draw(self)], over the heap that holds the entities. *)
Definition Aquarium_draw (self : Aquarium) (deco : Decoration) (h : list Entity)
  : D unit :=
  call clear;;
  add_water_lines self deco;;
  add_castle self deco;;
  draw_each (fun entity => match h !! entity with
                           | Some e => Entity_draw e
                           | None => fail (Simulation BadRef)
                           end)
            (entities self);;
  call refresh.

(** ** Vocabulary of the rendering statements *)

(** The text of a water row, when the line is not empty. *)
Definition tile (line : string) (offset_total max_width : Z) : string :=
  let offset := offset_total mod len line in
  let rotated_line := String.append (slice_from line offset) (slice_to line offset) in
  slice_to (str_mul rotated_line (max_width / len rotated_line + 1)) max_width.

(** The calls of a sequence that are made when each one is attempted in
    turn and the first refused one ends the sequence, and whether one
    was refused. *)
Fixpoint until_refused (r : Call -> bool) (cs : list Call) : list Call * bool :=
  match cs with
  | [] => ([], false)
  | c :: cs' =>
      if r c then ([c], true)
      else let '(made, failed) := until_refused r cs' in (c :: made, failed)
  end.

(** The writes of [Entity.draw] for an entity. *)
Definition entity_calls (e : Entity) : list Call :=
  imap (fun i line => addstr (y e + Z.of_nat i) (x e) line (color e)) (art e).

(** The lines of the castle. *)
Definition castle_lines : list string :=
  splitlines (strip (nth 0 CASTLE_ART EmptyString)).

(** The writes of [add_water_lines] in the color [c], when none is
    refused. *)
Definition water_calls (a : Aquarium) (deco : Decoration) (c : Color) : list Call :=
  imap (fun i line =>
          addstr (Z.of_nat i + 1) 0 (tile line (water_offset deco) (max_x a)) c)
       WATER_LINE.

(** The writes of [add_castle] in the color [c]. *)
Definition castle_calls (a : Aquarium) (c : Color) : list Call :=
  imap (fun i line => addstr (max_y a - 14 + Z.of_nat i) (max_x a - 28) line c)
       castle_lines.

(** A call whose arguments convert. *)
Definition converts (k : Call) : Prop := conversion k = None.

(** An entity whose every write has arguments that convert: the
    coordinates fit C [int]s and no line of the art holds a null
    character. *)
Definition drawable (e : Entity) : Prop := Forall converts (entity_calls e).

(** What a frame needs up to its entities: both color indices are
    valid, the castle lies within the range of C [int]s, and the window
    accepts [clear], [refresh] and the water rows. *)
Definition decorates (a : Aquarium) (deco : Decoration) (s : Screen) : Prop :=
  valid_index (water_colors a) (water_color_index a) /\
  valid_index (castle_colors deco) (castle_color_index deco) /\
  c_int (max_y a - 14) = true /\ c_int (max_y a - 2) = true /\
  c_int (max_x a - 28) = true /\
  refuses s clear = false /\ refuses s refresh = false /\
  (forall c k, k ∈ water_calls a deco c -> refuses s k = false).

(** Where the simulation keeps an entity, in a viewport of [mx] columns
    and [my] rows.  The art has at most four lines, none with a null
    character, and is at most 28 columns wide; the row is between 1 and
    [my].  A fish, shark or other creature moves by one column per tick
    and is between column -28 and column [mx]; a bubble is at most 29
    columns to the left of column 0 and 28 to the right of column
    [mx]. *)
Definition tidy (mx my : Z) (e : Entity) : Prop :=
  Forall (fun line => has_nul line = false) (art e) /\
  (length (art e) <= 4)%nat /\ 0 <= width e <= 28 /\
  1 <= y e <= my /\
  match kind e with
  | Some bubble => - 29 <= x e <= mx + 28
  | Some _ => (direction e = 1 \/ direction e = -1) /\ - 28 <= x e <= mx
  | None => False
  end.

(** Every entity of the collection is kept so. *)
Definition placed (a : Aquarium) (w : World) : Prop :=
  forall l, l ∈ entities a ->
    exists e, heap w !! l = Some e /\ tidy (max_x a) (max_y a) e.

(** The objects behind a list of references. *)
Definition objects (h : list Entity) (ls : list nat) : list Entity :=
  omap (fun l => h !! l) ls.

(** * Properties *)

(** ** Collision *)

Section Collision.
Variables a b : Entity.

Lemma collides_with_spec :
  collides_with a b = true <->
  x a < x b + width b /\ x b < x a + width a /\
  y a < y b + height b /\ y b < y a + height a.
Proof. unfold collides_with. rewrite !andb_true_iff. lia. Qed.

(** C3: the collision test gives the same answer whichever of the two
    entities it is called on. *)
Theorem collides_with_symmetric : collides_with a b = collides_with b a.
Proof. unfold collides_with. lia. Qed.

(** C4, amended: two entities with the same position and the same size
    collide when that size is not empty (positive width and height);
    an entity whose x is at or beyond the other's right edge
    [x + width] does not collide with it, whichever of the two is
    asked. *)
Theorem collides_with_same_box_and_apart :
  (x a = x b -> y a = y b -> width a = width b -> height a = height b ->
   0 < width a -> 0 < height a -> collides_with a b = true) /\
  (x b + width b <= x a ->
   collides_with a b = false /\ collides_with b a = false).
Proof. unfold collides_with. split; intros; lia. Qed.
End Collision.

(** C4 as stated fails: two entities built from an empty art have the
    same position and the same (empty) size, and do not collide. *)
Lemma collides_with_empty_art_counterexample :
  let e1 := Entity_init 0 0 [] 1 None in
  let e2 := Entity_init 0 0 [] 1 None in
  x e1 = x e2 /\ y e1 = y e2 /\ width e1 = width e2 /\ height e1 = height e2 /\
  collides_with e1 e2 = false.
Proof. repeat split. Qed.

Lemma collides_with_same_box_and_apart_witness :
  let e1 := Entity_init 0 0 ["fish"%string] 1 (Some (color_pair 0)) in
  let e3 := Entity_init (width e1 + 10) 0 ["fish"%string] 1 (Some (color_pair 0)) in
  collides_with e1 e1 = true /\
  (collides_with e3 e1 = false /\ collides_with e1 e3 = false).
Proof.
  intros e1 e3. split.
  - apply (proj1 (collides_with_same_box_and_apart e1 e1)); vm_compute; reflexivity.
  - apply (proj2 (collides_with_same_box_and_apart e3 e1)). vm_compute. discriminate.
Defined.

(** ** Movement *)

Lemma move_horizontal_eq mw mh e :
  horizontal e -> move mw mh e = Entity_move mw mh e.
Proof. unfold move. intros [-> | [-> | ->]]; reflexivity. Qed.

Lemma move_bubble_eq mw mh e :
  kind e = Some bubble -> move mw mh e = Bubble_move mw mh e.
Proof. unfold move. intros ->. reflexivity. Qed.

Lemma Entity_move_fields mw mh e :
  let e' := Entity_move mw mh e in
  x e' = x e + direction e /\ y e' = y e /\
  dead e' = dead e || ((x e' <? - width e') || (x e' >? mw)).
Proof.
  unfold Entity_move. cbn.
  destruct (_ || _) eqn:E; cbn; rewrite ?E; repeat split;
    destruct (dead e); reflexivity.
Qed.

Lemma Bubble_move_fields mw mh e :
  let e' := Bubble_move mw mh e in
  x e' = x e /\ y e' = y e - 1 /\ dead e' = dead e || (y e' <? 1).
Proof.
  unfold Bubble_move. cbn.
  destruct (_ <? _) eqn:E; cbn; rewrite ?E; repeat split;
    destruct (dead e); reflexivity.
Qed.

(** C5: one [move] of a fish, shark or other creature adds [direction]
    to x and leaves y alone; the dead flag after the move is the flag
    before or-ed with the exit test, so a live entity becomes dead
    exactly when its new x is below [-width] or above the viewport
    width. *)
Theorem move_horizontal_step mw mh e :
  horizontal e -> dead e = false ->
  let e' := move mw mh e in
  x e' = x e + direction e /\ y e' = y e /\
  (dead e' = true <-> x e' < - width e' \/ x e' > mw).
Proof.
  intros Hk Hd. rewrite (move_horizontal_eq _ _ _ Hk).
  destruct (Entity_move_fields mw mh e) as (Hx & Hy & Hdead).
  cbn zeta in *. rewrite Hd in Hdead. cbn in Hdead.
  repeat split; try assumption; rewrite Hdead, orb_true_iff; lia.
Qed.

Lemma move_horizontal_step_witness :
  let e := set_kind fish (Entity_init 80 10 ["><>"%string] 1 None) in
  let e' := move 80 24 e in
  x e' = 81 /\ y e' = 10 /\ (dead e' = true <-> x e' < - width e' \/ x e' > 80).
Proof.
  apply (move_horizontal_step 80 24
           (set_kind fish (Entity_init 80 10 ["><>"%string] 1 None))).
  - left. reflexivity.
  - reflexivity.
Defined.

(** [move] writes the position and the dead flag only, and moves along
    one axis. *)
Lemma move_keeps mw mh e :
  let e' := move mw mh e in
  direction e' = direction e /\ art e' = art e /\ width e' = width e /\
  height e' = height e /\ color e' = color e /\ kind e' = kind e /\
  (x e' = x e \/ y e' = y e).
Proof.
  unfold move, Entity_move, Bubble_move.
  destruct (kind e) as [[]|] eqn:Hk; cbn;
    repeat match goal with |- context [if ?c then _ else _] => destruct c end;
    cbn; repeat split; auto.
Qed.

(** ** The monad and its primitives *)

Lemma bind_Returns {A B} (m : M A) (f : A -> M B) w b w' :
  (m ≫= f) w = Returns b w' <->
  exists a w1, m w = Returns a w1 /\ f a w1 = Returns b w'.
Proof.
  unfold mbind, M_bind. destruct (m w) as [a w1|e].
  - split; [eauto | intros (? & ? & [= <- <-] & ?); assumption].
  - split; [discriminate | intros (? & ? & [=] & _)].
Qed.

Lemma bind_eq {A B} (m : M A) (f : A -> M B) w a w1 :
  m w = Returns a w1 -> (m ≫= f) w = f a w1.
Proof. unfold mbind, M_bind. intros ->. reflexivity. Qed.

Lemma bind_Raises {A B} (m : M A) (f : A -> M B) w e :
  m w = Raises e -> (m ≫= f) w = Raises e.
Proof. unfold mbind, M_bind. intros ->. reflexivity. Qed.

Lemma ret_Returns {A} (a b : A) w w' :
  mret (M := M) a w = Returns b w' <-> b = a /\ w' = w.
Proof. unfold mret, M_ret. split; [intros [= <- <-] | intros [-> ->]]; auto. Qed.

Lemma deref_Returns l w e w' :
  deref l w = Returns e w' <-> heap w !! l = Some e /\ w' = w.
Proof.
  unfold deref. destruct (heap w !! l).
  - split; [intros [= <- <-] | intros [[= <-] ->]]; auto.
  - split; [discriminate | intros [[=] _]].
Qed.

Lemma modify_Returns l f w u w' :
  modify l f w = Returns u w' <->
  exists e, heap w !! l = Some e /\
            w' = mkWorld (<[l := f e]> (heap w)) (draws w) (cursor w).
Proof.
  unfold modify. destruct (heap w !! l) as [e|].
  - split; [intros [= <- <-]; eauto | intros (? & [= <-] & ->); destruct u; auto].
  - split; [discriminate | intros (? & [=] & _)].
Qed.

Lemma get_kind_Returns l w k w' :
  get_kind l w = Returns k w' <->
  (exists e, heap w !! l = Some e /\ kind e = Some k) /\ w' = w.
Proof.
  unfold get_kind. rewrite bind_Returns. split.
  - intros (e & w1 & [He ->]%deref_Returns & Hk).
    destruct (kind e) eqn:Ek; [|discriminate].
    apply ret_Returns in Hk as [-> ->]. eauto.
  - intros [(e & He & Hk) ->]. exists e, w. split; [by apply deref_Returns|].
    rewrite Hk. reflexivity.
Qed.

Lemma deref_eq l w e : heap w !! l = Some e -> deref l w = Returns e w.
Proof. intros. by apply deref_Returns. Qed.

Lemma get_kind_eq l w e k :
  heap w !! l = Some e -> kind e = Some k -> get_kind l w = Returns k w.
Proof. intros. apply get_kind_Returns. eauto. Qed.

Lemma get_kind_no_kind l w e :
  heap w !! l = Some e -> kind e = None -> get_kind l w = Raises AttributeError.
Proof.
  intros He Hk. unfold get_kind. rewrite (bind_eq _ _ _ _ _ (deref_eq _ _ _ He)).
  rewrite Hk. reflexivity.
Qed.

Lemma deref_bad l w : heap w !! l = None -> deref l w = Raises BadRef.
Proof. unfold deref. intros ->. reflexivity. Qed.

Lemma get_kind_bad l w : heap w !! l = None -> get_kind l w = Raises BadRef.
Proof. intros. unfold get_kind. apply bind_Raises. by apply deref_bad. Qed.


(** ** Loops *)

Lemma occ_cons_eq l ls : occ l (l :: ls) = S (occ l ls).
Proof. unfold occ. apply count_occ_cons_eq. reflexivity. Qed.

Lemma occ_cons_ne l k ls : k <> l -> occ l (k :: ls) = occ l ls.
Proof. unfold occ. intros. by apply count_occ_cons_neq. Qed.

Lemma occ_NoDup l ls : NoDup ls -> l ∈ ls -> occ l ls = 1%nat.
Proof.
  unfold occ. intros Hnd Hin.
  apply list_elem_of_In in Hin.
  apply NoDup_ListNoDup in Hnd.
  apply (proj1 (NoDup_count_occ' Nat.eq_dec ls) Hnd). assumption.
Qed.


(** A loop of attribute updates applies the update to each object once
    for every reference the list holds to it, and to nothing else. *)
Lemma for_each_modify_Returns (f : Entity -> Entity) ls :
  forall w u w',
    for_each (fun l => modify l f) ls w = Returns u w' ->
    draws w' = draws w /\ cursor w' = cursor w /\
    length (heap w') = length (heap w) /\
    (forall l, heap w' !! l = Nat.iter (occ l ls) f <$> heap w !! l) /\
    Forall (fun l => is_Some (heap w !! l)) ls.
Proof.
  induction ls as [|k ls IH]; cbn [for_each]; intros w u w' H.
  - apply ret_Returns in H as [_ ->]. repeat split; auto.
    intros l. cbn. by destruct (heap w !! l).
  - apply bind_Returns in H as (? & w1 & (e & He & ->)%modify_Returns & H).
    apply IH in H as (Hd & Hc & Hlen & Hlk & Hall). cbn [heap draws cursor] in *.
    rewrite length_insert in Hlen.
    repeat split; auto.
    + intros l. rewrite Hlk. destruct (decide (k = l)) as [->|Hne].
      * rewrite occ_cons_eq, list_lookup_insert_eq by (by eapply lookup_lt_Some).
        rewrite He. unfold fmap, option_fmap, option_map.
        by rewrite Nat.iter_succ_r.
      * by rewrite occ_cons_ne, list_lookup_insert_ne.
    + constructor; [by eexists|].
      eapply Forall_impl; [exact Hall|]. cbn. intros l [e' He'].
      apply lookup_lt_is_Some. apply lookup_lt_Some in He'.
      by rewrite length_insert in He'.
Qed.

Lemma for_each_modify_total (f : Entity -> Entity) ls :
  forall w, Forall (fun l => is_Some (heap w !! l)) ls ->
            exists w', for_each (fun l => modify l f) ls w = Returns tt w'.
Proof.
  induction ls as [|k ls IH]; cbn [for_each]; intros w Hall.
  - eexists. reflexivity.
  - inversion Hall as [|? ? [e He] Hall']; subst.
    set (w1 := mkWorld (<[k := f e]> (heap w)) (draws w) (cursor w)).
    destruct (IH w1) as [w' Hw'].
    { eapply Forall_impl; [exact Hall'|]. cbn. intros l Hl.
      apply lookup_lt_is_Some. rewrite length_insert.
      by apply lookup_lt_is_Some. }
    exists w'. apply bind_Returns. exists tt, w1. split; [|assumption].
    apply modify_Returns. eauto.
Qed.

(** A comprehension whose test reads the world without changing it is a
    filter. *)
Lemma comprehension_Returns {A} (test : A -> M bool) (p : A -> bool) w ls :
  (forall a b w1, a ∈ ls -> test a w = Returns b w1 -> w1 = w /\ b = p a) ->
  forall r w', comprehension test ls w = Returns r w' ->
               w' = w /\ r = List.filter p ls.
Proof.
  induction ls as [|a ls IH]; cbn [comprehension List.filter]; intros Ht r w' H.
  - apply ret_Returns in H as [-> ->]. auto.
  - apply bind_Returns in H as (b & w1 & Hb & H).
    apply Ht in Hb as [-> ->]; [|by left].
    apply bind_Returns in H as (r' & w2 & Hr & H).
    apply IH in Hr as [-> ->]; [|intros; eapply Ht; [by right|eassumption]].
    apply ret_Returns in H as [-> ->]. auto.
Qed.

Lemma comprehension_total {A} (test : A -> M bool) w ls :
  (forall a, a ∈ ls -> exists b, test a w = Returns b w) ->
  exists r, comprehension test ls w = Returns r w.
Proof.
  induction ls as [|a ls IH]; cbn [comprehension]; intros Ht.
  - eexists. reflexivity.
  - destruct (Ht a) as [b Hb]; [by left|].
    destruct IH as [r Hr]; [intros; apply Ht; by right|].
    eexists. apply bind_Returns. exists b, w. split; [assumption|].
    apply bind_Returns. exists r, w. split; [assumption|]. reflexivity.
Qed.

(** An invariant of every iteration is an invariant of the loop. *)
Lemma for_fold_invariant {A B} (I : B -> World -> Prop) (body : B -> A -> M B) ls :
  (forall acc a w acc' w',
      a ∈ ls -> I acc w -> body acc a w = Returns acc' w' -> I acc' w') ->
  forall acc w r w',
    I acc w -> for_fold body acc ls w = Returns r w' -> I r w'.
Proof.
  induction ls as [|a ls IH]; cbn [for_fold]; intros Hb acc w r w' HI H.
  - apply ret_Returns in H as [-> ->]. assumption.
  - apply bind_Returns in H as (acc1 & w1 & H1 & H).
    eapply IH; [| |exact H].
    + intros; eapply Hb; [by right| |]; eassumption.
    + eapply Hb; [by left| |]; eassumption.
Qed.

(** What the iteration on one element establishes, and every iteration
    keeps, holds after the loop when the list has that element. *)
Lemma for_fold_establishes {A B} (I : B -> World -> Prop) (G : World -> Prop)
    (body : B -> A -> M B) (a0 : A) ls :
  (forall acc a w acc' w',
      a ∈ ls -> I acc w -> body acc a w = Returns acc' w' -> I acc' w') ->
  (forall acc w acc' w',
      I acc w -> body acc a0 w = Returns acc' w' -> G w') ->
  (forall acc a w acc' w',
      a ∈ ls -> I acc w -> G w -> body acc a w = Returns acc' w' -> G w') ->
  a0 ∈ ls ->
  forall acc w r w',
    I acc w -> for_fold body acc ls w = Returns r w' -> G w'.
Proof.
  intros HI Hest Hkeep Hin acc w r w' Hacc H.
  assert (forall ls' acc w r w',
             ls' ⊆ ls -> I acc w -> G w ->
             for_fold body acc ls' w = Returns r w' -> G w') as Hsuffix.
  { clear -HI Hkeep. induction ls' as [|a ls' IH]; cbn [for_fold];
      intros acc w r w' Hsub Hacc HG H.
    - apply ret_Returns in H as [-> ->]. assumption.
    - apply bind_Returns in H as (acc1 & w1 & H1 & H).
      assert (a ∈ ls) by (apply Hsub; by left).
      eapply IH; [| | |exact H]; [| eauto | eauto].
      intros b Hb. apply Hsub. by right. }
  revert acc w Hacc H.
  assert (forall ls', ls' ⊆ ls -> a0 ∈ ls' ->
            forall acc w, I acc w ->
              for_fold body acc ls' w = Returns r w' -> G w') as Hgen.
  { induction ls' as [|a ls' IH]; cbn [for_fold]; intros Hsub Hin' acc w Hacc H.
    - by apply elem_of_nil in Hin'.
    - apply bind_Returns in H as (acc1 & w1 & H1 & H).
      assert (a ∈ ls) by (apply Hsub; by left).
      assert (ls' ⊆ ls) by (intros b Hb; apply Hsub; by right).
      apply elem_of_cons in Hin' as [<-|Hin'].
      + eapply Hsuffix; [eassumption| | |exact H]; eauto.
      + eapply IH; [assumption|assumption| |exact H]. eauto. }
  intros. eapply Hgen; eauto.
Qed.

(** ** The random source, indexing and allocation *)

Lemma random_eq w : random w = Returns (next_random w) (advance 1 w).
Proof. reflexivity. Qed.

Lemma randint_eq a b w :
  a <= b ->
  randint a b w =
  Returns (a + draws w (cursor w) mod (b - a + 1)) (advance 1 w).
Proof.
  intros Hab. unfold randint.
  destruct (Z.ltb_spec b a); [lia|]. reflexivity.
Qed.

Lemma randint_empty a b w : b < a -> randint a b w = Raises ValueError.
Proof.
  intros Hab. unfold randint.
  destruct (Z.ltb_spec b a); [reflexivity|lia].
Qed.

Lemma randint_range a b z : a <= b -> a <= a + z mod (b - a + 1) <= b.
Proof.
  intros Hab. pose proof (Z.mod_pos_bound z (b - a + 1)). lia.
Qed.

Lemma getitem_valid {A} (seq : list A) i w :
  valid_index seq i -> exists c, c ∈ seq /\ getitem seq i w = Returns c w.
Proof.
  unfold valid_index, getitem. intros Hi.
  set (j := if i <? 0 then i + Z.of_nat (length seq) else i).
  assert (0 <= j < Z.of_nat (length seq)) as Hj.
  { subst j. destruct (Z.ltb_spec i 0); lia. }
  destruct (Z.ltb_spec j 0); [lia|].
  destruct (seq !! Z.to_nat j) as [c|] eqn:Ec.
  - exists c. split; [|reflexivity]. eapply list_elem_of_lookup_2. exact Ec.
  - apply lookup_ge_None in Ec. lia.
Qed.

Lemma getitem_invalid {A} (seq : list A) i w :
  ~ valid_index seq i -> getitem seq i w = Raises IndexError.
Proof.
  unfold valid_index, getitem. intros Hi.
  set (j := if i <? 0 then i + Z.of_nat (length seq) else i).
  destruct (Z.ltb_spec j 0); [reflexivity|].
  destruct (seq !! Z.to_nat j) as [c|] eqn:Ec; [|reflexivity].
  apply lookup_lt_Some in Ec. subst j.
  destruct (Z.ltb_spec i 0); lia.
Qed.

Lemma getitem_Returns {A} (seq : list A) i w c w' :
  getitem seq i w = Returns c w' -> c ∈ seq /\ w' = w /\ valid_index seq i.
Proof.
  intros H. destruct (decide (valid_index seq i)) as [Hv|Hv].
  - destruct (getitem_valid seq i w Hv) as (c' & Hc & Heq).
    rewrite Heq in H. injection H as <- <-. auto.
  - rewrite getitem_invalid in H by assumption. discriminate.
Qed.

Lemma choice_nonempty {A} (seq : list A) w :
  seq <> [] -> exists c, c ∈ seq /\ choice seq w = Returns c (advance 1 w).
Proof.
  intros Hne. destruct seq as [|a seq]; [done|].
  unfold choice. set (s := a :: seq) in *.
  assert (0 < Z.of_nat (length s)) as Hlen by (subst s; cbn [length]; lia).
  destruct (getitem_valid s (draws w (cursor w) mod Z.of_nat (length s))
              (advance 1 w)) as (c & Hc & Heq).
  { unfold valid_index.
    pose proof (Z.mod_pos_bound (draws w (cursor w)) _ Hlen). lia. }
  exists c. split; [assumption|].
  apply bind_Returns. eexists _, _. split; [reflexivity|exact Heq].
Qed.

Lemma choice_Returns {A} (seq : list A) w c w' :
  choice seq w = Returns c w' -> c ∈ seq /\ w' = advance 1 w.
Proof.
  intros H. destruct seq as [|a seq]; [discriminate|].
  destruct (choice_nonempty (a :: seq) w) as (c' & Hc & Heq); [done|].
  rewrite Heq in H. injection H as <- <-. auto.
Qed.

Lemma Bubble_eq x0 y0 c w :
  exists glyph, glyph ∈ ["."; "o"; "O"]%string /\
    Bubble x0 y0 c w =
    Returns (length (heap w)) (extend (bubble_obj x0 y0 c glyph) (advance 1 w)).
Proof.
  destruct (choice_nonempty ["."; "o"; "O"]%string w) as (g & Hg & Heq); [done|].
  exists g. split; [assumption|].
  apply bind_Returns. eexists _, _. split; [exact Heq|reflexivity].
Qed.

(** ** The bubble roll *)

Lemma roll_bubble_eq a l new w e k :
  heap w !! l = Some e -> kind e = Some k ->
  roll_bubble a l new w =
  if rolls k then
    if Qlt_bool (next_random w) 0.02 then
      (n ← randint 0 (width e - 1);
       bubble_color ← getitem (water_colors a) (water_color_index a);
       b ← Bubble (x e + n) (y e) (Some bubble_color);
       mret (new ++ [b])) (advance 1 w)
    else Returns new (advance 1 w)
  else Returns new w.
Proof.
  intros He Hk. unfold roll_bubble, rolls.
  rewrite (bind_eq _ _ _ _ _ (get_kind_eq _ _ _ _ He Hk)).
  destruct (_ || _); [|reflexivity].
  rewrite (bind_eq _ _ _ _ _ (random_eq w)).
  destruct (Qlt_bool _ _); [|reflexivity].
  rewrite (bind_eq _ _ _ _ _ (deref_eq l (advance 1 w) e He)). reflexivity.
Qed.

Lemma roll_bubble_no_kind a l new w e :
  heap w !! l = Some e -> kind e = None ->
  roll_bubble a l new w = Raises AttributeError.
Proof.
  intros He Hk. unfold roll_bubble.
  apply bind_Raises. by eapply get_kind_no_kind.
Qed.

Lemma roll_bubble_emits a l new w e k :
  heap w !! l = Some e -> kind e = Some k -> rolls k = true ->
  Qlt_bool (next_random w) 0.02 = true ->
  0 < width e ->
  valid_index (water_colors a) (water_color_index a) ->
  exists n c glyph,
    0 <= n < width e /\ c ∈ water_colors a /\
    glyph ∈ ["."; "o"; "O"]%string /\
    roll_bubble a l new w =
    Returns (new ++ [length (heap w)])
            (extend (bubble_obj (x e + n) (y e) (Some c) glyph) (advance 3 w)).
Proof.
  intros He Hk Hr Hroll Hw Hp.
  rewrite (roll_bubble_eq _ _ _ _ _ _ He Hk), Hr, Hroll.
  set (w1 := advance 1 w).
  pose proof (randint_eq 0 (width e - 1) w1 ltac:(lia)) as Hn.
  pose proof (randint_range 0 (width e - 1) (draws w1 (cursor w1)) ltac:(lia)) as Hrange.
  set (n := 0 + draws w1 (cursor w1) mod (width e - 1 - 0 + 1)) in *.
  destruct (getitem_valid _ _ (advance 1 w1) Hp) as (c & Hc & Hget).
  destruct (Bubble_eq (x e + n) (y e) (Some c) (advance 1 w1)) as (g & Hg & Hb).
  exists n, c, g. repeat split; [lia|lia|assumption|assumption|].
  rewrite (bind_eq _ _ _ _ _ Hn), (bind_eq _ _ _ _ _ Hget), (bind_eq _ _ _ _ _ Hb).
  reflexivity.
Qed.

Lemma roll_bubble_Returns a l new w new' w' :
  roll_bubble a l new w = Returns new' w' ->
  exists e k, heap w !! l = Some e /\ kind e = Some k /\
    ((new' = new /\ heap w' = heap w /\ draws w' = draws w /\
      (cursor w <= cursor w')%nat /\
      (rolls k = false \/ Qlt_bool (next_random w) 0.02 = false)) \/
     (rolls k = true /\ Qlt_bool (next_random w) 0.02 = true /\
      exists n c glyph,
        0 <= n < width e /\ c ∈ water_colors a /\
        new' = new ++ [length (heap w)] /\
        w' = extend (bubble_obj (x e + n) (y e) (Some c) glyph) (advance 3 w))).
Proof.
  intros H.
  destruct (heap w !! l) as [e|] eqn:He.
  2:{ unfold roll_bubble in H.
      rewrite (bind_Raises _ _ _ _ (get_kind_bad _ _ He)) in H. discriminate. }
  destruct (kind e) as [k|] eqn:Hk.
  2:{ rewrite (roll_bubble_no_kind _ _ _ _ _ He Hk) in H. discriminate. }
  exists e, k. split; [reflexivity|]. split; [assumption|].
  destruct (rolls k) eqn:Hr.
  2:{ rewrite (roll_bubble_eq _ _ _ _ _ _ He Hk), Hr in H.
      injection H as <- <-. left. auto 10. }
  destruct (Qlt_bool (next_random w) 0.02) eqn:Hroll.
  2:{ rewrite (roll_bubble_eq _ _ _ _ _ _ He Hk), Hr, Hroll in H.
      injection H as <- <-. left. cbn. auto 10 with arith. }
  right. split; [reflexivity|]. split; [reflexivity|].
  destruct (Z.ltb_spec 0 (width e)) as [Hw|Hw].
  2:{ rewrite (roll_bubble_eq _ _ _ _ _ _ He Hk), Hr, Hroll in H.
      rewrite (bind_Raises _ _ _ ValueError) in H; [discriminate|].
      apply randint_empty. lia. }
  destruct (decide (valid_index (water_colors a) (water_color_index a))) as [Hp|Hp].
  2:{ rewrite (roll_bubble_eq _ _ _ _ _ _ He Hk), Hr, Hroll in H.
      rewrite (bind_eq _ _ _ _ _
                 (randint_eq 0 (width e - 1) (advance 1 w) ltac:(lia))) in H.
      rewrite (bind_Raises _ _ _ IndexError) in H; [discriminate|].
      by apply getitem_invalid. }
  destruct (roll_bubble_emits a l new w e k He Hk Hr Hroll Hw Hp)
    as (n & c & g & Hn & Hc & _ & Heq).
  rewrite Heq in H. injection H as <- <-. eauto 10.
Qed.

Lemma roll_bubble_total a l new w e :
  heap w !! l = Some e -> is_Some (kind e) ->
  (kind e = Some fish \/ kind e = Some other_creature -> 0 < width e) ->
  valid_index (water_colors a) (water_color_index a) ->
  exists new' w', roll_bubble a l new w = Returns new' w'.
Proof.
  intros He [k Hk] Hw Hp.
  destruct (rolls k) eqn:Hr.
  2:{ rewrite (roll_bubble_eq _ _ _ _ _ _ He Hk), Hr. eauto. }
  destruct (Qlt_bool (next_random w) 0.02) eqn:Hroll.
  2:{ rewrite (roll_bubble_eq _ _ _ _ _ _ He Hk), Hr, Hroll. eauto. }
  assert (0 < width e) as Hpos.
  { apply Hw. rewrite Hk. unfold rolls in Hr.
    apply orb_true_iff in Hr as [->%bool_decide_eq_true | ->%bool_decide_eq_true]; auto. }
  destruct (roll_bubble_emits a l new w e k He Hk Hr Hroll Hpos Hp)
    as (n & c & g & _ & _ & _ & Heq).
  rewrite Heq. eauto.
Qed.

(** ** Predation *)

Lemma set_dead_same e : set_dead (dead e) e = e.
Proof. by destruct e. Qed.


Lemma world_eta w : mkWorld (heap w) (draws w) (cursor w) = w.
Proof. by destruct w. Qed.

(** The inner loop leaves the entity with its dead flag or-ed with the
    overlap test against the sharks, and touches nothing else. *)
Lemma predation_Returns l sharks :
  forall w u w' e,
    heap w !! l = Some e ->
    predation l sharks w = Returns u w' ->
    w' = mkWorld (<[l := set_dead (dead e || hit_by (heap w) e sharks) e]> (heap w))
                 (draws w) (cursor w).
Proof.
  induction sharks as [|s sharks IH]; cbn [predation hit_by existsb];
    intros w u w' e He H.
  - apply ret_Returns in H as [_ ->].
    rewrite orb_false_r, set_dead_same, list_insert_id, world_eta; auto.
  - rewrite (bind_eq _ _ _ _ _ (deref_eq _ _ _ He)) in H.
    destruct (dead e) eqn:Hd.
    + rewrite (bind_eq _ _ _ false w) in H by reflexivity.
      apply (IH _ _ _ _ He) in H. rewrite Hd in H. exact H.
    + destruct (heap w !! s) as [sh|] eqn:Hs.
      2:{ rewrite (bind_Raises _ _ _ BadRef) in H; [discriminate|].
          apply bind_Raises. by apply deref_bad. }
      rewrite (bind_eq _ _ _ (collides_with sh e) w) in H
        by (rewrite (bind_eq _ _ _ _ _ (deref_eq _ _ _ Hs)); reflexivity).
      destruct (collides_with sh e).
      * apply modify_Returns in H as (e' & He' & ->).
        rewrite He in He'. injection He' as <-. reflexivity.
      * apply (IH _ _ _ _ He) in H. rewrite Hd in H. exact H.
Qed.

Lemma predation_total l sharks :
  forall w e,
    heap w !! l = Some e ->
    Forall (fun s => is_Some (heap w !! s)) sharks ->
    exists w', predation l sharks w = Returns tt w'.
Proof.
  induction sharks as [|s sharks IH]; cbn [predation]; intros w e He Hall.
  - eexists. reflexivity.
  - inversion Hall as [|? ? [sh Hs] Hall']; subst.
    rewrite (bind_eq _ _ _ _ _ (deref_eq _ _ _ He)).
    destruct (dead e) eqn:Hd.
    + rewrite (bind_eq _ _ _ false w) by reflexivity. eauto.
    + rewrite (bind_eq _ _ _ (collides_with sh e) w)
        by (rewrite (bind_eq _ _ _ _ _ (deref_eq _ _ _ Hs)); reflexivity).
      destruct (collides_with sh e); [|eauto].
      eexists. apply modify_Returns. eauto.
Qed.

(** ** One iteration of the second loop *)

Lemma tick_entity_Returns a sharks new l w new' w' :
  tick_entity a sharks new l w = Returns new' w' ->
  exists w1 e k,
    roll_bubble a l new w = Returns new' w1 /\
    heap w1 !! l = Some e /\ kind e = Some k /\
    w' = if bool_decide (k = fish)
         then mkWorld (<[l := set_dead (dead e || hit_by (heap w1) e sharks) e]> (heap w1))
                      (draws w1) (cursor w1)
         else w1.
Proof.
  unfold tick_entity. intros H.
  apply bind_Returns in H as (new1 & w1 & Hroll & H).
  apply bind_Returns in H as (k & w2 & [(e & He & Hk) ->]%get_kind_Returns & H).
  apply bind_Returns in H as ([] & w3 & Hp & [-> ->]%ret_Returns).
  exists w1, e, k. repeat split; try assumption.
  destruct (bool_decide (k = fish)).
  - by eapply predation_Returns.
  - by apply ret_Returns in Hp as [_ ->].
Qed.

Lemma tick_entity_total a sharks new l w e :
  heap w !! l = Some e -> is_Some (kind e) ->
  (kind e = Some fish \/ kind e = Some other_creature -> 0 < width e) ->
  valid_index (water_colors a) (water_color_index a) ->
  Forall (fun s => is_Some (heap w !! s)) sharks ->
  exists new' w', tick_entity a sharks new l w = Returns new' w'.
Proof.
  intros He Hk Hw Hp Hsh.
  destruct (roll_bubble_total a l new w e He Hk Hw Hp) as (new' & w1 & Hroll).
  pose proof Hroll as Hroll'.
  apply roll_bubble_Returns in Hroll' as (e' & k & He' & Hk' & Hcases).
  rewrite He in He'. injection He' as <-.
  assert (heap w1 !! l = Some e /\
          Forall (fun s => is_Some (heap w1 !! s)) sharks) as [He1 Hsh1].
  { destruct Hcases as [(_ & -> & _)|(_ & _ & n & c & g & _ & _ & _ & ->)].
    - auto.
    - cbn [heap extend advance]. split.
      + by apply lookup_app_l_Some.
      + eapply Forall_impl; [exact Hsh|]. cbn. intros s [sh Hs].
        exists sh. by apply lookup_app_l_Some. }
  unfold tick_entity. rewrite (bind_eq _ _ _ _ _ Hroll).
  rewrite (bind_eq _ _ _ _ _ (get_kind_eq _ _ _ _ He1 Hk')).
  destruct (bool_decide (k = fish)).
  - destruct (predation_total l sharks w1 e He1 Hsh1) as (w' & Hw').
    rewrite (bind_eq _ _ _ _ _ Hw'). eauto.
  - rewrite (bind_eq _ _ _ tt w1) by reflexivity. eauto.
Qed.

(** ** The second loop as a whole *)

Lemma ticked_refl w : ticked w w.
Proof.
  split; [reflexivity|]. split; [lia|]. split; [lia|]. split; [auto|].
  intros l e Hl He. apply lookup_lt_Some in He. lia.
Qed.

Lemma ticked_trans w0 w1 w2 : ticked w0 w1 -> ticked w1 w2 -> ticked w0 w2.
Proof.
  intros (Hd1 & Hc1 & Hl1 & Ho1 & Hn1) (Hd2 & Hc2 & Hl2 & Ho2 & Hn2).
  split; [congruence|]. split; [lia|]. split; [lia|]. split.
  - intros l e He. destruct (Ho1 l e He) as [H1|[Hk H1]].
    + apply Ho2 in H1. tauto.
    + apply Ho2 in H1 as [H2|[_ H2]]; auto.
  - intros l e Hl He.
    destruct (decide (length (heap w1) <= l)%nat) as [Hge|Hlt].
    + by eapply Hn2.
    + destruct (lookup_lt_is_Some_2 (heap w1) l ltac:(lia)) as [e1 He1].
      destruct (Hn1 l e1 Hl He1) as [Hk1 Hdead1].
      destruct (Ho2 l e1 He1) as [H2|[Hk2 _]]; [|congruence].
      rewrite He in H2. injection H2 as ->. auto.
Qed.

Lemma ticked_extend w b n :
  kind b = Some bubble -> dead b = false -> ticked w (extend b (advance n w)).
Proof.
  intros Hk Hd. unfold ticked. cbn [heap draws cursor extend advance].
  rewrite length_app. cbn [length].
  split; [reflexivity|]. split; [lia|]. split; [lia|]. split.
  - intros l e He. left. by apply lookup_app_l_Some.
  - intros l e Hl He.
    apply lookup_app_Some in He as [He|[_ He]].
    + apply lookup_lt_Some in He. lia.
    + apply list_lookup_singleton_Some in He as [_ <-]. auto.
Qed.

Lemma ticked_mark w l e b :
  heap w !! l = Some e -> kind e = Some fish ->
  ticked w (mkWorld (<[l := set_dead (dead e || b) e]> (heap w)) (draws w) (cursor w)).
Proof.
  intros He Hk. unfold ticked. cbn [heap draws cursor].
  rewrite length_insert.
  split; [reflexivity|]. split; [lia|]. split; [lia|]. split.
  - intros l' e' He'. destruct (decide (l = l')) as [<-|Hne].
    + rewrite He in He'. injection He' as <-.
      rewrite list_lookup_insert_eq by (by eapply lookup_lt_Some).
      destruct (dead e || b) eqn:Hv; [by right|].
      left. apply orb_false_iff in Hv as [<- _]. by rewrite set_dead_same.
    + left. by rewrite list_lookup_insert_ne.
  - intros l' e' Hl' He'. apply lookup_lt_Some in He'.
    rewrite length_insert in He'. lia.
Qed.

Lemma roll_bubble_ticked a l new w new' w' :
  roll_bubble a l new w = Returns new' w' ->
  ticked w w' /\
  ((new' = new /\ length (heap w') = length (heap w)) \/
   (new' = new ++ [length (heap w)] /\ length (heap w') = S (length (heap w)))).
Proof.
  intros H.
  apply roll_bubble_Returns in H as (e0 & k0 & He0 & Hk0 & Hcases).
  destruct Hcases as [(-> & Hh & Hd & Hc & _)|(_ & _ & n & c & g & _ & _ & -> & ->)].
  - split; [|left; by rewrite Hh].
    destruct (ticked_refl w) as (_ & _ & _ & Ho & Hn).
    unfold ticked. rewrite Hh. auto.
  - split; [by apply ticked_extend|right].
    cbn [heap extend]. rewrite length_app. cbn. auto with lia.
Qed.

Lemma tick_entity_ticked a sharks new l w new' w' :
  tick_entity a sharks new l w = Returns new' w' ->
  ticked w w' /\
  ((new' = new /\ length (heap w') = length (heap w)) \/
   (new' = new ++ [length (heap w)] /\ length (heap w') = S (length (heap w)))).
Proof.
  intros H.
  apply tick_entity_Returns in H as (w1 & e & k & Hroll & He & Hk & ->).
  apply roll_bubble_ticked in Hroll as [Ht1 Hnew].
  destruct (bool_decide_reflect (k = fish)) as [->|_]; [|auto].
  split.
  - eapply ticked_trans; [exact Ht1|]. by apply ticked_mark.
  - cbn [heap]. rewrite length_insert. exact Hnew.
Qed.

Lemma fresh_refs_step w0 w w' new new' :
  ticked w0 w -> fresh_refs w0 w new ->
  ((new' = new /\ length (heap w') = length (heap w)) \/
   (new' = new ++ [length (heap w)] /\ length (heap w') = S (length (heap w)))) ->
  fresh_refs w0 w' new'.
Proof.
  intros (_ & _ & Hlen & _) [Hnd Hall] [[-> Hl]|[-> Hl]];
    unfold fresh_refs; rewrite Hl; [auto|].
  split.
  - apply NoDup_app. repeat split; [assumption| |apply NoDup_singleton].
    intros k Hk ->%list_elem_of_singleton.
    rewrite Forall_forall in Hall. apply Hall in Hk. lia.
  - apply Forall_app. split.
    + eapply Forall_impl; [exact Hall|]. cbn. lia.
    + constructor; [lia|constructor].
Qed.

Lemma ticked_dead w w' l e :
  ticked w w' -> heap w !! l = Some e -> dead e = true ->
  exists e', heap w' !! l = Some e' /\ dead e' = true.
Proof.
  intros (_ & _ & _ & Ho & _) He Hd.
  destruct (Ho l e He) as [H|[_ H]]; eauto.
Qed.

(** The second loop leaves every object that is not a fish as it found
    it, and changes at most the dead flag of a fish. *)
Lemma ticked_lookup w w' l e :
  ticked w w' -> heap w !! l = Some e ->
  exists e', heap w' !! l = Some e' /\
    (e' = e \/ (kind e = Some fish /\ e' = set_dead true e)).
Proof.
  intros (_ & _ & _ & Ho & _) He.
  destruct (Ho l e He) as [H|[Hk H]]; eauto.
Qed.

Lemma tick_phase_Returns a sharks ls w0 new w' :
  for_fold (tick_entity a sharks) [] ls w0 = Returns new w' ->
  ticked w0 w' /\ fresh_refs w0 w' new.
Proof.
  apply (for_fold_invariant
           (fun acc w => ticked w0 w /\ fresh_refs w0 w acc)).
  - intros acc l w acc' w1 _ [Ht Hfresh] H.
    apply tick_entity_ticked in H as [Ht1 Hcases].
    split; [by eapply ticked_trans|by eapply fresh_refs_step].
  - split; [apply ticked_refl|]. split; [constructor|constructor].
Qed.

(** ** [update] as its four phases *)

Lemma for_fold_total {A B} (I : B -> World -> Prop) (body : B -> A -> M B) ls :
  (forall acc a w, a ∈ ls -> I acc w ->
     exists acc' w', body acc a w = Returns acc' w' /\ I acc' w') ->
  forall acc w, I acc w ->
    exists r w', for_fold body acc ls w = Returns r w' /\ I r w'.
Proof.
  induction ls as [|a ls IH]; cbn [for_fold]; intros Hb acc w HI.
  - exists acc, w. auto.
  - destruct (Hb acc a w) as (acc1 & w1 & H1 & HI1); [by left|assumption|].
    destruct (IH (fun acc a w Hin => Hb acc a w (list_elem_of_further _ _ _ Hin))
                acc1 w1 HI1) as (r & w' & Hr & HI').
    exists r, w'. split; [|assumption].
    by rewrite (bind_eq _ _ _ _ _ H1).
Qed.

Lemma snapshot_Returns ls w sharks w' :
  comprehension (fun e => k ← get_kind e; mret (bool_decide (k = shark))) ls w
    = Returns sharks w' ->
  w' = w /\ sharks = snapshot (heap w) ls.
Proof.
  apply comprehension_Returns.
  intros l b w2 _ Hk.
  apply bind_Returns in Hk as (k & w3 & [(e & He & Hk) ->]%get_kind_Returns & Hr).
  apply ret_Returns in Hr as [-> ->]. split; [reflexivity|].
  unfold kind_at. rewrite He. cbn. rewrite Hk.
  apply bool_decide_ext. split; congruence.
Qed.

Lemma purge_Returns ls w live w' :
  comprehension (fun e => o ← deref e; mret (negb (dead o))) ls w
    = Returns live w' ->
  w' = w /\ live = List.filter (live_at (heap w)) ls.
Proof.
  apply comprehension_Returns.
  intros l b w4 _ Hd.
  apply bind_Returns in Hd as (o & w5 & [Ho ->]%deref_Returns & Hr).
  apply ret_Returns in Hr as [-> ->]. split; [reflexivity|].
  unfold live_at. by rewrite Ho.
Qed.

Lemma update_Returns a w a' w' :
  update a w = Returns a' w' ->
  exists w1 new,
    for_each (fun l => modify l (move (max_x a) (max_y a))) (entities a) w
      = Returns tt w1 /\
    for_fold (tick_entity a (snapshot (heap w) (entities a))) [] (entities a) w1
      = Returns new w' /\
    a' = set_entities (List.filter (live_at (heap w')) (entities a ++ new)) a.
Proof.
  unfold update. intros H.
  apply bind_Returns in H as (sharks & w0 & Hs & H).
  apply (snapshot_Returns _ _ _ _) in Hs as [-> ->].
  apply bind_Returns in H as ([] & w1 & Hmove & H).
  apply bind_Returns in H as (new & w2 & Htick & H).
  apply bind_Returns in H as (live & w3 & Hlive & [-> ->]%ret_Returns).
  apply (purge_Returns _ _ _ _) in Hlive as [-> ->].
  exists w1, new. auto.
Qed.

Lemma iter_move_frame mw mh n e :
  kind (Nat.iter n (move mw mh) e) = kind e /\
  width (Nat.iter n (move mw mh) e) = width e.
Proof.
  induction n as [|n [IHk IHw]]; [auto|]. rewrite !Nat.iter_succ.
  destruct (move_keeps mw mh (Nat.iter n (move mw mh) e))
    as (_ & _ & Hfw & _ & _ & Hfk & _).
  split; congruence.
Qed.

Lemma update_total a w :
  ready a w -> exists a' w', update a w = Returns a' w'.
Proof.
  intros [Hp Hrdy]. unfold update.
  (* the snapshot *)
  destruct (comprehension_total
              (fun e => k ← get_kind e; mret (bool_decide (k = shark))) w (entities a))
    as (sharks & Hs).
  { intros l Hl. destruct (Hrdy l Hl) as (e & He & [k Hk] & _).
    eexists. rewrite (bind_eq _ _ _ _ _ (get_kind_eq _ _ _ _ He Hk)). reflexivity. }
  rewrite (bind_eq _ _ _ _ _ Hs).
  pose proof (snapshot_Returns _ _ _ _ Hs) as [_ Hsharks].
  (* the moves *)
  destruct (for_each_modify_total (move (max_x a) (max_y a)) (entities a) w)
    as (w1 & Hmove).
  { apply Forall_forall. intros l Hl.
    destruct (Hrdy l Hl) as (e & He & _). by eexists. }
  rewrite (bind_eq _ _ _ _ _ Hmove).
  pose proof (for_each_modify_Returns _ _ _ _ _ Hmove)
    as (Hd1 & Hc1 & Hlen1 & Hlk1 & _).
  (* the second loop *)
  destruct (for_fold_total
              (fun acc w2 => ticked w1 w2 /\ fresh_refs w1 w2 acc)
              (tick_entity a sharks) (entities a)) with (acc := @nil nat) (w := w1)
    as (new & w2 & Htick & Ht & Hfresh).
  { intros acc l w2 Hl [Ht Hfresh].
    destruct (Hrdy l Hl) as (e & He & Hk & Hw).
    assert (exists e2, heap w2 !! l = Some e2 /\ kind e2 = kind e /\ width e2 = width e)
      as (e2 & He2 & Hk2 & Hw2).
    { pose proof (Hlk1 l) as Hl1. rewrite He in Hl1. cbn in Hl1.
      set (e1 := Nat.iter _ _ e) in Hl1.
      destruct (iter_move_frame (max_x a) (max_y a) (occ l (entities a)) e)
        as [Hk1 Hw1]. fold e1 in Hk1, Hw1.
      destruct Ht as (_ & _ & _ & Ho & _).
      destruct (Ho l e1 Hl1) as [H2|[_ H2]]; eexists; (split; [exact H2|]); auto. }
    assert (Forall (fun s => is_Some (heap w2 !! s)) sharks) as Hsh.
    { rewrite Hsharks. apply Forall_forall. intros s Hsin. unfold snapshot in Hsin.
      apply list_elem_of_In, filter_In in Hsin as [Hsin _].
      apply list_elem_of_In in Hsin.
      destruct (Hrdy s Hsin) as (es & Hes & _).
      apply lookup_lt_is_Some. apply lookup_lt_Some in Hes.
      destruct Ht as (_ & _ & Hlen & _). lia. }
    destruct (tick_entity_total a sharks acc l w2 e2 He2) as (acc' & w3 & H3);
      [by rewrite Hk2| rewrite Hk2, Hw2; exact Hw |assumption|assumption|].
    exists acc', w3. split; [assumption|].
    pose proof (tick_entity_ticked _ _ _ _ _ _ _ H3) as [Ht3 Hcases].
    split; [by eapply ticked_trans|by eapply fresh_refs_step]. }
  { split; [apply ticked_refl|]. split; constructor. }
  cbn beta. rewrite (bind_eq _ _ _ _ _ Htick).
  (* the purge *)
  destruct (comprehension_total
              (fun e => o ← deref e; mret (negb (dead o))) w2
              (entities (set_entities (entities a ++ new) a)))
    as (live & Hlive).
  { cbn [entities set_entities]. intros l Hl.
    assert (is_Some (heap w2 !! l)) as [o Ho].
    { apply lookup_lt_is_Some. destruct Ht as (_ & _ & Hlen & _).
      apply elem_of_app in Hl as [Hl|Hl].
      - destruct (Hrdy l Hl) as (e & He & _). apply lookup_lt_Some in He. lia.
      - destruct Hfresh as [_ Hall]. rewrite Forall_forall in Hall.
        apply Hall in Hl. lia. }
    eexists. rewrite (bind_eq _ _ _ _ _ (deref_eq _ _ _ Ho)). reflexivity. }
  rewrite (bind_eq _ _ _ _ _ Hlive). eexists _, _. reflexivity.
Qed.

(** ** What one [update] does to the collection *)

(** The worlds between the phases of a returning [update]: [w1] after
    the moves, [w'] after the second loop, which the purge reads. *)
Lemma update_phases a w a' w' :
  update a w = Returns a' w' ->
  exists w1 new,
    (forall l, heap w1 !! l =
               Nat.iter (occ l (entities a)) (move (max_x a) (max_y a))
                 <$> heap w !! l) /\
    length (heap w1) = length (heap w) /\
    Forall (fun l => is_Some (heap w !! l)) (entities a) /\
    for_fold (tick_entity a (snapshot (heap w) (entities a))) [] (entities a) w1
      = Returns new w' /\
    ticked w1 w' /\ fresh_refs w1 w' new /\
    a' = set_entities (List.filter (live_at (heap w')) (entities a ++ new)) a.
Proof.
  intros H. apply update_Returns in H as (w1 & new & Hmove & Htick & ->).
  apply for_each_modify_Returns in Hmove as (_ & _ & Hlen & Hlk & Hall).
  pose proof (tick_phase_Returns _ _ _ _ _ _ Htick) as [Ht Hfresh].
  exists w1, new. auto 10.
Qed.

Lemma elem_of_purged a w a' w' l :
  update a w = Returns a' w' ->
  l ∈ entities a ->
  (l ∈ entities a' <-> live_at (heap w') l = true).
Proof.
  intros H Hl.
  apply update_phases in H as (w1 & new & _ & _ & _ & _ & _ & _ & ->).
  cbn [entities set_entities].
  rewrite list_elem_of_In, filter_In, <- list_elem_of_In, elem_of_app. tauto.
Qed.

Lemma purged_live a w a' w' l :
  update a w = Returns a' w' ->
  l ∈ entities a' ->
  exists e, heap w' !! l = Some e /\ dead e = false.
Proof.
  intros H Hl.
  apply update_phases in H as (w1 & new & _ & _ & _ & _ & _ & _ & ->).
  cbn [entities set_entities] in Hl.
  apply list_elem_of_In, filter_In in Hl as [_ Hlive].
  unfold live_at in Hlive. destruct (heap w' !! l) as [e|]; [|discriminate].
  exists e. split; [reflexivity|]. by apply negb_true_iff.
Qed.

(** An object of the collection that is not a fish ends the tick as its
    moves left it; it stays in the collection exactly when those moves
    did not mark it dead. *)
Lemma update_not_fish a w a' w' l e :
  update a w = Returns a' w' ->
  l ∈ entities a -> heap w !! l = Some e -> kind e <> Some fish ->
  let e1 := Nat.iter (occ l (entities a)) (move (max_x a) (max_y a)) e in
  heap w' !! l = Some e1 /\ (l ∈ entities a' <-> dead e1 = false).
Proof.
  intros H Hl He Hk e1.
  pose proof (elem_of_purged _ _ _ _ _ H Hl) as Hin.
  apply update_phases in H as (w1 & new & Hlk & _ & _ & _ & Ht & _ & _).
  specialize (Hlk l). rewrite He in Hlk. cbn in Hlk. fold e1 in Hlk.
  destruct (ticked_lookup _ _ _ _ Ht Hlk) as (e' & He' & [->|[Hk1 _]]).
  - split; [assumption|]. rewrite Hin. unfold live_at. rewrite He'.
    apply negb_true_iff.
  - destruct (iter_move_frame (max_x a) (max_y a) (occ l (entities a)) e)
      as [Hk' _]. fold e1 in Hk'. congruence.
Qed.

(** A fish that overlaps, after the moves, a shark that was in the
    collection when the tick began is not in the collection afterwards. *)
Lemma update_fish_eaten a w a' w' l e s sh :
  update a w = Returns a' w' ->
  l ∈ entities a -> heap w !! l = Some e -> kind e = Some fish ->
  s ∈ entities a -> heap w !! s = Some sh -> kind sh = Some shark ->
  collides_with
    (Nat.iter (occ s (entities a)) (move (max_x a) (max_y a)) sh)
    (Nat.iter (occ l (entities a)) (move (max_x a) (max_y a)) e) = true ->
  l ∉ entities a'.
Proof.
  intros H Hl He Hk Hs Hsh Hks Hcol.
  pose proof (elem_of_purged _ _ _ _ _ H Hl) as Hin.
  apply update_phases in H as (w1 & new & Hlk & _ & _ & Htick & _ & _ & _).
  set (e1 := Nat.iter (occ l (entities a)) _ e) in *.
  set (sh1 := Nat.iter (occ s (entities a)) _ sh) in *.
  assert (heap w1 !! l = Some e1) as He1 by (rewrite Hlk, He; reflexivity).
  assert (heap w1 !! s = Some sh1) as Hsh1 by (rewrite Hlk, Hsh; reflexivity).
  assert (kind e1 = Some fish) as Hk1.
  { subst e1. rewrite (proj1 (iter_move_frame _ _ _ _)). exact Hk. }
  assert (kind sh1 = Some shark) as Hks1.
  { subst sh1. rewrite (proj1 (iter_move_frame _ _ _ _)). exact Hks. }
  assert (s ∈ snapshot (heap w) (entities a)) as Hsnap.
  { unfold snapshot. apply list_elem_of_In, filter_In. split.
    - by apply list_elem_of_In.
    - apply bool_decide_eq_true. unfold kind_at. rewrite Hsh. exact Hks. }
  assert (exists e', heap w' !! l = Some e' /\ dead e' = true) as (e' & He' & Hd').
  { eapply (for_fold_establishes
              (fun _ w2 => ticked w1 w2)
              (fun w2 => exists e', heap w2 !! l = Some e' /\ dead e' = true)
              _ l (entities a)); [| | |exact Hl| |exact Htick].
    - intros acc k w2 acc' w3 _ Ht H3.
      apply tick_entity_ticked in H3 as [Ht3 _]. by eapply ticked_trans.
    - intros acc w2 acc' w3 Ht H3.
      apply tick_entity_Returns in H3 as (w2' & e2 & k & Hroll & He2 & Hk2 & ->).
      apply roll_bubble_ticked in Hroll as [Ht2 _].
      pose proof (ticked_trans _ _ _ Ht Ht2) as Ht'.
      destruct (ticked_lookup _ _ _ _ Ht' He1) as (e2' & He2' & Hcase).
      rewrite He2 in He2'. injection He2' as <-.
      destruct (ticked_lookup _ _ _ _ Ht' Hsh1) as (sh2 & Hsh2 & [->|[Hc _]]);
        [|congruence].
      assert (k = fish) as ->.
      { destruct Hcase as [->|[_ ->]]; cbn in Hk2; congruence. }
      rewrite bool_decide_eq_true_2 by reflexivity.
      cbn [heap]. eexists.
      rewrite list_lookup_insert_eq by (by eapply lookup_lt_Some).
      split; [reflexivity|]. cbn [dead set_dead].
      apply orb_true_iff. right. unfold hit_by. apply existsb_exists.
      exists s. split; [by apply list_elem_of_In|]. rewrite Hsh2.
      destruct Hcase as [->|[_ ->]]; exact Hcol.
    - intros acc k w2 acc' w3 _ _ (e2 & He2 & Hd2) H3.
      apply tick_entity_ticked in H3 as [Ht3 _]. by eapply ticked_dead.
    - apply ticked_refl. }
  rewrite Hin. unfold live_at. rewrite He', Hd'. discriminate.
Qed.

(** [update] keeps the collection ready for the next tick, and free of
    repeated references when it was. *)
Lemma update_ready a w a' w' :
  update a w = Returns a' w' -> ready a w -> ready a' w'.
Proof.
  intros H [Hp Hrdy].
  apply update_phases in H as (w1 & new & Hlk & _ & _ & _ & Ht & Hfresh & ->).
  split; [exact Hp|]. cbn [entities set_entities]. intros l Hl.
  apply list_elem_of_In, filter_In in Hl as [Hl Hlive].
  apply list_elem_of_In, elem_of_app in Hl as [Hl|Hl].
  - destruct (Hrdy l Hl) as (e & He & Hk & Hw).
    specialize (Hlk l). rewrite He in Hlk. cbn in Hlk.
    destruct (iter_move_frame (max_x a) (max_y a) (occ l (entities a)) e)
      as [Hk1 Hw1].
    destruct (ticked_lookup _ _ _ _ Ht Hlk) as (e' & He' & [->|[_ ->]]);
      eexists; (split; [exact He'|]); cbn [kind width set_dead];
      rewrite Hk1, Hw1; auto.
  - destruct Hfresh as [_ Hall]. rewrite Forall_forall in Hall.
    apply Hall in Hl as [Hge Hlt].
    destruct (lookup_lt_is_Some_2 (heap w') l Hlt) as [b Hb].
    destruct Ht as (_ & _ & _ & _ & Hn).
    destruct (Hn l b Hge Hb) as [Hkb _].
    exists b. split; [assumption|]. rewrite Hkb.
    split; [by eexists|]. intros [?|?]; discriminate.
Qed.

Lemma update_NoDup a w a' w' :
  update a w = Returns a' w' -> NoDup (entities a) -> NoDup (entities a').
Proof.
  intros H Hnd.
  apply update_phases in H as (w1 & new & _ & Hlen & Hvalid & _ & _ & Hfresh & ->).
  cbn [entities set_entities].
  apply NoDup_ListNoDup, List.NoDup_filter, NoDup_ListNoDup.
  destruct Hfresh as [Hndnew Hall].
  apply NoDup_app. repeat split; [assumption| |assumption].
  intros l Hl Hl'. rewrite Forall_forall in Hall, Hvalid.
  apply Hall in Hl'. apply Hvalid, lookup_lt_is_Some in Hl. lia.
Qed.

(** The first entity of the collection makes the first roll of the tick.
    When it is a fish or an other creature and that roll is below 0.02,
    a returning [update] leaves a new bubble in the collection, at the
    row and within the columns of the entity as its moves left it.  The
    dead flag of the entity, before or after its moves, plays no part. *)
Lemma update_first_entity_emits a w a' w' l rest e k :
  update a w = Returns a' w' ->
  entities a = l :: rest -> heap w !! l = Some e -> kind e = Some k ->
  rolls k = true -> Qlt_bool (next_random w) 0.02 = true ->
  let e1 := Nat.iter (occ l (entities a)) (move (max_x a) (max_y a)) e in
  exists b,
    length (heap w) ∈ entities a' /\
    heap w' !! length (heap w) = Some b /\
    kind b = Some bubble /\ y b = y e1 /\ x e1 <= x b < x e1 + width e1.
Proof.
  intros H Hents He Hk Hr Hroll e1.
  apply update_Returns in H as (w1 & new & Hmove & Htick & ->).
  apply for_each_modify_Returns in Hmove as (Hd & Hc & Hlen & Hlk & _).
  assert (heap w1 !! l = Some e1) as He1 by (rewrite Hlk, He; reflexivity).
  assert (kind e1 = Some k) as Hk1.
  { subst e1. rewrite (proj1 (iter_move_frame _ _ _ _)). exact Hk. }
  assert (next_random w1 = next_random w) as Hnext.
  { unfold next_random. by rewrite Hd, Hc. }
  rewrite <- Hlen.
  set (sharks := snapshot (heap w) (entities a)) in *.
  rewrite Hents in Htick. cbn [for_fold] in Htick.
  apply bind_Returns in Htick as (new1 & w2 & Hstep & Hrest).
  apply tick_entity_Returns in Hstep as (w1' & e2 & k2 & Hrollb & He2 & Hk2 & Hw2).
  apply roll_bubble_Returns in Hrollb as (e0 & k0 & He0 & Hk0 & Hcases).
  rewrite He1 in He0. injection He0 as <-.
  rewrite Hk1 in Hk0. injection Hk0 as <-.
  rewrite Hnext in Hcases.
  destruct Hcases as [(_ & _ & _ & _ & [Hno|Hno])|
                      (_ & _ & n & c & g & Hn & _ & -> & ->)];
    [congruence|congruence|].
  set (L := length (heap w1)) in *.
  set (b := bubble_obj (x e1 + n) (y e1) (Some c) g) in *.
  assert (heap w2 !! L = Some b) as Hb2.
  { assert ((heap w1 ++ [b]) !! L = Some b) as Hb.
    { rewrite lookup_app_r by (subst L; lia).
      subst L. by rewrite Nat.sub_diag. }
    subst w2. destruct (bool_decide (k2 = fish)); [|exact Hb].
    cbn [heap extend advance]. rewrite list_lookup_insert_ne; [exact Hb|].
    apply lookup_lt_Some in He1. subst L. lia. }
  assert (ticked w2 w' /\ L ∈ new) as [Ht HL].
  { eapply (for_fold_invariant (fun acc w3 => ticked w2 w3 /\ L ∈ acc));
      [| |exact Hrest].
    - intros acc k3 w3 acc' w4 _ [Ht3 HL3] H4.
      apply tick_entity_ticked in H4 as [Ht4 Hacc].
      split; [by eapply ticked_trans|].
      destruct Hacc as [[-> _]|[-> _]]; [assumption|].
      apply elem_of_app. by left.
    - split; [apply ticked_refl|]. cbn. apply list_elem_of_singleton. reflexivity. }
  destruct (ticked_lookup _ _ _ _ Ht Hb2) as (b' & Hb' & [->|[Hkb _]]);
    [|discriminate].
  exists b. split; [|split; [exact Hb'|]].
  - cbn [entities set_entities].
    apply list_elem_of_In, filter_In. split.
    + apply list_elem_of_In, elem_of_app. by right.
    + unfold live_at. rewrite Hb'. reflexivity.
  - subst b. cbn [kind y x bubble_obj set_kind Entity_init]. split; [reflexivity|].
    split; [reflexivity|lia].
Qed.

(** ** Spawning a fish *)

Lemma randint_Returns a b w n w' :
  randint a b w = Returns n w' -> a <= n <= b /\ w' = advance 1 w.
Proof.
  intros H. destruct (Z_lt_le_dec b a) as [Hlt|Hle].
  - rewrite randint_empty in H by assumption. discriminate.
  - rewrite randint_eq in H by assumption. injection H as <- <-.
    split; [by apply randint_range|reflexivity].
Qed.

(** The fish that [spawn_fish] builds from its four draws. *)
Lemma spawn_fish_Returns a w a' w' :
  spawn_fish a w = Returns a' w' ->
  exists pair shape d y0 c,
    pair ∈ FISH_ART /\ shape ∈ pair /\ (d = -1 \/ d = 1) /\
    5 <= y0 <= max_y a - 5 /\ c ∈ fish_colors a /\
    a' = set_entities (entities a ++ [length (heap w)]) a /\
    w' = extend (set_kind fish
                   (Entity_init (if d =? 1 then 0 - len shape else max_x a)
                                y0 [shape] d (Some c)))
                (advance 4 w).
Proof.
  unfold spawn_fish. intros H.
  apply bind_Returns in H as (pair & w1 & [Hpair ->]%choice_Returns & H).
  apply bind_Returns in H as (d & w2 & [Hd ->]%choice_Returns & H).
  apply bind_Returns in H as (shape & w3 & (Hshape & -> & _)%getitem_Returns & H).
  apply bind_Returns in H as (first & w4 & (Hfirst & -> & _)%getitem_Returns & H).
  apply list_elem_of_singleton in Hfirst as ->.
  apply bind_Returns in H as (y0 & w5 & [Hy ->]%randint_Returns & H).
  apply bind_Returns in H as (c & w6 & [Hc ->]%choice_Returns & H).
  apply bind_Returns in H as (f & w7 & Hf & [-> ->]%ret_Returns).
  unfold Fish, alloc in Hf. injection Hf as <- <-.
  exists pair, shape, d, y0, c. repeat split; try assumption; try lia.
  elem_cases Hd; subst d; auto.
Qed.

Lemma spawn_fish_total a w :
  5 <= max_y a - 5 -> fish_colors a <> [] ->
  exists a' w', spawn_fish a w = Returns a' w'.
Proof.
  intros Hy Hc. unfold spawn_fish.
  destruct (choice_nonempty FISH_ART w) as (pair & Hpair & Hp); [done|].
  rewrite (bind_eq _ _ _ _ _ Hp).
  destruct (choice_nonempty [-1; 1] (advance 1 w)) as (d & Hd & Hdir); [done|].
  rewrite (bind_eq _ _ _ _ _ Hdir).
  set (w2 := advance 1 (advance 1 w)).
  destruct (getitem_valid pair (if d =? 1 then 0 else 1) w2)
    as (shape & _ & Hshape).
  { unfold FISH_ART in Hpair. unfold valid_index.
    assert (length pair = 2%nat) as -> by (elem_cases Hpair; by subst pair).
    destruct (d =? 1); lia. }
  rewrite (bind_eq _ _ _ _ _ Hshape).
  rewrite (bind_eq _ _ _ shape w2) by reflexivity.
  rewrite (bind_eq _ _ _ _ _ (randint_eq 5 (max_y a - 5) w2 Hy)).
  destruct (choice_nonempty (fish_colors a) (advance 1 w2)) as (c & _ & Hcol);
    [assumption|].
  rewrite (bind_eq _ _ _ _ _ Hcol).
  eexists _, _. reflexivity.
Qed.

(** ** The second loop of [update], entity by entity *)

Lemma ticked_kind_at w1 w2 l :
  ticked w1 w2 -> is_Some (heap w1 !! l) ->
  kind_at (heap w2) l = kind_at (heap w1) l.
Proof.
  intros Ht [e He]. unfold kind_at.
  destruct (ticked_lookup _ _ _ _ Ht He) as (e' & -> & [->|[_ ->]]);
    rewrite He; reflexivity.
Qed.

(** The second loop changes no kind, and what it allocates makes no
    roll. *)
Lemma rolls_at_ticked w1 w2 l :
  ticked w1 w2 -> rolls_at (heap w2) l = rolls_at (heap w1) l.
Proof.
  intros Ht. unfold rolls_at.
  destruct (heap w1 !! l) as [e|] eqn:He.
  - by rewrite (ticked_kind_at _ _ _ Ht (mk_is_Some _ _ He)).
  - unfold kind_at. rewrite He. cbn.
    destruct (heap w2 !! l) as [b|] eqn:Hb; [|reflexivity]. cbn.
    destruct Ht as (_ & _ & _ & _ & Hn).
    apply lookup_ge_None in He. destruct (Hn l b He Hb) as [-> _]. reflexivity.
Qed.

Lemma emitters_ext h h' tape ls :
  (forall l, l ∈ ls -> rolls_at h' l = rolls_at h l) ->
  forall c, emitters h' tape c ls = emitters h tape c ls.
Proof.
  induction ls as [|l ls IH]; intros Hext c; [reflexivity|].
  cbn [emitters]. rewrite (Hext l) by (by left).
  rewrite !IH by (intros; apply Hext; by right). reflexivity.
Qed.

(** A reference that emits leads to a fish or other creature. *)
Lemma emitters_rolls h tape ls :
  forall c l, l ∈ emitters h tape c ls -> l ∈ ls /\ rolls_at h l = true.
Proof.
  induction ls as [|l0 ls IH]; intros c l Hl; cbn [emitters] in Hl.
  - by apply elem_of_nil in Hl.
  - destruct (rolls_at h l0) eqn:Hr.
    + destruct (Qlt_bool _ _).
      * apply elem_of_cons in Hl as [->|Hl]; [split; [by left|exact Hr]|].
        destruct (IH _ _ Hl). split; [by right|assumption].
      * destruct (IH _ _ Hl). split; [by right|assumption].
    + destruct (IH _ _ Hl). split; [by right|assumption].
Qed.

(** One iteration of the second loop, by the kind of the entity and by
    the draw. *)
Lemma tick_entity_step a sharks acc l w acc1 w2 :
  tick_entity a sharks acc l w = Returns acc1 w2 ->
  exists e k,
    heap w !! l = Some e /\ kind e = Some k /\
    ticked w w2 /\ draws w2 = draws w /\
    ((rolls k = false /\ acc1 = acc /\ cursor w2 = cursor w /\
      length (heap w2) = length (heap w)) \/
     (rolls k = true /\ Qlt_bool (next_random w) 0.02 = false /\
      acc1 = acc /\ cursor w2 = (1 + cursor w)%nat /\
      length (heap w2) = length (heap w)) \/
     (rolls k = true /\ Qlt_bool (next_random w) 0.02 = true /\
      acc1 = acc ++ [length (heap w)] /\ cursor w2 = (3 + cursor w)%nat /\
      length (heap w2) = S (length (heap w)) /\
      exists n c glyph,
        0 <= n < width e /\ c ∈ water_colors a /\
        glyph ∈ ["."; "o"; "O"]%string /\
        heap w2 !! length (heap w) =
        Some (bubble_obj (x e + n) (y e) (Some c) glyph))).
Proof.
  intros H. pose proof (tick_entity_ticked _ _ _ _ _ _ _ H) as [Ht _].
  apply tick_entity_Returns in H as (w1 & e1 & k1 & Hroll & He1 & Hk1 & Hw2).
  pose proof (roll_bubble_Returns _ _ _ _ _ _ Hroll) as (e & k & He & Hk & _).
  exists e, k. split; [exact He|]. split; [exact Hk|]. split; [exact Ht|].
  assert (draws w2 = draws w1 /\ cursor w2 = cursor w1 /\
          length (heap w2) = length (heap w1) /\
          forall j, j <> l -> heap w2 !! j = heap w1 !! j) as (Hd & Hc & Hlen & Hlk).
  { subst w2. destruct (bool_decide (k1 = fish)); cbn [heap draws cursor].
    - rewrite length_insert. repeat split; try reflexivity.
      intros j Hj. by apply list_lookup_insert_ne.
    - repeat split; reflexivity. }
  rewrite (roll_bubble_eq a l acc w e k He Hk) in Hroll.
  destruct (rolls k) eqn:Hr.
  2:{ injection Hroll as <- <-. split; [exact Hd|]. left. auto. }
  destruct (Qlt_bool (next_random w) 0.02) eqn:Hq.
  2:{ injection Hroll as <- <-. split; [exact Hd|]. right. left.
      cbn [advance cursor heap] in *. auto 10. }
  apply bind_Returns in Hroll as (n & w3 & [Hn ->]%randint_Returns & Hroll).
  apply bind_Returns in Hroll as (c & w4 & (Hcol & -> & _)%getitem_Returns & Hroll).
  apply bind_Returns in Hroll as (b & w5 & Hb & [-> ->]%ret_Returns).
  destruct (Bubble_eq (x e + n) (y e) (Some c) (advance 1 (advance 1 w)))
    as (glyph & Hg & Hbub).
  rewrite Hbub in Hb. injection Hb as <- <-.
  cbn [advance extend heap draws cursor] in *.
  split; [exact Hd|]. right. right.
  split; [reflexivity|]. split; [reflexivity|]. split; [reflexivity|].
  split; [lia|]. split; [rewrite Hlen, length_app; cbn; lia|].
  exists n, c, glyph. split; [lia|]. split; [exact Hcol|]. split; [exact Hg|].
  rewrite Hlk.
  - rewrite lookup_app_r by lia. by rewrite Nat.sub_diag.
  - apply lookup_lt_Some in He. lia.
Qed.

(** The second loop as a whole: the bubbles it allocates are those of
    the emitters, one after the other. *)
Lemma tick_phase_emitters a sharks ls :
  forall w acc new w',
    for_fold (tick_entity a sharks) acc ls w = Returns new w' ->
    let em := emitters (heap w) (draws w) (cursor w) ls in
    new = acc ++ seq (length (heap w)) (length em) /\
    length (heap w') = (length (heap w) + length em)%nat /\
    ticked w w' /\
    forall i l, em !! i = Some l ->
      exists e k n c glyph,
        heap w !! l = Some e /\ kind e = Some k /\ rolls k = true /\
        0 <= n < width e /\ c ∈ water_colors a /\
        glyph ∈ ["."; "o"; "O"]%string /\
        heap w' !! (length (heap w) + i)%nat =
        Some (bubble_obj (x e + n) (y e) (Some c) glyph).
Proof.
  induction ls as [|l ls IH]; intros w acc new w' H; cbn [for_fold] in H.
  - apply ret_Returns in H as [-> ->]. cbn.
    split; [by rewrite app_nil_r|]. split; [lia|]. split; [apply ticked_refl|].
    intros i l Hi. by rewrite lookup_nil in Hi.
  - apply bind_Returns in H as (acc1 & w2 & Hstep & Hrest).
    apply tick_entity_step in Hstep
      as (e & k & He & Hk & Ht & Hd & Hcases).
    destruct (IH _ _ _ _ Hrest) as (Hnew & Hlen & Ht2 & Hbub). clear IH.
    assert (rolls_at (heap w) l = rolls k) as Hrl.
    { unfold rolls_at, kind_at. rewrite He. cbn. by rewrite Hk. }
    assert (forall c, emitters (heap w2) (draws w2) c ls =
                      emitters (heap w) (draws w) c ls) as Hext.
    { intros c. rewrite Hd. apply emitters_ext.
      intros j _. by apply rolls_at_ticked. }
    assert (forall i j,
              emitters (heap w2) (draws w2) (cursor w2) ls !! i = Some j ->
              exists e k n c glyph,
                heap w !! j = Some e /\ kind e = Some k /\ rolls k = true /\
                0 <= n < width e /\ c ∈ water_colors a /\
                glyph ∈ ["."; "o"; "O"]%string /\
                heap w' !! (length (heap w2) + i)%nat =
                Some (bubble_obj (x e + n) (y e) (Some c) glyph)) as Hbub'.
    { intros i j Hi.
      destruct (Hbub i j Hi) as (e2 & k2 & n & c & g & He2 & Hk2 & Hr2 & Hn & Hc & Hg & Hb).
      destruct (heap w !! j) as [e0|] eqn:He0.
      - destruct (ticked_lookup _ _ _ _ Ht He0) as (e2' & He2' & Hor).
        rewrite He2 in He2'. injection He2' as <-.
        exists e0, k2, n, c, g.
        destruct Hor as [->|[_ ->]]; cbn [x y width kind set_dead] in *; auto 10.
      - apply lookup_ge_None in He0.
        destruct Ht as (_ & _ & _ & _ & Hfresh).
        destruct (Hfresh j e2 He0 He2) as [Hkb _].
        rewrite Hkb in Hk2. injection Hk2 as <-. discriminate. }
    cbn zeta. cbn [emitters]. rewrite Hrl.
    destruct Hcases as [(Hr & -> & Hc & Hl)|[(Hr & Hq & -> & Hc & Hl)|
                        (Hr & Hq & -> & Hc & Hl & n & c & g & Hn & Hcol & Hg & Hb)]].
    + rewrite Hr. rewrite Hext, Hc, Hl in *.
      split; [exact Hnew|]. split; [exact Hlen|].
      split; [by eapply ticked_trans|]. exact Hbub'.
    + rewrite Hr. unfold next_random in Hq. rewrite Hq.
      rewrite Hext, Hc, Hl in *.
      split; [exact Hnew|]. split; [exact Hlen|].
      split; [by eapply ticked_trans|]. exact Hbub'.
    + rewrite Hr. unfold next_random in Hq. rewrite Hq.
      rewrite Hext, Hc, Hl in *. cbn [length seq].
      split; [by rewrite Hnew, <- app_assoc|]. split; [lia|].
      split; [by eapply ticked_trans|].
      intros [|i] j Hi.
      * injection Hi as <-. exists e, k, n, c, g.
        repeat (split; [assumption|]).
        rewrite Nat.add_0_r.
        destruct (ticked_lookup _ _ _ _ Ht2 Hb) as (b' & -> & [->|[Hf _]]);
          [reflexivity|discriminate].
      * cbn [lookup list_lookup] in Hi.
        destruct (Hbub' i j Hi) as (e0 & k0 & n0 & c0 & g0 & H0).
        exists e0, k0, n0, c0, g0.
        replace (length (heap w) + S i)%nat with (S (length (heap w)) + i)%nat by lia.
        exact H0.
Qed.

Lemma emitters_moved a w w1 tape ls :
  (forall l, heap w1 !! l =
             Nat.iter (occ l (entities a)) (move (max_x a) (max_y a))
               <$> heap w !! l) ->
  forall c, emitters (heap w1) tape c ls = emitters (heap w) tape c ls.
Proof.
  intros Hlk. apply emitters_ext. intros l _.
  unfold rolls_at, kind_at. rewrite Hlk.
  destruct (heap w !! l) as [e|]; [|reflexivity]. cbn.
  by rewrite (proj1 (iter_move_frame _ _ _ _)).
Qed.

(** The bubbles of a whole tick: [update] appends one reference for
    every emitter, behind the references it keeps, each to a new bubble
    at the row and within the columns where the moves left the
    emitter. *)
Lemma update_emitters a w a' w' :
  update a w = Returns a' w' ->
  let em := emitters (heap w) (draws w) (cursor w) (entities a) in
  entities a' =
    List.filter (live_at (heap w')) (entities a)
      ++ seq (length (heap w)) (length em) /\
  length (heap w') = (length (heap w) + length em)%nat /\
  forall i l, em !! i = Some l ->
    exists e k n c glyph,
      heap w !! l = Some e /\ kind e = Some k /\ rolls k = true /\
      0 <= n < width e /\ c ∈ water_colors a /\
      glyph ∈ ["."; "o"; "O"]%string /\
      heap w' !! (length (heap w) + i)%nat =
      Some (bubble_obj
              (x (Nat.iter (occ l (entities a)) (move (max_x a) (max_y a)) e) + n)
              (y (Nat.iter (occ l (entities a)) (move (max_x a) (max_y a)) e))
              (Some c) glyph).
Proof.
  intros H.
  apply update_Returns in H as (w1 & new & Hmove & Htick & ->).
  apply for_each_modify_Returns in Hmove as (Hd & Hc & Hlen & Hlk & _).
  apply tick_phase_emitters in Htick as (Hnew & Hlen' & _ & Hbub).
  cbn zeta in *.
  rewrite Hd, Hc, Hlen, (emitters_moved a w w1 _ _ Hlk) in *.
  cbn [app] in Hnew. subst new.
  set (em := emitters (heap w) (draws w) (cursor w) (entities a)) in *.
  assert (forall i l, em !! i = Some l ->
            exists e k n c glyph,
              heap w !! l = Some e /\ kind e = Some k /\ rolls k = true /\
              0 <= n < width e /\ c ∈ water_colors a /\
              glyph ∈ ["."; "o"; "O"]%string /\
              heap w' !! (length (heap w) + i)%nat =
              Some (bubble_obj
                      (x (Nat.iter (occ l (entities a)) (move (max_x a) (max_y a)) e) + n)
                      (y (Nat.iter (occ l (entities a)) (move (max_x a) (max_y a)) e))
                      (Some c) glyph)) as Hbub'.
  { intros i l Hi.
    destruct (Hbub i l Hi) as (e1 & k & n & c & g & He1 & Hk & Hr & Hn & Hcol & Hg & Hb).
    rewrite Hlk in He1.
    destruct (heap w !! l) as [e|] eqn:He; [|discriminate].
    cbn in He1. injection He1 as <-.
    destruct (iter_move_frame (max_x a) (max_y a) (occ l (entities a)) e)
      as [Hk1 Hw1].
    exists e, k, n, c, g. rewrite <- Hk1, <- Hw1. auto 10. }
  split; [|split; [exact Hlen'|exact Hbub']].
  cbn [entities set_entities]. rewrite List.filter_app. f_equal.
  apply forallb_filter_id, forallb_forall.
  intros j Hj%list_elem_of_In. apply elem_of_seq in Hj as [Hge Hlt].
  assert (j - length (heap w) < length em)%nat as Hi by lia.
  destruct (lookup_lt_is_Some_2 em _ Hi) as [l Hl].
  destruct (Hbub' _ _ Hl) as (e & k & n & c & g & _ & _ & _ & _ & _ & _ & Hb).
  replace (length (heap w) + (j - length (heap w)))%nat with j in Hb by lia.
  unfold live_at. by rewrite Hb.
Qed.

(** ** The outcome of [update], from that of its second loop *)

Lemma update_by_phases a w :
  (forall l, l ∈ entities a -> exists e, heap w !! l = Some e /\ is_Some (kind e)) ->
  exists w1,
    draws w1 = draws w /\ cursor w1 = cursor w /\
    length (heap w1) = length (heap w) /\
    (forall l, heap w1 !! l =
               Nat.iter (occ l (entities a)) (move (max_x a) (max_y a))
                 <$> heap w !! l) /\
    match for_fold (tick_entity a (snapshot (heap w) (entities a))) []
                   (entities a) w1 with
    | Returns new w2 => exists a', update a w = Returns a' w2
    | Raises e => update a w = Raises e
    end.
Proof.
  intros Hall. unfold update.
  destruct (comprehension_total
              (fun e => k ← get_kind e; mret (bool_decide (k = shark))) w (entities a))
    as (sharks & Hs).
  { intros l Hl. destruct (Hall l Hl) as (e & He & [k Hk]).
    eexists. rewrite (bind_eq _ _ _ _ _ (get_kind_eq _ _ _ _ He Hk)). reflexivity. }
  rewrite (bind_eq _ _ _ _ _ Hs).
  pose proof (snapshot_Returns _ _ _ _ Hs) as [_ ->].
  destruct (for_each_modify_total (move (max_x a) (max_y a)) (entities a) w)
    as (w1 & Hmove).
  { apply Forall_forall. intros l Hl.
    destruct (Hall l Hl) as (e & He & _). by eexists. }
  rewrite (bind_eq _ _ _ _ _ Hmove).
  pose proof (for_each_modify_Returns _ _ _ _ _ Hmove)
    as (Hd1 & Hc1 & Hlen1 & Hlk1 & _).
  exists w1. repeat (split; [assumption|]).
  destruct (for_fold _ _ _ w1) as [new w2|e] eqn:Htick.
  2:{ by apply bind_Raises. }
  rewrite (bind_eq _ _ _ _ _ Htick).
  apply tick_phase_Returns in Htick as [Ht Hfresh].
  destruct (comprehension_total
              (fun e => o ← deref e; mret (negb (dead o))) w2
              (entities (set_entities (entities a ++ new) a)))
    as (live & Hlive).
  { cbn [entities set_entities]. intros l Hl.
    assert (is_Some (heap w2 !! l)) as [o Ho].
    { apply lookup_lt_is_Some. destruct Ht as (_ & _ & Hlen & _).
      apply elem_of_app in Hl as [Hl|Hl].
      - destruct (Hall l Hl) as (e & He & _). apply lookup_lt_Some in He. lia.
      - destruct Hfresh as [_ Hf]. rewrite Forall_forall in Hf.
        apply Hf in Hl. lia. }
    eexists. rewrite (bind_eq _ _ _ _ _ (deref_eq _ _ _ Ho)). reflexivity. }
  rewrite (bind_eq _ _ _ _ _ Hlive). eexists. reflexivity.
Qed.

(** An entity that makes no roll and is no fish: the iteration does
    nothing. *)
Lemma tick_entity_idle a sharks acc l w e k :
  heap w !! l = Some e -> kind e = Some k -> rolls k = false ->
  tick_entity a sharks acc l w = Returns acc w.
Proof.
  intros He Hk Hr. unfold tick_entity.
  rewrite (bind_eq _ _ _ acc w)
    by (by rewrite (roll_bubble_eq a l acc w e k He Hk), Hr).
  rewrite (bind_eq _ _ _ _ _ (get_kind_eq _ _ _ _ He Hk)).
  destruct (bool_decide_reflect (k = fish)) as [->|_]; [discriminate|reflexivity].
Qed.

(** A roll of 0.02 or more: the iteration collects nothing and
    returns. *)
Lemma tick_entity_quiet a sharks acc l w e k :
  heap w !! l = Some e -> kind e = Some k -> rolls k = true ->
  Qlt_bool (next_random w) 0.02 = false ->
  Forall (fun s => is_Some (heap w !! s)) sharks ->
  exists w2, tick_entity a sharks acc l w = Returns acc w2.
Proof.
  intros He Hk Hr Hq Hsh. unfold tick_entity.
  rewrite (bind_eq _ _ _ acc (advance 1 w))
    by (by rewrite (roll_bubble_eq a l acc w e k He Hk), Hr, Hq).
  rewrite (bind_eq _ _ _ k (advance 1 w)) by (by apply (get_kind_eq l _ e)).
  destruct (bool_decide (k = fish)).
  - destruct (predation_total l sharks (advance 1 w) e He Hsh) as (w2 & Hp).
    exists w2. by rewrite (bind_eq _ _ _ _ _ Hp).
  - eexists. reflexivity.
Qed.

(** A roll below 0.02 without a valid water color: the iteration
    raises. *)
Lemma tick_entity_no_palette a sharks acc l w e k :
  heap w !! l = Some e -> kind e = Some k -> rolls k = true ->
  Qlt_bool (next_random w) 0.02 = true -> 0 < width e ->
  ~ valid_index (water_colors a) (water_color_index a) ->
  tick_entity a sharks acc l w = Raises IndexError.
Proof.
  intros He Hk Hr Hq Hw Hp. unfold tick_entity.
  apply bind_Raises.
  rewrite (roll_bubble_eq a l acc w e k He Hk), Hr, Hq.
  rewrite (bind_eq _ _ _ _ _ (randint_eq 0 (width e - 1) (advance 1 w) ltac:(lia))).
  apply bind_Raises. by apply getitem_invalid.
Qed.

(** ** The claims about [update] and [spawn_fish] *)

Lemma readyb_ready a w : readyb a w = true -> ready a w.
Proof.
  unfold readyb, ready, valid_index.
  rewrite !andb_true_iff, forallb_forall.
  intros [[Hlo Hhi] Hall]. split; [lia|].
  intros l Hl%list_elem_of_In. specialize (Hall l Hl).
  destruct (heap w !! l) as [e|]; [|discriminate].
  destruct (kind e) as [k|] eqn:Hk; [|discriminate].
  exists e. split; [reflexivity|]. split; [by eexists|].
  intros Hfc. apply orb_true_iff in Hall as [Hr|Hpos]; [|lia].
  rewrite Hk in Hfc. destruct Hfc as [[= ->]|[= ->]]; discriminate.
Qed.

(** C7: in a viewport whose fish rows [5 .. max_y - 5] are not empty,
    [spawn_fish] returns as soon as the fish palette is not empty, and
    the one fish it appends is alive, starts at [x = -width] when it
    heads right and at [x = max_x] when it heads left, so that no column
    of its art is in the visible range [0, max_x), and has its row in
    [5 .. max_y - 5]. *)
Theorem spawn_fish_starts_off_screen a w :
  5 <= max_y a - 5 ->
  (fish_colors a <> [] -> exists a' w', spawn_fish a w = Returns a' w') /\
  (forall a' w', spawn_fish a w = Returns a' w' ->
     exists f,
       entities a' = entities a ++ [length (heap w)] /\
       heap w' = heap w ++ [f] /\
       kind f = Some fish /\ dead f = false /\
       ((direction f = 1 /\ x f = - width f) \/
        (direction f = -1 /\ x f = max_x a)) /\
       5 <= y f <= max_y a - 5 /\
       (forall col, x f <= col < x f + width f -> ~ (0 <= col < max_x a))).
Proof.
  intros Hy. split; [by apply spawn_fish_total|].
  intros a' w' H.
  apply spawn_fish_Returns in H
    as (pair & shape & d & y0 & c & _ & _ & Hd & Hy0 & _ & -> & ->).
  eexists. split; [reflexivity|]. split; [reflexivity|].
  cbn [kind dead direction x y width set_kind Entity_init art_width fold_left].
  split; [reflexivity|]. split; [reflexivity|].
  destruct Hd as [-> | ->]; cbn [Z.eqb Pos.eqb];
    (split; [auto with lia|]); (split; [assumption|]); intros col; lia.
Qed.

Lemma spawn_fish_starts_off_screen_witness :
  let a := aquarium_80x24 [] in
  let w := mkWorld [] (fun n => Z.of_nat n) 0 in
  5 <= max_y a - 5 /\
  (exists a' w', spawn_fish a w = Returns a' w') /\
  (forall a' w', spawn_fish a w = Returns a' w' ->
     exists f,
       entities a' = entities a ++ [length (heap w)] /\
       heap w' = heap w ++ [f] /\
       kind f = Some fish /\ dead f = false /\
       ((direction f = 1 /\ x f = - width f) \/
        (direction f = -1 /\ x f = max_x a)) /\
       5 <= y f <= max_y a - 5 /\
       (forall col, x f <= col < x f + width f -> ~ (0 <= col < max_x a))).
Proof.
  intros a w.
  assert (5 <= max_y a - 5) as Hy by (vm_compute; discriminate).
  split; [exact Hy|].
  destruct (spawn_fish_starts_off_screen a w Hy) as [Hret Hfish].
  split; [apply Hret; discriminate|exact Hfish].
Defined.

(** C8: whenever [update] returns, every reference left in the
    collection leads to an object whose dead flag is not set; and
    [update] does return on every collection that is ready for it. *)
Theorem update_purges_dead a w :
  (forall a' w', update a w = Returns a' w' ->
     forall l, l ∈ entities a' ->
       exists e, heap w' !! l = Some e /\ dead e = false) /\
  (ready a w -> exists a' w', update a w = Returns a' w').
Proof.
  split.
  - intros a' w' H l Hl. by eapply purged_live.
  - apply update_total.
Qed.

(** C10: an object of the collection that is not a fish ends the tick
    exactly as the moves left it (one [move] for every reference the
    collection holds to it, so one [move] in a collection without
    repeated references): the second loop does not touch it.  It is in
    the collection afterwards if and only if those moves did not mark it
    dead. *)
Theorem update_marks_only_fish a w a' w' l e :
  update a w = Returns a' w' ->
  l ∈ entities a -> heap w !! l = Some e -> kind e <> Some fish ->
  let e1 := Nat.iter (occ l (entities a)) (move (max_x a) (max_y a)) e in
  heap w' !! l = Some e1 /\
  (l ∈ entities a' <-> dead e1 = false) /\
  (NoDup (entities a) -> e1 = move (max_x a) (max_y a) e).
Proof.
  intros H Hl He Hk e1.
  destruct (update_not_fish a w a' w' l e H Hl He Hk) as [H1 H2].
  split; [exact H1|]. split; [exact H2|].
  intros Hnd. subst e1. by rewrite (occ_NoDup _ _ Hnd Hl).
Qed.

(** ** Scenarios *)

(** One tick of a collection without repeated references, seen from an
    object that is not a fish. *)
Lemma update_step_not_fish a w l e :
  ready a w -> NoDup (entities a) ->
  l ∈ entities a -> heap w !! l = Some e -> kind e <> Some fish ->
  exists a' w',
    update a w = Returns a' w' /\ ready a' w' /\ NoDup (entities a') /\
    max_x a' = max_x a /\ max_y a' = max_y a /\
    heap w' !! l = Some (move (max_x a) (max_y a) e) /\
    (l ∈ entities a' <-> dead (move (max_x a) (max_y a) e) = false).
Proof.
  intros Hrdy Hnd Hl He Hk.
  destruct (update_total a w Hrdy) as (a' & w' & H).
  exists a', w'. split; [exact H|].
  split; [by eapply update_ready|]. split; [by eapply update_NoDup|].
  destruct (update_not_fish a w a' w' l e H Hl He Hk) as [H1 H2].
  rewrite (occ_NoDup _ _ Hnd Hl) in H1, H2.
  apply update_Returns in H as (w1 & new & _ & _ & ->). auto.
Qed.

(** C6: [move] on a bubble takes 1 from y and leaves x alone, and a
    live bubble becomes dead exactly when its new y is below 1.  So a
    live bubble at y = 3, in a collection that is ready for [update] and
    holds one reference to it, is in the collection with y = 2 after one
    tick and with y = 1 after two, and is out of it after the third,
    where its y is 0. *)
Theorem bubble_rises_to_the_surface :
  (forall mw mh b,
     kind b = Some bubble -> dead b = false ->
     let b' := move mw mh b in
     x b' = x b /\ y b' = y b - 1 /\ (dead b' = true <-> y b' < 1)) /\
  (forall a w l b,
     ready a w -> NoDup (entities a) -> l ∈ entities a ->
     heap w !! l = Some b -> kind b = Some bubble -> dead b = false ->
     y b = 3 ->
     exists a1 w1 a2 w2 a3 w3 b1 b2 b3,
       update a w = Returns a1 w1 /\
       update a1 w1 = Returns a2 w2 /\
       update a2 w2 = Returns a3 w3 /\
       heap w1 !! l = Some b1 /\ y b1 = 2 /\ l ∈ entities a1 /\
       heap w2 !! l = Some b2 /\ y b2 = 1 /\ l ∈ entities a2 /\
       heap w3 !! l = Some b3 /\ y b3 = 0 /\ l ∉ entities a3).
Proof.
  assert (forall mw mh b,
             kind b = Some bubble -> dead b = false ->
             let b' := move mw mh b in
             x b' = x b /\ y b' = y b - 1 /\ (dead b' = true <-> y b' < 1) /\
             kind b' = Some bubble) as Hmove.
  { intros mw mh b Hk Hd. rewrite (move_bubble_eq _ _ _ Hk).
    destruct (Bubble_move_fields mw mh b) as (Hx & Hy & Hdead).
    cbn zeta in *. rewrite Hd in Hdead. cbn in Hdead.
    split; [assumption|]. split; [assumption|]. split; [rewrite Hdead; lia|].
    rewrite <- Hk, <- (move_bubble_eq mw mh b Hk).
    apply (move_keeps mw mh b). }
  split.
  { intros mw mh b Hk Hd. destruct (Hmove mw mh b Hk Hd) as (? & ? & ? & _). auto. }
  intros a w l b Hrdy Hnd Hl Hb Hk Hd Hy.
  assert (forall k, kind k = Some bubble -> kind k <> Some fish) as Hnf by congruence.
  (* first tick *)
  destruct (update_step_not_fish a w l b Hrdy Hnd Hl Hb (Hnf _ Hk))
    as (a1 & w1 & H1 & Hrdy1 & Hnd1 & Hmx1 & Hmy1 & Hb1 & Hin1).
  destruct (Hmove (max_x a) (max_y a) b Hk Hd) as (_ & Hy1 & Hd1 & Hk1).
  set (b1 := move (max_x a) (max_y a) b) in *.
  assert (dead b1 = false) as Hlive1.
  { destruct (dead b1); [|reflexivity]. destruct Hd1 as [Hd1 _]. specialize (Hd1 eq_refl). lia. }
  apply Hin1 in Hlive1 as Hl1.
  (* second tick *)
  destruct (update_step_not_fish a1 w1 l b1 Hrdy1 Hnd1 Hl1 Hb1 (Hnf _ Hk1))
    as (a2 & w2 & H2 & Hrdy2 & Hnd2 & Hmx2 & Hmy2 & Hb2 & Hin2).
  destruct (Hmove (max_x a1) (max_y a1) b1 Hk1 Hlive1) as (_ & Hy2 & Hd2 & Hk2).
  set (b2 := move (max_x a1) (max_y a1) b1) in *.
  assert (dead b2 = false) as Hlive2.
  { destruct (dead b2); [|reflexivity]. destruct Hd2 as [Hd2 _]. specialize (Hd2 eq_refl). lia. }
  apply Hin2 in Hlive2 as Hl2.
  (* third tick *)
  destruct (update_step_not_fish a2 w2 l b2 Hrdy2 Hnd2 Hl2 Hb2 (Hnf _ Hk2))
    as (a3 & w3 & H3 & _ & _ & _ & _ & Hb3 & Hin3).
  destruct (Hmove (max_x a2) (max_y a2) b2 Hk2 Hlive2) as (_ & Hy3 & Hd3 & _).
  set (b3 := move (max_x a2) (max_y a2) b2) in *.
  exists a1, w1, a2, w2, a3, w3, b1, b2, b3.
  repeat (split; [first [assumption | lia]|]).
  rewrite Hin3. destruct Hd3 as [_ Hd3]. rewrite Hd3 by lia. discriminate.
Qed.

(** C1: in an 80 x 24 viewport whose collection holds a fish at
    (40, 10) heading right and a shark at (40, 10) heading left, in
    either order and with any art of the fish and shark tables,
    whenever [update] returns, the fish is out of the collection and
    the shark is in it.  [update] returns when the water color index is
    valid, as [run] sets it up, and also when the one roll of the tick,
    that of the fish, is 0.02 or more; with a roll below 0.02 and no
    valid water color, as in an aquarium fresh from [__init__], it
    raises [IndexError]. *)
Theorem shark_eats_overlapping_fish a w lf ls pair shape sa cf cs :
  pair ∈ FISH_ART -> shape ∈ pair -> sa ∈ SHARK_ART ->
  max_x a = 80 -> max_y a = 24 ->
  lf <> ls -> (entities a = [lf; ls] \/ entities a = [ls; lf]) ->
  heap w !! lf = Some (set_kind fish (Entity_init 40 10 [shape] 1 cf)) ->
  heap w !! ls = Some (set_kind shark (Entity_init 40 10 sa (-1) cs)) ->
  (forall a' w', update a w = Returns a' w' ->
     (lf ∉ entities a') /\ ls ∈ entities a') /\
  (valid_index (water_colors a) (water_color_index a) \/
   Qlt_bool (next_random w) 0.02 = false ->
   exists a' w', update a w = Returns a' w') /\
  (~ valid_index (water_colors a) (water_color_index a) ->
   Qlt_bool (next_random w) 0.02 = true ->
   update a w = Raises IndexError).
Proof.
  intros Hpair Hshape Hsa Hmx Hmy Hne Hents Hf Hs.
  set (f := set_kind fish (Entity_init 40 10 [shape] 1 cf)) in *.
  set (s := set_kind shark (Entity_init 40 10 sa (-1) cs)) in *.
  assert (0 < width f /\
          collides_with (move 80 24 s) (move 80 24 f) = true /\
          dead (move 80 24 s) = false) as (Hw & Hcol & Hlive).
  { subst f s. unfold FISH_ART, SHARK_ART in *.
    elem_cases Hpair; subst pair; elem_cases Hshape; subst shape;
      elem_cases Hsa; subst sa; vm_compute; auto. }
  assert (NoDup (entities a) /\ lf ∈ entities a /\ ls ∈ entities a)
    as (Hnd & Hlf & Hls).
  { destruct Hents as [-> | ->];
      (split; [|split; rewrite !elem_of_cons; auto]);
      (apply NoDup_cons_2; [|apply NoDup_singleton]);
      intros Heq%list_elem_of_singleton; congruence. }
  assert (forall l, l ∈ entities a -> l = lf \/ l = ls) as Hor.
  { intros l Hl. destruct Hents as [Hents | Hents]; rewrite Hents in Hl;
      elem_cases Hl; auto. }
  assert (forall l, l ∈ entities a ->
            exists e, heap w !! l = Some e /\ is_Some (kind e)) as Hall.
  { intros l Hl. destruct (Hor l Hl) as [-> | ->];
      eexists; (split; [eassumption|]); by eexists. }
  assert (kind (move 80 24 f) = Some fish /\ kind (move 80 24 s) = Some shark)
    as [Hkf Hks].
  { split; [exact (proj1 (iter_move_frame 80 24 1 f))
           |exact (proj1 (iter_move_frame 80 24 1 s))]. }
  split; [|split].
  - intros a' w' H. split.
    + eapply (update_fish_eaten a w a' w' lf f ls s); try eassumption;
        try reflexivity.
      rewrite !occ_NoDup, Hmx, Hmy by assumption. exact Hcol.
    + destruct (update_not_fish a w a' w' ls s H Hls Hs ltac:(discriminate))
        as [_ Hin].
      apply Hin. rewrite occ_NoDup, Hmx, Hmy by assumption. exact Hlive.
  - intros [Hp|Hq].
    { apply update_total. split; [exact Hp|]. intros l Hl.
      destruct (Hor l Hl) as [-> | ->].
      - exists f. split; [exact Hf|]. split; [by eexists|]. auto.
      - exists s. split; [exact Hs|]. split; [by eexists|].
        intros [?|?]; discriminate. }
    destruct (update_by_phases a w Hall) as (w1 & Hd & Hc & Hlen & Hlk & Hout).
    set (sharks := snapshot (heap w) (entities a)) in *.
    assert (heap w1 !! lf = Some (move 80 24 f)) as Hf1.
    { rewrite Hlk, Hf, occ_NoDup, Hmx, Hmy by assumption. reflexivity. }
    assert (heap w1 !! ls = Some (move 80 24 s)) as Hs1.
    { rewrite Hlk, Hs, occ_NoDup, Hmx, Hmy by assumption. reflexivity. }
    assert (Qlt_bool (next_random w1) 0.02 = false) as Hq1.
    { unfold next_random. rewrite Hd, Hc. exact Hq. }
    assert (Forall (fun l => is_Some (heap w1 !! l)) sharks) as Hsh.
    { apply Forall_forall. intros l Hl. subst sharks. unfold snapshot in Hl.
      apply list_elem_of_In, filter_In in Hl as [Hl _].
      apply list_elem_of_In in Hl.
      destruct (Hor l Hl) as [-> | ->]; by eexists. }
    destruct (tick_entity_quiet a sharks [] lf w1 _ fish Hf1 Hkf eq_refl Hq1 Hsh)
      as (w2 & Ht).
    destruct Hents as [Hents | Hents]; rewrite Hents in Hout; cbn [for_fold] in Hout.
    + rewrite (bind_eq _ _ _ _ _ Ht) in Hout.
      pose proof (tick_entity_ticked _ _ _ _ _ _ _ Ht) as [Htk _].
      destruct (ticked_lookup _ _ _ _ Htk Hs1) as (s2 & Hs2 & Hsor).
      assert (kind s2 = Some shark) as Hk2
        by (destruct Hsor as [->|[? _]]; [exact Hks|congruence]).
      rewrite (bind_eq _ _ _ _ _
                 (tick_entity_idle a sharks [] ls w2 s2 shark Hs2 Hk2 eq_refl)) in Hout.
      destruct Hout as [a' H]. eauto.
    + rewrite (bind_eq _ _ _ _ _
                 (tick_entity_idle a sharks [] ls w1 _ shark Hs1 Hks eq_refl)) in Hout.
      rewrite (bind_eq _ _ _ _ _ Ht) in Hout.
      destruct Hout as [a' H]. eauto.
  - intros Hp Hq.
    destruct (update_by_phases a w Hall) as (w1 & Hd & Hc & Hlen & Hlk & Hout).
    set (sharks := snapshot (heap w) (entities a)) in *.
    assert (heap w1 !! lf = Some (move 80 24 f)) as Hf1.
    { rewrite Hlk, Hf, occ_NoDup, Hmx, Hmy by assumption. reflexivity. }
    assert (heap w1 !! ls = Some (move 80 24 s)) as Hs1.
    { rewrite Hlk, Hs, occ_NoDup, Hmx, Hmy by assumption. reflexivity. }
    assert (Qlt_bool (next_random w1) 0.02 = true) as Hq1.
    { unfold next_random. rewrite Hd, Hc. exact Hq. }
    assert (0 < width (move 80 24 f)) as Hw1.
    { assert (width (move 80 24 f) = width f) as Hwf
        by exact (proj2 (iter_move_frame 80 24 1 f)).
      lia. }
    pose proof (tick_entity_no_palette a sharks [] lf w1 _ fish
                  Hf1 Hkf eq_refl Hq1 Hw1 Hp) as Ht.
    destruct Hents as [Hents | Hents]; rewrite Hents in Hout; cbn [for_fold] in Hout.
    + rewrite (bind_Raises _ _ _ _ Ht) in Hout. exact Hout.
    + rewrite (bind_eq _ _ _ _ _
                 (tick_entity_idle a sharks [] ls w1 _ shark Hs1 Hks eq_refl)) in Hout.
      rewrite (bind_Raises _ _ _ _ Ht) in Hout. exact Hout.
Qed.

(** ** The bubble roll and the dead flag *)

(** C2 as stated fails.  In an 80 x 24 viewport the one fish of the
    collection is at x = 80 heading right: its move takes it to x = 81,
    beyond the viewport width, and marks it dead.  Its roll, with a draw
    of 0, still emits a bubble: after [update] the collection holds a
    new object, a bubble at the row of the fish. *)
Lemma dead_fish_emits_bubble_counterexample :
  let f := set_kind fish (Entity_init 80 10 ["><>"%string] 1 (Some (color_pair 5))) in
  let a := aquarium_80x24 [0%nat] in
  let w := world_of [f] in
  dead f = false /\ dead (move (max_x a) (max_y a) f) = true /\
  update a w =
  Returns (set_entities [1%nat] a)
          (mkWorld [move 80 24 f; bubble_obj 81 10 (Some (color_pair 1)) "."]
                   (fun _ => 0) 3).
Proof. repeat split. Qed.

(** C2, amended: the bubble rolls of a tick are decided by the kinds of
    the entities and by the draws alone, whatever the dead flags are.
    [emitters] lists the references of the collection to a fish or
    other creature whose roll is below 0.02, reading the kinds and the
    draws only: it is the same for every heap with the same kinds.
    [update] returns as soon as the collection is ready for it, and a
    returning [update] has made every one of these rolls, in the order
    of the collection and after the moves: the heap grows by exactly one
    bubble per emitter, none for a roll of 0.02 or more, none for a
    shark or a bubble.  Each of these bubbles is live and in the new
    collection, at the row where the moves left its emitter and within
    its columns, be the emitter dead or alive, overlapped by a shark or
    not.  In the loop body the roll comes first: what it collected is
    what the iteration returns, whatever the predation test then
    does. *)
Theorem bubble_roll_ignores_dead_flag a w :
  let em := emitters (heap w) (draws w) (cursor w) (entities a) in
  (ready a w -> exists a' w', update a w = Returns a' w') /\
  (forall h', (forall l, kind_at h' l = kind_at (heap w) l) ->
     emitters h' (draws w) (cursor w) (entities a) = em) /\
  (forall l, l ∈ em ->
     l ∈ entities a /\
     (kind_at (heap w) l = Some fish \/ kind_at (heap w) l = Some other_creature)) /\
  (forall a' w', update a w = Returns a' w' ->
     length (heap w') = (length (heap w) + length em)%nat /\
     entities a' =
       List.filter (live_at (heap w')) (entities a)
         ++ seq (length (heap w)) (length em) /\
     forall i l, em !! i = Some l ->
       exists e b,
         heap w !! l = Some e /\
         let e1 := Nat.iter (occ l (entities a)) (move (max_x a) (max_y a)) e in
         heap w' !! (length (heap w) + i)%nat = Some b /\
         kind b = Some bubble /\ dead b = false /\
         y b = y e1 /\ x e1 <= x b < x e1 + width e1 /\
         (length (heap w) + i)%nat ∈ entities a') /\
  (forall sharks new l w0 new' w1,
     tick_entity a sharks new l w0 = Returns new' w1 ->
     exists w2, roll_bubble a l new w0 = Returns new' w2 /\ ticked w2 w1).
Proof.
  cbn zeta. split; [apply update_total|]. split; [|split; [|split]].
  - intros h' Hk. apply emitters_ext. intros l _. unfold rolls_at. by rewrite Hk.
  - intros l Hl. apply emitters_rolls in Hl as [Hin Hr]. split; [exact Hin|].
    unfold rolls_at in Hr. destruct (kind_at (heap w) l) as [[]|]; try discriminate; auto.
  - intros a' w' H.
    destruct (update_emitters a w a' w' H) as (Hents & Hlen & Hbub).
    split; [exact Hlen|]. split; [exact Hents|].
    intros i l Hi.
    destruct (Hbub i l Hi) as (e & k & n & c & g & He & Hk & Hr & Hn & _ & _ & Hb).
    exists e, (bubble_obj
                 (x (Nat.iter (occ l (entities a)) (move (max_x a) (max_y a)) e) + n)
                 (y (Nat.iter (occ l (entities a)) (move (max_x a) (max_y a)) e))
                 (Some c) g).
    split; [exact He|]. split; [exact Hb|].
    split; [reflexivity|]. split; [reflexivity|]. split; [reflexivity|].
    split.
    + rewrite (proj2 (iter_move_frame (max_x a) (max_y a) (occ l (entities a)) e)).
      cbn [x bubble_obj set_kind Entity_init]. lia.
    + rewrite Hents. apply elem_of_app. right. apply elem_of_seq.
      apply lookup_lt_Some in Hi. lia.
  - intros sharks new l w0 new' w1 H.
    apply tick_entity_Returns in H as (w2 & e1 & k1 & Hroll & He1 & Hk1 & ->).
    exists w2. split; [exact Hroll|].
    destruct (bool_decide_reflect (k1 = fish)) as [->|_].
    + by apply ticked_mark.
    + apply ticked_refl.
Qed.

Lemma bubble_roll_ignores_dead_flag_witness :
  let f := set_kind fish (Entity_init 80 10 ["><>"%string] 1 (Some (color_pair 5))) in
  let a := aquarium_80x24 [0%nat] in
  let w := world_of [f] in
  dead (move (max_x a) (max_y a) f) = true /\
  emitters (heap w) (draws w) (cursor w) (entities a) = [0%nat] /\
  exists a' w' b,
    update a w = Returns a' w' /\
    length (heap w') = 2%nat /\
    1%nat ∈ entities a' /\
    heap w' !! 1%nat = Some b /\ kind b = Some bubble /\ dead b = false /\
    y b = y (move (max_x a) (max_y a) f).
Proof.
  intros f a w. split; [reflexivity|]. split; [reflexivity|].
  destruct (bubble_roll_ignores_dead_flag a w) as (Hret & _ & _ & Hem & _).
  destruct (Hret (readyb_ready a w eq_refl)) as (a' & w' & H).
  destruct (Hem a' w' H) as (Hlen & _ & Hbub).
  destruct (Hbub 0%nat 0%nat eq_refl) as (e & b & He & Hb & Hkb & Hdb & Hy & _ & Hin).
  injection He as <-.
  exists a', w', b. split; [exact H|]. split; [exact Hlen|]. auto.
Defined.

(** ** The claims at concrete states *)

Lemma shark_eats_overlapping_fish_witness :
  let w := world_of [fish_40_10; shark_40_10] in
  (exists a' w',
     update (aquarium_80x24 [0; 1]%nat) w = Returns a' w' /\
     (0%nat ∉ entities a') /\ 1%nat ∈ entities a') /\
  update (set_entities [1; 0]%nat (Aquarium_init (24, 80))) w = Raises IndexError.
Proof.
  intros w. split.
  - destruct (shark_eats_overlapping_fish (aquarium_80x24 [0; 1]%nat) w 0%nat 1%nat
                ["><>"; "<><"]%string "><>"%string (nth 1 SHARK_ART [])
                (Some (color_pair 5)) (Some (color_pair 4)))
      as (Hgone & Hret & _).
    + unfold FISH_ART. rewrite !elem_of_cons. auto.
    + rewrite !elem_of_cons. auto.
    + unfold SHARK_ART. cbn [nth]. rewrite !elem_of_cons. auto.
    + reflexivity.
    + reflexivity.
    + discriminate.
    + left. reflexivity.
    + reflexivity.
    + reflexivity.
    + destruct Hret as (a' & w' & Hu); [left; unfold valid_index; cbn; lia|].
      exists a', w'. split; [exact Hu|]. exact (Hgone a' w' Hu).
  - apply (shark_eats_overlapping_fish
             (set_entities [1; 0]%nat (Aquarium_init (24, 80))) w 0%nat 1%nat
             ["><>"; "<><"]%string "><>"%string (nth 1 SHARK_ART [])
             (Some (color_pair 5)) (Some (color_pair 4))).
    + unfold FISH_ART. rewrite !elem_of_cons. auto.
    + rewrite !elem_of_cons. auto.
    + unfold SHARK_ART. cbn [nth]. rewrite !elem_of_cons. auto.
    + reflexivity.
    + reflexivity.
    + discriminate.
    + right. reflexivity.
    + reflexivity.
    + reflexivity.
    + unfold valid_index. cbn. lia.
    + reflexivity.
Defined.

Lemma update_purges_dead_witness :
  let a := aquarium_80x24 [0; 1]%nat in
  let w := world_of [fish_40_10; shark_40_10] in
  exists a' w',
    update a w = Returns a' w' /\
    forall l, l ∈ entities a' -> exists e, heap w' !! l = Some e /\ dead e = false.
Proof.
  intros a w.
  destruct (update_purges_dead a w) as [Hlive Hret].
  destruct (Hret (readyb_ready a w eq_refl)) as (a' & w' & H).
  exists a', w'. split; [exact H|]. exact (Hlive a' w' H).
Defined.

Lemma update_marks_only_fish_witness :
  let a := aquarium_80x24 [0; 1]%nat in
  let w := world_of [fish_40_10; shark_40_10] in
  exists a' w',
    update a w = Returns a' w' /\
    heap w' !! 1%nat = Some (move 80 24 shark_40_10) /\
    (1%nat ∈ entities a' <-> dead (move 80 24 shark_40_10) = false).
Proof.
  intros a w.
  destruct (update_total a w (readyb_ready a w eq_refl)) as (a' & w' & H).
  exists a', w'. split; [exact H|].
  assert (1%nat ∈ entities a) as Hl by (cbn; rewrite !elem_of_cons; auto).
  assert (kind shark_40_10 <> Some fish) as Hk by discriminate.
  destruct (update_marks_only_fish a w a' w' 1%nat shark_40_10 H Hl eq_refl Hk)
    as (Hobj & Hin & _).
  split; [exact Hobj|exact Hin].
Defined.

Lemma bubble_rises_to_the_surface_witness :
  let b := bubble_obj 7 3 (Some (color_pair 1)) "o" in
  let a := aquarium_80x24 [0%nat] in
  let w := world_of [b] in
  exists a1 w1 a2 w2 a3 w3 b1 b2 b3,
    update a w = Returns a1 w1 /\
    update a1 w1 = Returns a2 w2 /\
    update a2 w2 = Returns a3 w3 /\
    heap w1 !! 0%nat = Some b1 /\ y b1 = 2 /\ 0%nat ∈ entities a1 /\
    heap w2 !! 0%nat = Some b2 /\ y b2 = 1 /\ 0%nat ∈ entities a2 /\
    heap w3 !! 0%nat = Some b3 /\ y b3 = 0 /\ 0%nat ∉ entities a3.
Proof.
  intros b a w.
  apply (proj2 bubble_rises_to_the_surface a w 0%nat b).
  - apply readyb_ready. reflexivity.
  - apply NoDup_singleton.
  - cbn. rewrite !elem_of_cons. auto.
  - reflexivity.
  - reflexivity.
  - reflexivity.
  - reflexivity.
Defined.

(** ** The attributes that no tick changes *)

Lemma keeps_attributes_refl e : keeps_attributes e e.
Proof. by repeat split. Qed.

Lemma keeps_attributes_trans e1 e2 e3 :
  keeps_attributes e1 e2 -> keeps_attributes e2 e3 -> keeps_attributes e1 e3.
Proof. unfold keeps_attributes. intuition congruence. Qed.

Lemma iter_move_keeps mw mh n e :
  keeps_attributes e (Nat.iter n (move mw mh) e).
Proof.
  induction n as [|n IH]; [apply keeps_attributes_refl|]. rewrite Nat.iter_succ.
  eapply keeps_attributes_trans; [exact IH|].
  destruct (move_keeps mw mh (Nat.iter n (move mw mh) e))
    as (? & ? & ? & ? & ? & ? & _).
  by repeat split.
Qed.

(** C9: [move] writes the position and the dead flag only: direction,
    art, width, height and color (and the kind) are those of the entity
    before the call, for every kind and for the base class, and one of x
    and y is unchanged too.  The same attributes are unchanged, for
    every object of the heap, across a whole [update]. *)
Theorem move_frame :
  (forall mw mh e,
     let e' := move mw mh e in
     keeps_attributes e e' /\ (x e' = x e \/ y e' = y e)) /\
  (forall a w a' w' l e,
     update a w = Returns a' w' -> heap w !! l = Some e ->
     exists e', heap w' !! l = Some e' /\ keeps_attributes e e').
Proof.
  split.
  - intros mw mh e.
    destruct (move_keeps mw mh e) as (? & ? & ? & ? & ? & ? & ?).
    by repeat split.
  - intros a w a' w' l e H He.
    apply update_phases in H as (w1 & new & Hlk & _ & _ & _ & Ht & _ & _).
    specialize (Hlk l). rewrite He in Hlk. cbn in Hlk.
    destruct (ticked_lookup _ _ _ _ Ht Hlk) as (e' & He' & Hcase).
    exists e'. split; [exact He'|].
    eapply keeps_attributes_trans; [apply iter_move_keeps|].
    destruct Hcase as [->|[_ ->]]; by repeat split.
Qed.

Lemma move_frame_witness :
  let a := aquarium_80x24 [0; 1]%nat in
  let w := world_of [fish_40_10; shark_40_10] in
  exists a' w' e',
    update a w = Returns a' w' /\
    heap w' !! 0%nat = Some e' /\ keeps_attributes fish_40_10 e'.
Proof.
  intros a w.
  destruct (update_total a w (readyb_ready a w eq_refl)) as (a' & w' & H).
  destruct (proj2 move_frame a w a' w' 0%nat fish_40_10 H eq_refl)
    as (e' & He' & Hkeep).
  exists a', w', e'. auto.
Defined.

(** * Further properties of the code *)

(** ** Construction and geometry *)

Lemma fold_max_ge (ls : list string) : forall m,
  m <= fold_left (fun m s => Z.max m (len s)) ls m /\
  (forall s, s ∈ ls -> len s <= fold_left (fun m s => Z.max m (len s)) ls m) /\
  (fold_left (fun m s => Z.max m (len s)) ls m = m \/
   exists s, s ∈ ls /\ len s = fold_left (fun m s => Z.max m (len s)) ls m).
Proof.
  induction ls as [|l ls IH]; intros m; cbn [fold_left].
  - split; [lia|]. split; [|by left]. intros s Hs. by apply elem_of_nil in Hs.
  - destruct (IH (Z.max m (len l))) as (Hge & Hall & Hatt).
    split; [lia|]. split.
    + intros s [->|Hs]%elem_of_cons; [lia|by apply Hall].
    + destruct Hatt as [Heq|(s & Hs & Heq)].
      * destruct (Z.max_spec m (len l)) as [[_ Hm]|[_ Hm]].
        -- right. exists l. split; [by left|]. congruence.
        -- left. congruence.
      * right. exists s. split; [by right|assumption].
Qed.

(** X1: the constructor derives the box from the art: the height is the
    number of lines, the width is the length of a longest line (0 for an
    empty art), so no line is longer than the width and some line is
    exactly that long; the entity starts alive at the given position. *)
Theorem Entity_init_box x0 y0 a d c :
  let e := Entity_init x0 y0 a d c in
  x e = x0 /\ y e = y0 /\ dead e = false /\
  height e = Z.of_nat (length a) /\
  0 <= width e /\
  (forall line, line ∈ a -> len line <= width e) /\
  (a = [] -> width e = 0) /\
  (a <> [] -> exists line, line ∈ a /\ len line = width e).
Proof.
  cbn [x y dead height width Entity_init].
  repeat (split; [reflexivity|]).
  destruct a as [|l ls]; cbn [art_width].
  - split; [lia|]. split; [|split; [reflexivity|congruence]].
    intros line Hl. by apply elem_of_nil in Hl.
  - destruct (fold_max_ge ls (len l)) as (Hge & Hall & Hatt).
    assert (0 <= len l) by (unfold len; lia).
    split; [lia|]. split; [|split; [discriminate|]].
    + intros line [->|Hl]%elem_of_cons; [lia|by apply Hall].
    + intros _. destruct Hatt as [Heq|(s & Hs & Heq)].
      * exists l. split; [by left|congruence].
      * exists s. split; [by right|assumption].
Qed.

(** X2: an entity collides with itself exactly when its box is not
    empty. *)
Theorem collides_with_self e :
  collides_with e e = true <-> 0 < width e /\ 0 < height e.
Proof. unfold collides_with. rewrite !andb_true_iff. lia. Qed.

(** X3: for two entities with non-empty boxes, [collides_with] is true
    exactly when some character cell lies in both boxes. *)
Theorem collides_with_shared_cell a b :
  0 < width a -> 0 < height a -> 0 < width b -> 0 < height b ->
  (collides_with a b = true <-> exists cx cy, covers a cx cy /\ covers b cx cy).
Proof.
  intros Hwa Hha Hwb Hhb. unfold collides_with, covers.
  rewrite !andb_true_iff. split.
  - intros Hc. exists (Z.max (x a) (x b)), (Z.max (y a) (y b)). lia.
  - intros (cx & cy & Ha & Hb). lia.
Qed.

Lemma collides_with_shared_cell_witness :
  collides_with (move 80 24 shark_40_10) (move 80 24 fish_40_10) = true <->
  exists cx cy, covers (move 80 24 shark_40_10) cx cy /\
                covers (move 80 24 fish_40_10) cx cy.
Proof.
  apply (collides_with_shared_cell (move 80 24 shark_40_10) (move 80 24 fish_40_10));
    reflexivity.
Defined.

(** ** Lifetimes *)

(** X4: an entity of a horizontal kind placed at its entry position (at
    [x = -width] heading right, at [x = max_width] heading left) has
    moved [n] columns after [n] moves, on the same row, and is dead
    exactly when [n] exceeds [max_width + width]: it lives for the whole
    crossing and one move more. *)
Theorem horizontal_crossing mw mh e n :
  horizontal e -> dead e = false -> 0 <= width e -> 0 <= mw ->
  at_entry mw e ->
  let e' := Nat.iter n (move mw mh) e in
  x e' = x e + Z.of_nat n * direction e /\ y e' = y e /\
  (dead e' = true <-> mw + width e < Z.of_nat n).
Proof.
  intros Hh Hd Hw Hmw Hentry. cbn zeta.
  induction n as [|n (IHx & IHy & IHd)].
  - cbn. rewrite Hd. split; [lia|]. split; [reflexivity|]. split; [discriminate|lia].
  - rewrite Nat.iter_succ.
    set (en := Nat.iter n (move mw mh) e) in *.
    destruct (iter_move_keeps mw mh n e) as (Hdir & _ & Hwid & _ & _ & Hkind).
    fold en in Hdir, Hwid, Hkind.
    assert (horizontal en) as Hhn by (unfold horizontal; by rewrite Hkind).
    rewrite (move_horizontal_eq _ _ _ Hhn).
    destruct (Entity_move_fields mw mh en) as (Hx & Hy & Hdead).
    cbn zeta in Hx, Hy, Hdead.
    destruct (move_keeps mw mh en) as (_ & _ & Hwid' & _).
    rewrite (move_horizontal_eq _ _ _ Hhn) in Hwid'.
    split; [lia|]. split; [congruence|].
    rewrite Hdead, orb_true_iff, IHd, orb_true_iff, Hwid', Hwid, Hx, IHx, Hdir.
    destruct Hentry as [[-> ->]|[-> ->]]; lia.
Qed.

Lemma horizontal_crossing_witness :
  let e := set_kind fish (Entity_init (-3) 10 ["><>"%string] 1 None) in
  let e' := Nat.iter 84 (move 80 24) e in
  x e' = x e + Z.of_nat 84 * direction e /\ y e' = y e /\
  (dead e' = true <-> 80 + width e < Z.of_nat 84).
Proof.
  apply (horizontal_crossing 80 24
           (set_kind fish (Entity_init (-3) 10 ["><>"%string] 1 None)) 84).
  - left. reflexivity.
  - reflexivity.
  - vm_compute. discriminate.
  - lia.
  - left. split; reflexivity.
Defined.

(** X5: a live bubble at row [y] is at row [y - n] of the same column
    after [n] moves, and is dead exactly when at least one move was made
    and [y - n] is below 1. *)
Theorem bubble_ascent mw mh e n :
  kind e = Some bubble -> dead e = false ->
  let e' := Nat.iter n (move mw mh) e in
  x e' = x e /\ y e' = y e - Z.of_nat n /\
  (dead e' = true <-> (0 < n)%nat /\ y e - Z.of_nat n < 1).
Proof.
  intros Hk Hd. cbn zeta.
  induction n as [|n (IHx & IHy & IHd)].
  - cbn. rewrite Hd. split; [reflexivity|]. split; [lia|].
    split; [discriminate|lia].
  - rewrite Nat.iter_succ.
    set (en := Nat.iter n (move mw mh) e) in *.
    destruct (iter_move_keeps mw mh n e) as (_ & _ & _ & _ & _ & Hkind).
    fold en in Hkind. rewrite Hk in Hkind.
    rewrite (move_bubble_eq _ _ _ Hkind).
    destruct (Bubble_move_fields mw mh en) as (Hx & Hy & Hdead).
    cbn zeta in Hx, Hy, Hdead.
    split; [congruence|]. split; [lia|].
    rewrite Hdead, orb_true_iff, IHd, Hy, IHy. lia.
Qed.

Lemma bubble_ascent_witness :
  let e := bubble_obj 7 3 None "o" in
  let e' := Nat.iter 3 (move 80 24) e in
  x e' = x e /\ y e' = y e - Z.of_nat 3 /\
  (dead e' = true <-> (0 < 3)%nat /\ y e - Z.of_nat 3 < 1).
Proof.
  apply (bubble_ascent 80 24 (bubble_obj 7 3 None "o") 3); reflexivity.
Defined.

(** ** The constructors of the subclasses *)

Lemma choice_direction w :
  exists d, (d = -1 \/ d = 1) /\ choice [-1; 1] w = Returns d (advance 1 w).
Proof.
  destruct (choice_nonempty [-1; 1] w) as (d & Hd & H); [done|].
  exists d. split; [|exact H]. elem_cases Hd; subst d; auto.
Qed.

(** X6: [Bubble(x, y, color)] always returns.  It draws once, leaves the
    existing objects alone, and the new object is a live bubble at
    (x, y) whose art is one of the three glyphs: a box of one cell, with
    no horizontal direction. *)
Theorem Bubble_builds_one_cell x0 y0 c w :
  exists b,
    Bubble x0 y0 c w = Returns (length (heap w)) (extend b (advance 1 w)) /\
    kind b = Some bubble /\ dead b = false /\ x b = x0 /\ y b = y0 /\
    direction b = 0 /\ width b = 1 /\ height b = 1 /\
    (art b = ["."%string] \/ art b = ["o"%string] \/ art b = ["O"%string]).
Proof.
  destruct (Bubble_eq x0 y0 c w) as (g & Hg & H).
  exists (bubble_obj x0 y0 c g). split; [exact H|].
  elem_cases Hg; subst g; cbn; auto 15.
Qed.

(** The object that [Shark] builds, from the direction and row drawn. *)
Lemma Shark_eq max_width max_height w :
  exists d,
    (d = -1 \/ d = 1) /\
    Shark max_width max_height w =
    if max_height <? 14 then Raises ValueError
    else
      let a := nth (if d =? 1 then 0%nat else 1%nat) SHARK_ART [] in
      let y0 := 8 + draws w (S (cursor w)) mod (max_height - 6 - 8 + 1) in
      let self := Entity_init 0 y0 a d (Some (color_pair 4)) in
      Returns (length (heap w))
              (extend (set_kind shark
                         (set_x (if d =? 1 then 0 - width self else max_width) self))
                      (advance 2 w)).
Proof.
  destruct (choice_direction w) as (d & Hd & Hc).
  exists d. split; [exact Hd|]. unfold Shark.
  rewrite (bind_eq _ _ _ _ _ Hc).
  assert (getitem SHARK_ART (if d =? 1 then 0 else 1) (advance 1 w) =
          Returns (nth (if d =? 1 then 0%nat else 1%nat) SHARK_ART []) (advance 1 w)
          /\ Z.of_nat (length (nth (if d =? 1 then 0%nat else 1%nat) SHARK_ART [])) = 4)
    as [Hg Hlen] by (destruct Hd as [-> | ->]; split; reflexivity).
  rewrite (bind_eq _ _ _ _ _ Hg), Hlen.
  replace (max_height - 4 - 2) with (max_height - 6) by lia.
  destruct (Z.ltb_spec max_height 14) as [Hlt|Hge].
  - apply bind_Raises, randint_empty. lia.
  - rewrite (bind_eq _ _ _ _ _ (randint_eq 8 (max_height - 6) (advance 1 w) ltac:(lia))).
    reflexivity.
Qed.

(** When [Shark] raises, and that it returns otherwise. *)
Lemma Shark_outcome max_width max_height w :
  (max_height < 14 -> Shark max_width max_height w = Raises ValueError) /\
  (14 <= max_height ->
   exists s, Shark max_width max_height w =
             Returns (length (heap w)) (extend s (advance 2 w))).
Proof.
  destruct (Shark_eq max_width max_height w) as (d & _ & H). rewrite H.
  destruct (Z.ltb_spec max_height 14); split; intros; try lia; eauto.
Qed.

(** X7: [Shark(max_width, max_height)] raises [ValueError] exactly when
    [max_height] is below 14, the least height with a row for its four
    lines between row 8 and the margin of two rows; otherwise it
    returns, after two draws and without touching the existing objects. *)
Theorem Shark_needs_14_rows max_width max_height w :
  (max_height < 14 -> Shark max_width max_height w = Raises ValueError) /\
  (14 <= max_height ->
   exists s, Shark max_width max_height w =
             Returns (length (heap w)) (extend s (advance 2 w))).
Proof. exact (Shark_outcome max_width max_height w). Qed.

Lemma Shark_needs_14_rows_witness :
  Shark 80 13 (world_of []) = Raises ValueError /\
  exists s, Shark 80 24 (world_of []) =
            Returns (length (heap (world_of []))) (extend s (advance 2 (world_of []))).
Proof.
  split.
  - apply (proj1 (Shark_needs_14_rows 80 13 (world_of []))). lia.
  - apply (proj2 (Shark_needs_14_rows 80 24 (world_of []))). lia.
Defined.

(** The shark that [Shark] returns. *)
Lemma Shark_Returns max_width max_height w l w' :
  Shark max_width max_height w = Returns l w' ->
  exists s,
    l = length (heap w) /\ w' = extend s (advance 2 w) /\
    kind s = Some shark /\ dead s = false /\ color s = color_pair 4 /\
    height s = 4 /\
    ((direction s = 1 /\ art s = nth 0 SHARK_ART [] /\ width s = 23) \/
     (direction s = -1 /\ art s = nth 1 SHARK_ART [] /\ width s = 28)) /\
    at_entry max_width s /\
    (forall col, x s <= col < x s + width s -> ~ (0 <= col < max_width)) /\
    8 <= y s /\ y s + height s <= max_height - 2.
Proof.
  intros H. destruct (Shark_eq max_width max_height w) as (d & Hd & Heq).
  rewrite Heq in H. destruct (Z.ltb_spec max_height 14) as [|Hge]; [discriminate|].
  cbn zeta in H. injection H as <- <-.
  eexists. split; [reflexivity|]. split; [reflexivity|].
  pose proof (Z.mod_pos_bound (draws w (S (cursor w))) (max_height - 6 - 8 + 1)
                ltac:(lia)) as Hy.
  destruct Hd as [-> | ->];
    cbn [kind dead color height direction art width x y set_kind set_x Entity_init
         Z.eqb Pos.eqb nth];
    (split; [reflexivity|]); (split; [reflexivity|]); (split; [reflexivity|]);
    (split; [reflexivity|]); unfold at_entry; cbn [direction x width];
    (split; [first [left; repeat split; reflexivity | right; repeat split; reflexivity]|]);
    (split; [first [left; repeat split; reflexivity | right; repeat split; reflexivity]|]);
    (split; [intros col; vm_compute art_width; lia|]);
    vm_compute Z.of_nat; lia.
Qed.

(** X8: the shark that [Shark] returns is alive, red (pair 4) and four
    lines high; it faces its direction (first art of the table heading
    right, second heading left) and starts at its entry position, with
    no column in the visible range; its rows lie between row 8 and the
    margin of two rows above the bottom. *)
Theorem Shark_starts_off_screen max_width max_height w l w' :
  Shark max_width max_height w = Returns l w' ->
  exists s,
    l = length (heap w) /\ w' = extend s (advance 2 w) /\
    kind s = Some shark /\ dead s = false /\ color s = color_pair 4 /\
    height s = 4 /\
    ((direction s = 1 /\ art s = nth 0 SHARK_ART [] /\ width s = 23) \/
     (direction s = -1 /\ art s = nth 1 SHARK_ART [] /\ width s = 28)) /\
    at_entry max_width s /\
    (forall col, x s <= col < x s + width s -> ~ (0 <= col < max_width)) /\
    8 <= y s /\ y s + height s <= max_height - 2.
Proof. exact (Shark_Returns max_width max_height w l w'). Qed.

Lemma Shark_starts_off_screen_witness :
  exists l w' s,
    Shark 80 24 (world_of []) = Returns l w' /\
    w' = extend s (advance 2 (world_of [])) /\
    kind s = Some shark /\ at_entry 80 s /\ 8 <= y s /\ y s + height s <= 24 - 2.
Proof.
  destruct (proj2 (Shark_outcome 80 24 (world_of [])) ltac:(lia)) as (s0 & H0).
  destruct (Shark_starts_off_screen 80 24 (world_of []) _ _ H0)
    as (s & _ & Hw & Hk & _ & _ & _ & _ & Hentry & _ & Hy1 & Hy2).
  exists (length (heap (world_of []))), (extend s0 (advance 2 (world_of []))), s.
  split; [exact H0|]. auto.
Defined.

(** The object that [OtherCreature] builds, from the direction and row
    drawn. *)
Lemma OtherCreature_eq max_width max_height w :
  exists d,
    (d = -1 \/ d = 1) /\
    OtherCreature max_width max_height w =
    if max_height <? 11 then Raises ValueError
    else
      let y0 := 5 + draws w (S (cursor w)) mod (max_height - 6 - 5 + 1) in
      let self := Entity_init 0 y0 (nth 0 OTHER_CREATURES []) d (Some (color_pair 7)) in
      Returns (length (heap w))
              (extend (set_kind other_creature
                         (set_x (if d =? 1 then 0 - width self else max_width) self))
                      (advance 2 w)).
Proof.
  destruct (choice_direction w) as (d & Hd & Hc).
  exists d. split; [exact Hd|]. unfold OtherCreature.
  rewrite (bind_eq _ _ _ _ _ Hc).
  rewrite (bind_eq _ _ _ (nth 0 OTHER_CREATURES []) (advance 1 w)) by reflexivity.
  replace (max_height - Z.of_nat (length (nth 0 OTHER_CREATURES [])) - 5)
    with (max_height - 6) by (cbn; lia).
  destruct (Z.ltb_spec max_height 11) as [Hlt|Hge].
  - apply bind_Raises, randint_empty. lia.
  - rewrite (bind_eq _ _ _ _ _ (randint_eq 5 (max_height - 6) (advance 1 w) ltac:(lia))).
    reflexivity.
Qed.

(** When [OtherCreature] raises, and the creature it returns otherwise. *)
Lemma OtherCreature_outcome max_width max_height w :
  (max_height < 11 -> OtherCreature max_width max_height w = Raises ValueError) /\
  (11 <= max_height ->
   exists c,
     OtherCreature max_width max_height w =
     Returns (length (heap w)) (extend c (advance 2 w)) /\
     kind c = Some other_creature /\ dead c = false /\ color c = color_pair 7 /\
     art c = nth 0 OTHER_CREATURES [] /\ width c = 9 /\ height c = 1 /\
     at_entry max_width c /\ 5 <= y c <= max_height - 6).
Proof.
  destruct (OtherCreature_eq max_width max_height w) as (d & Hd & H). rewrite H.
  destruct (Z.ltb_spec max_height 11) as [Hlt|Hge]; split; intros; try lia;
    [reflexivity|].
  eexists. split; [reflexivity|].
  pose proof (Z.mod_pos_bound (draws w (S (cursor w))) (max_height - 6 - 5 + 1)
                ltac:(lia)) as Hy.
  unfold at_entry.
  destruct Hd as [-> | ->];
    cbn [kind dead color height direction art width x y set_kind set_x Entity_init
         Z.eqb Pos.eqb];
    repeat split; first [reflexivity | lia].
Qed.

(** X9: [OtherCreature(max_width, max_height)] raises [ValueError]
    exactly when [max_height] is below 11 and returns otherwise.  The
    creature it returns always has the first art of the table (one line
    of nine characters; the second art is never used); it is alive,
    white (pair 7), starts at its entry position, and its row is between
    5 and [max_height - 6]. *)
Theorem OtherCreature_uses_first_art max_width max_height w :
  (max_height < 11 -> OtherCreature max_width max_height w = Raises ValueError) /\
  (11 <= max_height ->
   exists c,
     OtherCreature max_width max_height w =
     Returns (length (heap w)) (extend c (advance 2 w)) /\
     kind c = Some other_creature /\ dead c = false /\ color c = color_pair 7 /\
     art c = nth 0 OTHER_CREATURES [] /\ width c = 9 /\ height c = 1 /\
     at_entry max_width c /\ 5 <= y c <= max_height - 6).
Proof. exact (OtherCreature_outcome max_width max_height w). Qed.

Lemma OtherCreature_uses_first_art_witness :
  OtherCreature 80 10 (world_of []) = Raises ValueError /\
  exists c,
    OtherCreature 80 24 (world_of []) =
    Returns (length (heap (world_of []))) (extend c (advance 2 (world_of []))) /\
    art c = nth 0 OTHER_CREATURES [] /\ at_entry 80 c /\ 5 <= y c <= 24 - 6.
Proof.
  split.
  - apply (proj1 (OtherCreature_uses_first_art 80 10 (world_of []))). lia.
  - destruct (proj2 (OtherCreature_uses_first_art 80 24 (world_of [])) ltac:(lia))
      as (c & H & _ & _ & _ & Hart & _ & _ & Hentry & Hy).
    exists c. auto.
Defined.

(** ** The rare spawns *)

(** X10: [maybe_spawn_shark] draws once.  At 0.05 or above it changes
    nothing else.  Below 0.05 it builds a shark: it raises [ValueError]
    in a viewport of fewer than 14 rows, and otherwise appends the one
    new reference to the collection, behind the ones it had, leaving
    every existing object as it was. *)
Theorem maybe_spawn_shark_outcomes a w :
  (Qlt_bool (next_random w) 0.05 = false ->
   maybe_spawn_shark a w = Returns a (advance 1 w)) /\
  (Qlt_bool (next_random w) 0.05 = true -> max_y a < 14 ->
   maybe_spawn_shark a w = Raises ValueError) /\
  (Qlt_bool (next_random w) 0.05 = true -> 14 <= max_y a ->
   exists s,
     maybe_spawn_shark a w =
     Returns (set_entities (entities a ++ [length (heap w)]) a)
             (extend s (advance 3 w)) /\
     kind s = Some shark /\ dead s = false /\ at_entry (max_x a) s).
Proof.
  unfold maybe_spawn_shark. rewrite (bind_eq _ _ _ _ _ (random_eq w)).
  split; [intros ->; reflexivity|].
  split.
  - intros -> Hy. apply bind_Raises.
    apply (proj1 (Shark_outcome (max_x a) (max_y a) (advance 1 w))). exact Hy.
  - intros -> Hy.
    destruct (proj2 (Shark_outcome (max_x a) (max_y a) (advance 1 w)) Hy)
      as (s0 & H0).
    destruct (Shark_Returns _ _ _ _ _ H0)
      as (s & _ & Hw & Hk & Hd & _ & _ & _ & Hentry & _).
    exists s. split; [|auto].
    rewrite (bind_eq _ _ _ _ _ H0), Hw. reflexivity.
Qed.

Lemma maybe_spawn_shark_outcomes_witness :
  let a := aquarium_80x24 [] in
  let w := world_of [] in
  exists s,
    maybe_spawn_shark a w =
    Returns (set_entities (entities a ++ [length (heap w)]) a)
            (extend s (advance 3 w)) /\
    kind s = Some shark /\ dead s = false /\ at_entry (max_x a) s.
Proof.
  intros a w.
  apply (proj2 (proj2 (maybe_spawn_shark_outcomes a w))).
  - reflexivity.
  - vm_compute. discriminate.
Defined.

(** X11: [maybe_spawn_other_creature] draws once.  At 0.09 or above it
    changes nothing else.  Below 0.09 it builds a creature: it raises
    [ValueError] in a viewport of fewer than 11 rows, and otherwise
    appends the one new reference to the collection, behind the ones it
    had, leaving every existing object as it was. *)
Theorem maybe_spawn_other_creature_outcomes a w :
  (Qlt_bool (next_random w) 0.09 = false ->
   maybe_spawn_other_creature a w = Returns a (advance 1 w)) /\
  (Qlt_bool (next_random w) 0.09 = true -> max_y a < 11 ->
   maybe_spawn_other_creature a w = Raises ValueError) /\
  (Qlt_bool (next_random w) 0.09 = true -> 11 <= max_y a ->
   exists c,
     maybe_spawn_other_creature a w =
     Returns (set_entities (entities a ++ [length (heap w)]) a)
             (extend c (advance 3 w)) /\
     kind c = Some other_creature /\ dead c = false /\ at_entry (max_x a) c).
Proof.
  unfold maybe_spawn_other_creature. rewrite (bind_eq _ _ _ _ _ (random_eq w)).
  split; [intros ->; reflexivity|].
  split.
  - intros -> Hy. apply bind_Raises.
    apply (proj1 (OtherCreature_outcome (max_x a) (max_y a) (advance 1 w))).
    exact Hy.
  - intros -> Hy.
    destruct (proj2 (OtherCreature_outcome (max_x a) (max_y a) (advance 1 w)) Hy)
      as (c & H0 & Hk & Hd & _ & _ & _ & _ & Hentry & _).
    exists c. split; [|auto].
    rewrite (bind_eq _ _ _ _ _ H0). reflexivity.
Qed.

Lemma maybe_spawn_other_creature_outcomes_witness :
  let a := aquarium_80x24 [] in
  let w := world_of [] in
  exists c,
    maybe_spawn_other_creature a w =
    Returns (set_entities (entities a ++ [length (heap w)]) a)
            (extend c (advance 3 w)) /\
    kind c = Some other_creature /\ dead c = false /\ at_entry (max_x a) c.
Proof.
  intros a w.
  apply (proj2 (proj2 (maybe_spawn_other_creature_outcomes a w))).
  - reflexivity.
  - vm_compute. discriminate.
Defined.

(** ** More on [spawn_fish] *)

Lemma getitem_nonneg {A} (seq : list A) i w c w' :
  0 <= i -> getitem seq i w = Returns c w' -> seq !! Z.to_nat i = Some c.
Proof.
  unfold getitem. intros Hi H.
  destruct (Z.ltb_spec i 0) as [|_]; [lia|].
  destruct (Z.ltb_spec i 0) as [|_]; [lia|].
  destruct (seq !! Z.to_nat i) as [c'|]; [|discriminate].
  by injection H as -> _.
Qed.

(** X12: [spawn_fish] raises [ValueError] in a viewport of fewer than
    10 rows, where the rows 5 .. max_y - 5 are an empty range, and
    [IndexError] in a taller viewport whose fish palette is empty. *)
Theorem spawn_fish_errors a w :
  (max_y a < 10 -> spawn_fish a w = Raises ValueError) /\
  (10 <= max_y a -> fish_colors a = [] -> spawn_fish a w = Raises IndexError).
Proof.
  unfold spawn_fish.
  destruct (choice_nonempty FISH_ART w) as (pair & Hpair & Hp); [done|].
  rewrite (bind_eq _ _ _ _ _ Hp).
  destruct (choice_direction (advance 1 w)) as (d & Hd & Hdir).
  rewrite (bind_eq _ _ _ _ _ Hdir).
  set (w2 := advance 1 (advance 1 w)).
  destruct (getitem_valid pair (if d =? 1 then 0 else 1) w2)
    as (shape & _ & Hshape).
  { unfold FISH_ART in Hpair. unfold valid_index.
    assert (length pair = 2%nat) as -> by (elem_cases Hpair; by subst pair).
    destruct (d =? 1); lia. }
  rewrite (bind_eq _ _ _ _ _ Hshape).
  rewrite (bind_eq _ _ _ shape w2) by reflexivity.
  split.
  - intros Hy. apply bind_Raises, randint_empty. lia.
  - intros Hy Hc.
    rewrite (bind_eq _ _ _ _ _ (randint_eq 5 (max_y a - 5) w2 ltac:(lia))).
    rewrite Hc. reflexivity.
Qed.

Lemma spawn_fish_errors_witness :
  spawn_fish (mkAquarium 9 80 [] run_fish_colors run_water_colors 0) (world_of [])
    = Raises ValueError /\
  spawn_fish (Aquarium_init (24, 80)) (world_of []) = Raises IndexError.
Proof.
  split.
  - apply (proj1 (spawn_fish_errors
                    (mkAquarium 9 80 [] run_fish_colors run_water_colors 0)
                    (world_of []))).
    vm_compute. reflexivity.
  - apply (proj2 (spawn_fish_errors (Aquarium_init (24, 80)) (world_of []))).
    + vm_compute. discriminate.
    + reflexivity.
Defined.

(** X13: the fish that [spawn_fish] appends faces the way it swims: its
    art is the one line of a pair of the fish table, the first of the
    pair heading right and the second heading left.  Its color comes
    from the fish palette, its box is one row of 3 to 6 columns, and the
    call makes four draws, leaves every existing object as it was and
    changes no attribute of the aquarium but the collection. *)
Theorem spawn_fish_faces_direction a w a' w' :
  spawn_fish a w = Returns a' w' ->
  exists pair f,
    pair ∈ FISH_ART /\
    a' = set_entities (entities a ++ [length (heap w)]) a /\
    w' = extend f (advance 4 w) /\
    ((direction f = 1 /\ art f = [nth 0 pair EmptyString]) \/
     (direction f = -1 /\ art f = [nth 1 pair EmptyString])) /\
    color f ∈ fish_colors a /\
    height f = 1 /\ 3 <= width f <= 6.
Proof.
  unfold spawn_fish. intros H.
  apply bind_Returns in H as (pair & w1 & [Hpair ->]%choice_Returns & H).
  apply bind_Returns in H as (d & w2 & [Hd ->]%choice_Returns & H).
  apply bind_Returns in H as (shape & w3 & Hshape & H).
  pose proof Hshape as (_ & -> & _)%getitem_Returns.
  apply getitem_nonneg in Hshape; [|destruct (d =? 1); lia].
  apply bind_Returns in H as (first & w4 & (Hfirst & -> & _)%getitem_Returns & H).
  apply list_elem_of_singleton in Hfirst as ->.
  apply bind_Returns in H as (y0 & w5 & [Hy ->]%randint_Returns & H).
  apply bind_Returns in H as (c & w6 & [Hc ->]%choice_Returns & H).
  apply bind_Returns in H as (f & w7 & Hf & [-> ->]%ret_Returns).
  unfold Fish, alloc in Hf. injection Hf as <- <-.
  eexists pair, _. split; [exact Hpair|]. split; [reflexivity|].
  split; [reflexivity|].
  cbn [direction art color height width set_kind Entity_init art_width fold_left length].
  unfold FISH_ART in Hpair.
  elem_cases Hpair; subst pair; elem_cases Hd; subst d;
    cbn in Hshape; injection Hshape as <-;
    (split; [first [left; split; reflexivity | right; split; reflexivity]|]);
    (split; [exact Hc|]); (split; [reflexivity|]); vm_compute; split; discriminate.
Qed.

Lemma spawn_fish_faces_direction_witness :
  let a := aquarium_80x24 [] in
  let w := mkWorld [] (fun n => Z.of_nat n) 0 in
  exists a' w' pair f,
    spawn_fish a w = Returns a' w' /\ pair ∈ FISH_ART /\
    w' = extend f (advance 4 w) /\
    ((direction f = 1 /\ art f = [nth 0 pair EmptyString]) \/
     (direction f = -1 /\ art f = [nth 1 pair EmptyString])).
Proof.
  intros a w.
  destruct (spawn_fish_total a w ltac:(vm_compute; discriminate) ltac:(discriminate))
    as (a' & w' & H).
  destruct (spawn_fish_faces_direction a w a' w' H)
    as (pair & f & Hpair & _ & Hw & Hface & _).
  exists a', w', pair, f. auto.
Defined.

(** ** More on [update] *)

Lemma elem_of_snapshot h ls s :
  s ∈ snapshot h ls <->
  s ∈ ls /\ exists sh, h !! s = Some sh /\ kind sh = Some shark.
Proof.
  unfold snapshot. rewrite list_elem_of_In, filter_In, <- list_elem_of_In.
  rewrite bool_decide_eq_true. unfold kind_at.
  split; intros [Hin Hk]; (split; [exact Hin|]).
  - destruct (h !! s) as [sh|]; [|discriminate]. eauto.
  - destruct Hk as (sh & -> & Hk). exact Hk.
Qed.

(** The overlap test of a fish against the snapshot gives the same
    answer at any point of the second loop. *)
Lemma hit_by_ticked w1 w2 e1 e2 sharks :
  ticked w1 w2 ->
  Forall (fun s => exists sh, heap w1 !! s = Some sh /\ kind sh = Some shark) sharks ->
  (e2 = e1 \/ e2 = set_dead true e1) ->
  hit_by (heap w2) e2 sharks = hit_by (heap w1) e1 sharks.
Proof.
  intros Ht Hall He. unfold hit_by.
  induction Hall as [|s sharks (sh & Hsh & Hk) _ IH]; [reflexivity|].
  cbn [existsb]. rewrite IH, Hsh.
  destruct (ticked_lookup _ _ _ _ Ht Hsh) as (sh' & -> & [->|[Hf _]]); [|congruence].
  destruct He as [-> | ->]; reflexivity.
Qed.

(** The bubble roll leaves every existing object as it was. *)
Lemma roll_bubble_lookup a l new w new' w' k o :
  roll_bubble a l new w = Returns new' w' ->
  heap w !! k = Some o -> heap w' !! k = Some o.
Proof.
  intros H Ho.
  apply roll_bubble_Returns in H as (e0 & k0 & _ & _ & Hcases).
  destruct Hcases as [(_ & -> & _)|(_ & _ & n & c & g & _ & _ & _ & ->)];
    [exact Ho|].
  cbn [heap extend advance]. by apply lookup_app_l_Some.
Qed.

(** X14: the fate of a fish in one tick.  A fish of the collection is in
    the collection after [update] exactly when its moves did not mark
    it dead and no shark that was in the collection when the tick began
    overlaps it, both taken where their moves of this tick left them. *)
Theorem update_fish_fate a w a' w' l e :
  update a w = Returns a' w' ->
  l ∈ entities a -> heap w !! l = Some e -> kind e = Some fish ->
  let moved k o := Nat.iter (occ k (entities a)) (move (max_x a) (max_y a)) o in
  l ∈ entities a' <->
  dead (moved l e) = false /\
  ~ exists s sh, s ∈ entities a /\ heap w !! s = Some sh /\
                 kind sh = Some shark /\
                 collides_with (moved s sh) (moved l e) = true.
Proof.
  intros H Hl He Hk moved.
  pose proof (elem_of_purged _ _ _ _ _ H Hl) as Hin.
  apply update_phases in H as (w1 & new & Hlk & _ & _ & Htick & _ & _ & _).
  set (sharks := snapshot (heap w) (entities a)) in *.
  set (e1 := moved l e).
  assert (heap w1 !! l = Some e1) as He1 by (rewrite Hlk, He; reflexivity).
  assert (kind e1 = Some fish) as Hk1.
  { subst e1 moved. cbn beta. rewrite (proj1 (iter_move_frame _ _ _ _)). exact Hk. }
  assert (Forall (fun s => exists sh, heap w1 !! s = Some sh /\ kind sh = Some shark)
                 sharks) as Hsharks.
  { apply Forall_forall. intros s (_ & sh & Hsh & Hks)%elem_of_snapshot.
    exists (moved s sh). split; [rewrite Hlk, Hsh; reflexivity|].
    subst moved. cbn beta. rewrite (proj1 (iter_move_frame _ _ _ _)). exact Hks. }
  set (eaten := hit_by (heap w1) e1 sharks).
  set (final := set_dead (dead e1 || eaten) e1).
  (* the object at [l] during and after the loop *)
  assert (forall acc k w2 acc' w3,
             ticked w1 w2 ->
             heap w2 !! l = Some e1 \/ heap w2 !! l = Some final ->
             tick_entity a sharks acc k w2 = Returns acc' w3 ->
             (k = l -> heap w3 !! l = Some final) /\
             (k <> l -> heap w3 !! l = heap w2 !! l)) as Hstep.
  { intros acc k w2 acc' w3 Ht HJ H3.
    apply tick_entity_Returns in H3 as (w2' & e2 & k2 & Hroll & He2 & Hk2 & ->).
    assert (heap w2' !! l = heap w2 !! l) as Hsame.
    { destruct HJ as [HJ|HJ]; rewrite HJ;
        by apply (roll_bubble_lookup _ _ _ _ _ _ _ _ Hroll). }
    apply roll_bubble_ticked in Hroll as [Ht2 _].
    split.
    - intros ->. rewrite Hsame in He2.
      assert (k2 = fish) as ->.
      { destruct HJ as [HJ|HJ]; rewrite HJ in He2; injection He2 as <-;
          cbn in Hk2; congruence. }
      rewrite bool_decide_eq_true_2 by reflexivity. cbn [heap].
      rewrite list_lookup_insert_eq
        by (apply lookup_lt_is_Some; rewrite Hsame; destruct HJ as [-> | ->]; eauto).
      f_equal.
      assert (hit_by (heap w2') e2 sharks = eaten) as ->.
      { apply (hit_by_ticked w1 w2'); [by eapply ticked_trans|exact Hsharks|].
        destruct HJ as [HJ|HJ]; rewrite HJ in He2; injection He2 as <-.
        - by left.
        - subst final. destruct (dead e1 || eaten) eqn:Hv; [by right|].
          left. apply orb_false_iff in Hv as [Hv _].
          rewrite <- Hv. apply set_dead_same. }
      destruct HJ as [HJ|HJ]; rewrite HJ in He2; injection He2 as <-;
        subst final; cbn [dead set_dead]; [reflexivity|].
      by destruct (dead e1), eaten.
    - intros Hne. rewrite <- Hsame.
      destruct (bool_decide (k2 = fish)); [|reflexivity].
      cbn [heap]. by rewrite list_lookup_insert_ne. }
  assert (heap w' !! l = Some final) as Hfinal.
  { eapply (for_fold_establishes
              (fun _ w2 => ticked w1 w2 /\
                           (heap w2 !! l = Some e1 \/ heap w2 !! l = Some final))
              (fun w2 => heap w2 !! l = Some final)
              _ l (entities a)); [| | |exact Hl| |exact Htick].
    - intros acc k w2 acc' w3 _ [Ht HJ] H3.
      destruct (Hstep _ _ _ _ _ Ht HJ H3) as [Heq Hneq].
      apply tick_entity_ticked in H3 as [Ht3 _].
      split; [by eapply ticked_trans|].
      destruct (decide (k = l)) as [Hkl|Hkl].
      + right. by apply Heq.
      + by rewrite (Hneq Hkl).
    - intros acc w2 acc' w3 [Ht HJ] H3.
      by apply (proj1 (Hstep _ _ _ _ _ Ht HJ H3)).
    - intros acc k w2 acc' w3 _ [Ht HJ] HG H3.
      destruct (Hstep _ _ _ _ _ Ht HJ H3) as [Heq Hneq].
      destruct (decide (k = l)) as [Hkl|Hkl]; [by apply Heq|].
      by rewrite (Hneq Hkl).
    - split; [apply ticked_refl|by left]. }
  rewrite Hin. unfold live_at. rewrite Hfinal. subst final. cbn [dead set_dead].
  rewrite negb_true_iff, orb_false_iff.
  assert (eaten = true <->
          exists s sh, s ∈ entities a /\ heap w !! s = Some sh /\
                       kind sh = Some shark /\
                       collides_with (moved s sh) e1 = true) as Heaten.
  { subst eaten. unfold hit_by. rewrite existsb_exists. split.
    - intros (s & Hs & Hc).
      apply list_elem_of_In, elem_of_snapshot in Hs as (Hs & sh & Hsh & Hks).
      exists s, sh. repeat split; try assumption.
      rewrite Hlk, Hsh in Hc. exact Hc.
    - intros (s & sh & Hs & Hsh & Hks & Hc).
      exists s. split.
      + apply list_elem_of_In, elem_of_snapshot. eauto.
      + rewrite Hlk, Hsh. exact Hc. }
  rewrite <- Heaten. destruct eaten; intuition congruence.
Qed.

Lemma update_fish_fate_witness :
  let a := aquarium_80x24 [0; 1]%nat in
  let w := world_of [fish_40_10; shark_40_10] in
  let moved k o := Nat.iter (occ k (entities a)) (move (max_x a) (max_y a)) o in
  exists a' w',
    update a w = Returns a' w' /\
    (0%nat ∈ entities a' <->
     dead (moved 0%nat fish_40_10) = false /\
     ~ exists s sh, s ∈ entities a /\ heap w !! s = Some sh /\
                    kind sh = Some shark /\
                    collides_with (moved s sh) (moved 0%nat fish_40_10) = true).
Proof.
  intros a w moved.
  destruct (update_total a w (readyb_ready a w eq_refl)) as (a' & w' & H).
  exists a', w'. split; [exact H|].
  assert (0%nat ∈ entities a) as Hl by (cbn; rewrite !elem_of_cons; auto).
  exact (update_fish_fate a w a' w' 0%nat fish_40_10 H Hl eq_refl eq_refl).
Defined.

(** *** Accounting for draws and bubbles *)

Lemma roll_bubble_account a l new w new' w' e k :
  roll_bubble a l new w = Returns new' w' ->
  heap w !! l = Some e -> kind e = Some k ->
  exists n : nat,
    (n <= if rolls k then 1 else 0)%nat /\
    length new' = (length new + n)%nat /\
    length (heap w') = (length (heap w) + n)%nat /\
    cursor w' = (cursor w + (if rolls k then 1 else 0) + 2 * n)%nat.
Proof.
  intros H He Hk.
  pose proof (roll_bubble_eq a l new w e k He Hk) as Heq.
  destruct (rolls k) eqn:Hr.
  2:{ rewrite Heq in H. injection H as <- <-. exists 0%nat. cbn. lia. }
  destruct (Qlt_bool (next_random w) 0.02) eqn:Hroll.
  2:{ rewrite Heq in H. injection H as <- <-. exists 0%nat. cbn. lia. }
  apply roll_bubble_Returns in H as (e0 & k0 & He0 & Hk0 & Hcases).
  rewrite He in He0. injection He0 as <-.
  rewrite Hk in Hk0. injection Hk0 as <-.
  destruct Hcases as [(_ & _ & _ & _ & [Hno|Hno])|
                      (_ & _ & n & c & g & _ & _ & -> & ->)].
  - congruence.
  - congruence.
  - exists 1%nat. cbn [heap cursor extend advance].
    rewrite !length_app. cbn. lia.
Qed.

Lemma tick_entity_account a sharks new l w new' w' e k :
  tick_entity a sharks new l w = Returns new' w' ->
  heap w !! l = Some e -> kind e = Some k ->
  exists n : nat,
    (n <= if rolls k then 1 else 0)%nat /\
    length new' = (length new + n)%nat /\
    length (heap w') = (length (heap w) + n)%nat /\
    cursor w' = (cursor w + (if rolls k then 1 else 0) + 2 * n)%nat.
Proof.
  intros H He Hk.
  apply tick_entity_Returns in H as (w1 & e1 & k1 & Hroll & _ & _ & ->).
  destruct (roll_bubble_account _ _ _ _ _ _ _ _ Hroll He Hk)
    as (n & Hn & Hnew & Hheap & Hcur).
  exists n. destruct (bool_decide (k1 = fish)); cbn [heap cursor];
    rewrite ?length_insert; auto.
Qed.

Lemma tick_phase_account a sharks w1 ls :
  forall acc w2 new w',
    ticked w1 w2 ->
    for_fold (tick_entity a sharks) acc ls w2 = Returns new w' ->
    Forall (fun l => is_Some (heap w1 !! l)) ls ->
    exists n : nat,
      (n <= rollers (heap w1) ls)%nat /\
      length new = (length acc + n)%nat /\
      length (heap w') = (length (heap w2) + n)%nat /\
      cursor w' = (cursor w2 + rollers (heap w1) ls + 2 * n)%nat.
Proof.
  induction ls as [|l ls IH]; cbn [for_fold]; intros acc w2 new w' Ht H Hall.
  - apply ret_Returns in H as [-> ->]. exists 0%nat. cbn. lia.
  - inversion Hall as [|? ? Hl Hall']; subst.
    apply bind_Returns in H as (acc1 & w3 & Hstep & Hrest).
    pose proof (tick_entity_Returns _ _ _ _ _ _ _ Hstep)
      as (w2' & e2 & k2 & Hroll & _ & _ & _).
    apply roll_bubble_Returns in Hroll as (e & k & He & Hk & _).
    destruct (tick_entity_account _ _ _ _ _ _ _ _ _ Hstep He Hk)
      as (n1 & Hn1 & Hnew1 & Hheap1 & Hcur1).
    apply tick_entity_ticked in Hstep as [Ht3 _].
    destruct (IH _ _ _ _ (ticked_trans _ _ _ Ht Ht3) Hrest Hall')
      as (n2 & Hn2 & Hnew2 & Hheap2 & Hcur2).
    assert (rolls_at (heap w1) l = rolls k) as Hrl.
    { unfold rolls_at. rewrite <- (ticked_kind_at _ _ _ Ht Hl).
      unfold kind_at. rewrite He. cbn. by rewrite Hk. }
    exists (n1 + n2)%nat. unfold rollers in *. cbn [List.filter].
    rewrite Hrl. destruct (rolls k); cbn [length]; lia.
Qed.

(** The post-move heap classifies the collection as the initial one. *)
Lemma rollers_moved a w w1 ls :
  (forall l, heap w1 !! l =
             Nat.iter (occ l (entities a)) (move (max_x a) (max_y a))
               <$> heap w !! l) ->
  rollers (heap w1) ls = rollers (heap w) ls.
Proof.
  intros Hlk. unfold rollers. f_equal. apply filter_ext. intros l.
  unfold rolls_at, kind_at. rewrite Hlk.
  destruct (heap w !! l) as [e|]; [|reflexivity]. cbn.
  by rewrite (proj1 (iter_move_frame _ _ _ _)).
Qed.

(** The shape of the collection and of the world after [update]. *)
Lemma update_account a w a' w' :
  update a w = Returns a' w' ->
  exists new,
    a' = set_entities (List.filter (live_at (heap w')) (entities a) ++ new) a /\
    NoDup new /\
    (forall l, l ∈ new ->
       (length (heap w) <= l)%nat /\
       exists b, heap w' !! l = Some b /\ kind b = Some bubble /\ dead b = false) /\
    (length new <= rollers (heap w) (entities a))%nat /\
    length (heap w') = (length (heap w) + length new)%nat /\
    cursor w' = (cursor w + rollers (heap w) (entities a) + 2 * length new)%nat /\
    draws w' = draws w.
Proof.
  intros H.
  apply update_Returns in H as (w1 & new & Hmove & Htick & ->).
  apply for_each_modify_Returns in Hmove as (Hd & Hc & Hlen & Hlk & Hvalid).
  pose proof (tick_phase_Returns _ _ _ _ _ _ Htick) as [Ht [Hnd Hfresh]].
  assert (Forall (fun l => is_Some (heap w1 !! l)) (entities a)) as Hvalid1.
  { eapply Forall_impl; [exact Hvalid|]. cbn. intros l Hl.
    apply lookup_lt_is_Some. rewrite Hlen. by apply lookup_lt_is_Some. }
  destruct (tick_phase_account _ _ _ _ _ _ _ _ (ticked_refl w1) Htick Hvalid1)
    as (n & Hn & Hnew & Hheap & Hcur).
  assert (n = length new) as -> by (cbn in Hnew; lia).
  rewrite (rollers_moved a w w1 _ Hlk) in Hn, Hcur.
  assert (forall l, l ∈ new ->
            (length (heap w) <= l)%nat /\
            exists b, heap w' !! l = Some b /\ kind b = Some bubble /\ dead b = false)
    as Hbub.
  { intros l Hl. rewrite Forall_forall in Hfresh.
    apply Hfresh in Hl as [Hge Hlt]. split; [lia|].
    destruct (lookup_lt_is_Some_2 (heap w') l Hlt) as [b Hb].
    destruct Ht as (_ & _ & _ & _ & Hn').
    destruct (Hn' l b Hge Hb). eauto. }
  exists new. split; [|split; [exact Hnd|split; [exact Hbub|]]].
  - f_equal. rewrite List.filter_app. f_equal.
    apply forallb_filter_id, forallb_forall.
    intros l Hl%list_elem_of_In.
    destruct (Hbub l Hl) as (_ & b & Hb & _ & Hdb).
    unfold live_at. by rewrite Hb, Hdb.
  - destruct Ht as (Hdr & _). repeat split; [lia|lia|lia|congruence].
Qed.

(** X15: [update] never reorders the collection.  The references it
    keeps are the ones of the old collection that lead to a live
    object, in their old order, followed by the references of the new
    bubbles, which are distinct, lead to live bubbles allocated during
    the call, and are the only growth of the heap.  The viewport size
    and the palettes of the aquarium are unchanged. *)
Theorem update_keeps_order a w a' w' :
  update a w = Returns a' w' ->
  exists new,
    entities a' = List.filter (live_at (heap w')) (entities a) ++ new /\
    NoDup new /\
    (forall l, l ∈ new ->
       (length (heap w) <= l)%nat /\
       exists b, heap w' !! l = Some b /\ kind b = Some bubble /\ dead b = false) /\
    length (heap w') = (length (heap w) + length new)%nat /\
    max_x a' = max_x a /\ max_y a' = max_y a /\
    fish_colors a' = fish_colors a /\ water_colors a' = water_colors a /\
    water_color_index a' = water_color_index a.
Proof.
  intros H.
  destruct (update_account a w a' w' H) as (new & -> & Hnd & Hbub & _ & Hlen & _).
  exists new. cbn. auto 10.
Qed.

Lemma update_keeps_order_witness :
  let a := aquarium_80x24 [0; 1]%nat in
  let w := world_of [fish_40_10; shark_40_10] in
  exists a' w' new,
    update a w = Returns a' w' /\
    entities a' = List.filter (live_at (heap w')) (entities a) ++ new /\
    length (heap w') = (length (heap w) + length new)%nat.
Proof.
  intros a w.
  destruct (update_total a w (readyb_ready a w eq_refl)) as (a' & w' & H).
  destruct (update_keeps_order a w a' w' H) as (new & Hents & _ & _ & Hlen & _).
  exists a', w', new. auto.
Defined.

(** X16: the draws of one tick.  A returning [update] makes one draw
    for every reference of the collection to a fish or other creature
    and two more for every bubble it creates, and it creates at most one
    bubble per such reference.  So on a collection of sharks and
    bubbles alone it consumes no randomness and allocates nothing. *)
Theorem update_draws a w a' w' :
  update a w = Returns a' w' ->
  let bubbles := (length (heap w') - length (heap w))%nat in
  draws w' = draws w /\
  (length (heap w) <= length (heap w'))%nat /\
  (bubbles <= rollers (heap w) (entities a))%nat /\
  cursor w' = (cursor w + rollers (heap w) (entities a) + 2 * bubbles)%nat /\
  (rollers (heap w) (entities a) = 0%nat ->
   cursor w' = cursor w /\ length (heap w') = length (heap w) /\
   entities a' = List.filter (live_at (heap w')) (entities a)).
Proof.
  intros H.
  destruct (update_account a w a' w' H)
    as (new & -> & _ & _ & Hle & Hlen & Hcur & Hd).
  cbn zeta. rewrite Hlen.
  replace (length (heap w) + length new - length (heap w))%nat
    with (length new) by lia.
  repeat split; try assumption; try lia.
  cbn [entities set_entities].
  assert (length new = 0%nat) as Hnil by lia.
  apply length_zero_iff_nil in Hnil as ->. by rewrite app_nil_r.
Qed.

Lemma update_draws_witness :
  let a := aquarium_80x24 [0; 1]%nat in
  let w := world_of [fish_40_10; shark_40_10] in
  exists a' w',
    update a w = Returns a' w' /\
    rollers (heap w) (entities a) = 1%nat /\
    cursor w' =
    (cursor w + rollers (heap w) (entities a)
     + 2 * (length (heap w') - length (heap w)))%nat.
Proof.
  intros a w.
  destruct (update_total a w (readyb_ready a w eq_refl)) as (a' & w' & H).
  destruct (update_draws a w a' w' H) as (_ & _ & _ & Hcur & _).
  exists a', w'. split; [exact H|]. split; [reflexivity|exact Hcur].
Defined.

(** *** Errors of [update] *)

Lemma snapshot_no_kind ls w :
  Forall (fun l => is_Some (heap w !! l)) ls ->
  Exists (fun l => kind_at (heap w) l = None) ls ->
  comprehension (fun e => k ← get_kind e; mret (bool_decide (k = shark))) ls w
  = Raises AttributeError.
Proof.
  induction 1 as [|l ls [e He] Hall IH]; intros Hex; [by inversion Hex|].
  cbn [comprehension].
  destruct (kind e) as [k|] eqn:Hk.
  - rewrite (bind_eq _ _ _ (bool_decide (k = shark)) w)
      by (rewrite (bind_eq _ _ _ _ _ (get_kind_eq _ _ _ _ He Hk)); reflexivity).
    apply bind_Raises, IH.
    inversion Hex as [? ? Hhd|? ? Htl]; subst; [|exact Htl].
    unfold kind_at in Hhd. rewrite He in Hhd. cbn in Hhd. congruence.
  - apply bind_Raises, bind_Raises. by eapply get_kind_no_kind.
Qed.

(** X17: [update] cannot run on a collection that holds an instance of
    the base class.  When every reference of the collection leads to an
    object and one of these objects has no [kind] attribute, [update]
    raises [AttributeError]. *)
Theorem update_needs_kinds a w l e :
  (forall k, k ∈ entities a -> is_Some (heap w !! k)) ->
  l ∈ entities a -> heap w !! l = Some e -> kind e = None ->
  update a w = Raises AttributeError.
Proof.
  intros Hvalid Hl He Hk. unfold update.
  apply bind_Raises, snapshot_no_kind.
  - by apply Forall_forall.
  - apply Exists_exists. exists l. split; [exact Hl|].
    unfold kind_at. rewrite He. exact Hk.
Qed.

Lemma update_needs_kinds_witness :
  update (aquarium_80x24 [0%nat])
         (world_of [Entity_init 0 0 ["fish"%string] 1 (Some (color_pair 0))])
  = Raises AttributeError.
Proof.
  apply (update_needs_kinds (aquarium_80x24 [0%nat])
           (world_of [Entity_init 0 0 ["fish"%string] 1 (Some (color_pair 0))])
           0%nat (Entity_init 0 0 ["fish"%string] 1 (Some (color_pair 0)))).
  - intros k Hk. apply list_elem_of_singleton in Hk as ->. by eexists.
  - by apply list_elem_of_singleton.
  - reflexivity.
  - reflexivity.
Defined.

(** X18: the first roll of a tick can fail.  When every reference of
    the collection leads to an object with a kind, the first of them to
    a fish or other creature, and the first draw is below 0.02, then
    [update] raises [ValueError] if the width of that entity is not
    positive, and [IndexError] if it is but the water palette index is
    not valid, as it is between [__init__] and the palette assignments of
    [run]. *)
Theorem update_first_roll_errors a w l rest e k :
  (forall j, j ∈ entities a ->
     exists o, heap w !! j = Some o /\ is_Some (kind o)) ->
  entities a = l :: rest -> heap w !! l = Some e -> kind e = Some k ->
  rolls k = true -> Qlt_bool (next_random w) 0.02 = true ->
  (width e <= 0 -> update a w = Raises ValueError) /\
  (0 < width e -> ~ valid_index (water_colors a) (water_color_index a) ->
   update a w = Raises IndexError).
Proof.
  intros Hall Hents He Hk Hr Hroll. unfold update.
  destruct (comprehension_total
              (fun e => k ← get_kind e; mret (bool_decide (k = shark))) w (entities a))
    as (sharks & Hs).
  { intros j Hj. destruct (Hall j Hj) as (o & Ho & [ko Hko]).
    eexists. rewrite (bind_eq _ _ _ _ _ (get_kind_eq _ _ _ _ Ho Hko)). reflexivity. }
  rewrite (bind_eq _ _ _ _ _ Hs).
  destruct (for_each_modify_total (move (max_x a) (max_y a)) (entities a) w)
    as (w1 & Hmove).
  { apply Forall_forall. intros j Hj. destruct (Hall j Hj) as (o & Ho & _). by eexists. }
  rewrite (bind_eq _ _ _ _ _ Hmove).
  apply for_each_modify_Returns in Hmove as (Hd & Hc & _ & Hlk & _).
  set (e1 := Nat.iter (occ l (entities a)) (move (max_x a) (max_y a)) e).
  assert (heap w1 !! l = Some e1) as He1 by (rewrite Hlk, He; reflexivity).
  destruct (iter_move_frame (max_x a) (max_y a) (occ l (entities a)) e)
    as [Hk1 Hw1]. fold e1 in Hk1, Hw1. rewrite Hk in Hk1.
  assert (next_random w1 = next_random w) as Hnext
    by (unfold next_random; by rewrite Hd, Hc).
  pose proof (roll_bubble_eq a l [] w1 e1 k He1 Hk1) as Heq.
  rewrite Hr, Hnext, Hroll, Hw1 in Heq.
  rewrite Hents. cbn [for_fold]. unfold tick_entity.
  split.
  - intros Hw. do 3 apply bind_Raises. rewrite Heq.
    apply bind_Raises, randint_empty. lia.
  - intros Hw Hp. do 3 apply bind_Raises. rewrite Heq.
    rewrite (bind_eq _ _ _ _ _
               (randint_eq 0 (width e - 1) (advance 1 w1) ltac:(lia))).
    apply bind_Raises. by apply getitem_invalid.
Qed.

Lemma update_first_roll_errors_witness :
  update (set_entities [0%nat] (Aquarium_init (24, 80))) (world_of [fish_40_10])
  = Raises IndexError.
Proof.
  apply (proj2 (update_first_roll_errors
                  (set_entities [0%nat] (Aquarium_init (24, 80)))
                  (world_of [fish_40_10]) 0%nat [] fish_40_10 fish
                  ltac:(intros j ->%list_elem_of_singleton; eexists; split;
                        [reflexivity|by eexists])
                  eq_refl eq_refl eq_refl eq_refl eq_refl)).
  - reflexivity.
  - unfold valid_index. cbn. lia.
Defined.

(** ** The states of the main loop *)

Lemma sound_start maxyx w : sound (run_palettes (Aquarium_init maxyx)) w.
Proof.
  split; [|split; [|split; [|split]]]; cbn; try reflexivity.
  - split; [unfold valid_index; cbn; lia|].
    intros l Hl. by apply elem_of_nil in Hl.
  - apply NoDup_nil_2.
  - intros l Hl. by apply elem_of_nil in Hl.
Qed.

Lemma sound_advance a w n : sound a w -> sound a (advance n w).
Proof. intros H. exact H. Qed.

Lemma sound_append a w e n :
  sound a w -> is_Some (kind e) ->
  (kind e = Some fish \/ kind e = Some other_creature -> 0 < width e) ->
  dead e = false ->
  sound (set_entities (entities a ++ [length (heap w)]) a) (extend e (advance n w)).
Proof.
  intros ([Hp Hrdy] & Hnd & Hlive & Hfc & Hwc) Hk Hw Hd.
  assert (forall l, l ∈ entities a -> (l < length (heap w))%nat) as Hlt.
  { intros l Hl. destruct (Hrdy l Hl) as (o & Ho & _). by eapply lookup_lt_Some. }
  split; [|split; [|split; [|split]]]; cbn [entities set_entities fish_colors
    water_colors water_color_index heap extend advance]; try assumption.
  - split; [exact Hp|]. cbn [entities set_entities heap extend advance].
    intros l [Hl|Hl]%elem_of_app.
    + destruct (Hrdy l Hl) as (o & Ho & Hko & Hwo).
      exists o. split; [by apply lookup_app_l_Some|auto].
    + apply list_elem_of_singleton in Hl as ->.
      exists e. split; [|auto].
      rewrite lookup_app_r by lia. by rewrite Nat.sub_diag.
  - apply NoDup_app. repeat split; [assumption| |apply NoDup_singleton].
    intros l Hl ->%list_elem_of_singleton. apply Hlt in Hl. lia.
  - intros l [Hl|Hl]%elem_of_app; unfold live_at.
    + specialize (Hlive l Hl). unfold live_at in Hlive.
      destruct (heap w !! l) as [o|] eqn:Ho; [|discriminate].
      by rewrite (lookup_app_l_Some _ _ _ _ Ho).
    + apply list_elem_of_singleton in Hl as ->.
      rewrite lookup_app_r by lia. rewrite Nat.sub_diag. cbn. by rewrite Hd.
Qed.

Lemma sound_spawn_fish a w a' w' :
  sound a w -> spawn_fish a w = Returns a' w' -> sound a' w'.
Proof.
  intros Hs H.
  apply spawn_fish_Returns in H
    as (pair & shape & d & y0 & c & Hpair & Hshape & _ & _ & _ & -> & ->).
  apply sound_append; [exact Hs|by eexists| |reflexivity].
  intros _. cbn [width set_kind Entity_init art_width fold_left].
  unfold FISH_ART in Hpair.
  elem_cases Hpair; subst pair; elem_cases Hshape; subst shape; reflexivity.
Qed.

Lemma sound_spawn_shark a w a' w' :
  sound a w -> maybe_spawn_shark a w = Returns a' w' -> sound a' w'.
Proof.
  intros Hs H. unfold maybe_spawn_shark in H.
  rewrite (bind_eq _ _ _ _ _ (random_eq w)) in H.
  destruct (Qlt_bool (next_random w) 0.05).
  - apply bind_Returns in H as (s & w1 & Hshark & [-> ->]%ret_Returns).
    destruct (Shark_eq (max_x a) (max_y a) (advance 1 w)) as (d & _ & Heq).
    rewrite Heq in Hshark.
    destruct (max_y a <? 14); [discriminate|]. cbn zeta in Hshark.
    injection Hshark as <- <-.
    apply (sound_append a w _ 3); [exact Hs|by eexists| |reflexivity].
    intros [?|?]; discriminate.
  - apply ret_Returns in H as [-> ->]. exact Hs.
Qed.

Lemma sound_spawn_other_creature a w a' w' :
  sound a w -> maybe_spawn_other_creature a w = Returns a' w' -> sound a' w'.
Proof.
  intros Hs H. unfold maybe_spawn_other_creature in H.
  rewrite (bind_eq _ _ _ _ _ (random_eq w)) in H.
  destruct (Qlt_bool (next_random w) 0.09).
  - apply bind_Returns in H as (s & w1 & Hc & [-> ->]%ret_Returns).
    destruct (OtherCreature_eq (max_x a) (max_y a) (advance 1 w)) as (d & _ & Heq).
    rewrite Heq in Hc.
    destruct (max_y a <? 11); [discriminate|]. cbn zeta in Hc.
    injection Hc as <- <-.
    apply (sound_append a w _ 3); [exact Hs|by eexists| |reflexivity].
    intros _. reflexivity.
  - apply ret_Returns in H as [-> ->]. exact Hs.
Qed.

Lemma sound_cycle_water_color a w a' :
  sound a w -> cycle_water_color a = Some a' -> sound a' w.
Proof.
  intros ([Hp Hrdy] & Hnd & Hlive & Hfc & Hwc) H. unfold cycle_water_color in H.
  rewrite Hwc in *. cbn in H. injection H as <-.
  split; [|split; [|split; [|split]]]; cbn; try assumption; try reflexivity.
  split; [|exact Hrdy]. unfold valid_index. cbn.
  pose proof (Z.mod_pos_bound (water_color_index a + 1) 2 ltac:(lia)). lia.
Qed.

Lemma sound_update a w a' w' :
  sound a w -> update a w = Returns a' w' -> sound a' w'.
Proof.
  intros (Hrdy & Hnd & Hlive & Hfc & Hwc) H.
  split; [by eapply update_ready|]. split; [by eapply update_NoDup|].
  split.
  - intros l Hl. destruct (purged_live _ _ _ _ _ H Hl) as (o & Ho & Hd).
    unfold live_at. by rewrite Ho, Hd.
  - apply update_Returns in H as (w1 & new & _ & _ & ->). auto.
Qed.

(** X19: in every state that the main loop can reach by spawning,
    cycling the water color and updating from a new aquarium with the
    palettes of [run], the collection has no repeated reference, every
    reference leads to a live object with a kind, the palettes are those
    of [run] with a valid water color index; and [update] returns: it
    raises nothing there, whatever the viewport size and the draws. *)
Theorem reachable_update_returns a w :
  reachable a w ->
  sound a w /\ exists a' w', update a w = Returns a' w'.
Proof.
  intros Hreach.
  assert (sound a w) as Hs.
  { induction Hreach.
    - apply sound_start.
    - by eapply sound_spawn_fish.
    - by eapply sound_spawn_shark.
    - by eapply sound_spawn_other_creature.
    - by eapply sound_cycle_water_color.
    - by eapply sound_update. }
  split; [exact Hs|]. apply update_total. exact (proj1 Hs).
Qed.

Lemma reachable_update_returns_witness :
  let a := run_palettes (Aquarium_init (24, 80)) in
  let w := mkWorld [] (fun n => Z.of_nat n) 0 in
  exists a1 w1 a2 w2,
    spawn_fish a w = Returns a1 w1 /\ update a1 w1 = Returns a2 w2 /\ sound a1 w1.
Proof.
  intros a w.
  destruct (spawn_fish_total a w ltac:(vm_compute; discriminate) ltac:(discriminate))
    as (a1 & w1 & H1).
  destruct (reachable_update_returns a1 w1
              (reach_spawn_fish a w a1 w1 (reach_start (24, 80) w) H1))
    as (Hs & a2 & w2 & H2).
  exists a1, w1, a2, w2. auto.
Defined.

(** * Rendering *)

(** ** Strings as lists of characters *)

Lemma chars_str l : chars (str l) = l.
Proof. apply list_ascii_of_string_of_list_ascii. Qed.

Lemma chars_append s1 s2 : chars (String.append s1 s2) = chars s1 ++ chars s2.
Proof.
  unfold chars. induction s1 as [|c s1 IH]; cbn; [reflexivity|].
  f_equal. exact IH.
Qed.

Lemma len_chars s : len s = Z.of_nat (length (chars s)).
Proof.
  unfold len, chars. f_equal. induction s as [|c s IH]; cbn; [reflexivity|].
  f_equal. exact IH.
Qed.

Lemma slice_bound_in i n : 0 <= i <= Z.of_nat n -> slice_bound i n = Z.to_nat i.
Proof. unfold slice_bound. intros H. destruct (Z.ltb_spec i 0); lia. Qed.

Lemma slice_bound_over i n : Z.of_nat n <= i -> slice_bound i n = n.
Proof. unfold slice_bound. intros H. destruct (Z.ltb_spec i 0); lia. Qed.

Lemma lookup_concat_replicate {A} (l : list A) k : forall i,
  (i < k * length l)%nat ->
  concat (replicate k l) !! i = l !! (i mod length l)%nat.
Proof.
  induction k as [|k IH]; intros i Hi; [lia|].
  cbn [replicate concat].
  destruct (decide (i < length l)%nat) as [Hlt|Hge].
  - rewrite lookup_app_l by assumption. by rewrite Nat.mod_small.
  - rewrite lookup_app_r by lia. rewrite IH by lia.
    f_equal. replace i with ((i - length l) + 1 * length l)%nat at 2 by lia.
    by rewrite Nat.Div0.mod_add.
Qed.

Lemma length_concat_replicate {A} (l : list A) k :
  length (concat (replicate k l)) = (k * length l)%nat.
Proof.
  induction k as [|k IH]; [reflexivity|].
  cbn [replicate concat]. rewrite length_app, IH. lia.
Qed.

Lemma lookup_rotated {A} (l : list A) o j :
  (o <= length l)%nat -> (j < length l)%nat ->
  (drop o l ++ take o l) !! j = l !! ((j + o) mod length l)%nat.
Proof.
  intros Ho Hj.
  destruct (decide (j < length l - o)%nat) as [Hlt|Hge].
  - rewrite lookup_app_l by (rewrite length_drop; lia).
    rewrite lookup_drop, Nat.mod_small by lia. f_equal. lia.
  - rewrite lookup_app_r by (rewrite length_drop; lia).
    rewrite length_drop, lookup_take_lt by lia.
    f_equal. apply (Nat.mod_unique _ _ 1); lia.
Qed.

(** ** The water rows *)

Lemma water_row_eq line off mw s :
  0 < len line -> water_row line off mw s = Done (tile line off mw) s.
Proof.
  intros Hlen. unfold water_row, tile.
  destruct (Z.eqb_spec (len line) 0) as [|_]; [lia|]. cbn zeta.
  set (rotated := String.append _ _).
  assert (len rotated = len line) as Hrot.
  { subst rotated. rewrite !len_chars, chars_append in *.
    unfold slice_from, slice_to. rewrite !chars_str.
    rewrite length_app, length_drop, length_take. lia. }
  rewrite Hrot. destruct (Z.eqb_spec (len line) 0) as [|_]; [lia|]. reflexivity.
Qed.

(** X20: a water row fills the width of the viewport with the line of
    the table, repeated and started [water_offset] characters in: the
    text has exactly [max_x] characters, and its character [i] is the
    character [(water_offset + i) mod len(line)] of the line.  An empty
    line would raise [ZeroDivisionError]. *)
Theorem water_row_tiles line off mw s :
  (len line = 0 -> water_row line off mw s = Failed ZeroDivisionError s) /\
  (0 < len line -> 0 <= mw ->
   exists t,
     water_row line off mw s = Done t s /\
     len t = mw /\
     forall i, 0 <= i < mw ->
       chars t !! Z.to_nat i = chars line !! Z.to_nat ((off + i) mod len line)).
Proof.
  split.
  - intros Hz. unfold water_row. by rewrite Hz.
  - intros Hlen Hmw. exists (tile line off mw).
    split; [by apply water_row_eq|].
    unfold tile, slice_to, slice_from, str_mul.
    rewrite !len_chars, !chars_append, !chars_str in *.
    set (L := chars line) in *. set (n := length L) in *.
    pose proof (Z.mod_pos_bound off (Z.of_nat n) Hlen) as Ho.
    rewrite (slice_bound_in (off mod Z.of_nat n) n) by lia.
    set (o := Z.to_nat (off mod Z.of_nat n)).
    set (R := drop o L ++ take o L).
    assert (length R = n) as HR.
    { subst R. rewrite length_app, length_drop, length_take. lia. }
    rewrite HR.
    set (k := Z.to_nat (mw / Z.of_nat n + 1)).
    assert (mw < Z.of_nat (k * n)) as Hbig.
    { subst k. pose proof (Z.div_mod mw (Z.of_nat n) ltac:(lia)).
      pose proof (Z.mod_pos_bound mw (Z.of_nat n) Hlen).
      pose proof (Z.div_pos mw (Z.of_nat n) Hmw Hlen). nia. }
    rewrite length_concat_replicate, HR.
    rewrite (slice_bound_in mw (k * n)) by lia.
    split; [rewrite length_take, length_concat_replicate, HR; lia|].
    intros i Hi.
    rewrite lookup_take_lt by lia.
    rewrite lookup_concat_replicate by (rewrite HR; lia).
    rewrite HR. subst R.
    rewrite lookup_rotated by (fold n; first [lia | apply Nat.mod_upper_bound; lia]).
    fold n. f_equal. apply Nat2Z.inj.
    rewrite !Nat2Z.inj_mod, Nat2Z.inj_add, Nat2Z.inj_mod.
    subst o. rewrite !Z2Nat.id by (first [lia | apply Z.mod_pos_bound; lia]).
    rewrite <- Z.add_mod by lia. f_equal. lia.
Qed.

Lemma water_row_tiles_witness :
  let s := mkScreen (fun _ => false) [] in
  exists t,
    water_row (nth 1 WATER_LINE EmptyString) 5 80 s = Done t s /\
    len t = 80 /\
    forall i, 0 <= i < 80 ->
      chars t !! Z.to_nat i =
      chars (nth 1 WATER_LINE EmptyString)
        !! Z.to_nat ((5 + i) mod len (nth 1 WATER_LINE EmptyString)).
Proof.
  intros s.
  apply (proj2 (water_row_tiles (nth 1 WATER_LINE EmptyString) 5 80 s)).
  - reflexivity.
  - lia.
Defined.


(** ** The rendering monad *)

Lemma dbind_Done {A B} (m : D A) (f : A -> D B) s a s1 :
  m s = Done a s1 -> (m ≫= f) s = f a s1.
Proof. unfold mbind, D_bind. intros ->. reflexivity. Qed.

Lemma dbind_Failed {A B} (m : D A) (f : A -> D B) s e s1 :
  m s = Failed e s1 -> (m ≫= f) s = Failed e s1.
Proof. unfold mbind, D_bind. intros ->. reflexivity. Qed.

Lemma item_valid_any {A} (seq : list A) i :
  valid_index seq i -> exists c, c ∈ seq /\ forall s, item seq i s = Done c s.
Proof.
  unfold valid_index, item. intros Hi.
  set (j := if i <? 0 then i + Z.of_nat (length seq) else i).
  assert (0 <= j < Z.of_nat (length seq)) as Hj.
  { subst j. destruct (Z.ltb_spec i 0); lia. }
  destruct (Z.ltb_spec j 0); [lia|].
  destruct (seq !! Z.to_nat j) as [c|] eqn:Ec.
  - exists c. split; [|reflexivity]. eapply list_elem_of_lookup_2. exact Ec.
  - apply lookup_ge_None in Ec. lia.
Qed.

Lemma item_valid {A} (seq : list A) i s :
  valid_index seq i -> exists c, c ∈ seq /\ item seq i s = Done c s.
Proof.
  intros Hi. destruct (item_valid_any seq i Hi) as (c & Hc & H). eauto.
Qed.

Lemma item_invalid {A} (seq : list A) i s :
  ~ valid_index seq i -> item seq i s = Failed (Simulation IndexError) s.
Proof.
  unfold valid_index, item. intros Hi.
  set (j := if i <? 0 then i + Z.of_nat (length seq) else i).
  destruct (Z.ltb_spec j 0); [reflexivity|].
  destruct (seq !! Z.to_nat j) as [c|] eqn:Ec; [|reflexivity].
  apply lookup_lt_Some in Ec. subst j.
  destruct (Z.ltb_spec i 0); lia.
Qed.

(** ** Calls and the conversion of their arguments *)

Lemma c_int_spec z : c_int z = true <-> - 2 ^ 31 <= z < 2 ^ 31.
Proof. unfold c_int. rewrite andb_true_iff, Z.leb_le, Z.ltb_lt. tauto. Qed.

Lemma conversion_addstr row col text attr :
  conversion (addstr row col text attr) = None <->
  c_int row = true /\ c_int col = true /\ has_nul text = false.
Proof.
  cbn [conversion].
  destruct (c_int row), (c_int col), (has_nul text); cbn; split;
    first [discriminate | intros (? & ? & ?); discriminate | auto].
Qed.

Lemma conversion_not_curses k : conversion k <> Some CursesError.
Proof.
  destruct k as [| |row col text attr]; cbn [conversion]; try discriminate.
  destruct (negb _); [discriminate|]. destruct (has_nul text); discriminate.
Qed.

Lemma has_nul_false text :
  has_nul text = false <->
  forall c, c ∈ chars text -> nat_of_ascii c <> 0%nat.
Proof.
  unfold has_nul. split.
  - intros H c Hc Hz.
    assert (existsb (fun c => (nat_of_ascii c =? 0)%nat) (chars text) = true) as Ht.
    { apply existsb_exists. exists c. split; [by apply list_elem_of_In|].
      by apply Nat.eqb_eq. }
    congruence.
  - intros H. destruct (existsb _ _) eqn:Hex; [|reflexivity].
    apply existsb_exists in Hex as (c & Hc%list_elem_of_In & Hz%Nat.eqb_eq).
    by destruct (H c Hc).
Qed.

Lemma has_nul_sub t l :
  (forall c, c ∈ chars t -> c ∈ chars l) -> has_nul l = false -> has_nul t = false.
Proof. rewrite !has_nul_false. intros Hsub Hl c Hc. apply Hl, Hsub, Hc. Qed.

(** A water row is made of characters of its line. *)
Lemma tile_chars line off mw c : c ∈ chars (tile line off mw) -> c ∈ chars line.
Proof.
  unfold tile, slice_to, slice_from, str_mul.
  rewrite !chars_str, !chars_append, !chars_str.
  intros (i & Hi & _)%elem_of_take.
  apply list_elem_of_lookup_2, list_elem_of_In, in_concat in Hi as (r & Hr & Hc).
  apply list_elem_of_In, elem_of_replicate_inv in Hr as ->.
  apply list_elem_of_In, elem_of_app in Hc as [Hc|Hc].
  - apply list_elem_of_lookup in Hc as [j Hj]. rewrite lookup_drop in Hj.
    by eapply list_elem_of_lookup_2.
  - apply elem_of_take in Hc as (j & Hj & _). by eapply list_elem_of_lookup_2.
Qed.

Lemma call_unconverted k e s : conversion k = Some e -> call k s = Failed e s.
Proof. unfold call. by intros ->. Qed.

Lemma call_accepted k s :
  conversion k = None -> refuses s k = false ->
  call k s = Done tt (mkScreen (refuses s) (calls s ++ [k])).
Proof. unfold call. by intros -> ->. Qed.

Lemma call_refused k s :
  conversion k = None -> refuses s k = true ->
  call k s = Failed CursesError (mkScreen (refuses s) (calls s ++ [k])).
Proof. unfold call. by intros -> ->. Qed.

(** A write under [try ... except curses.error: pass] whose arguments
    convert reaches the window and does not raise. *)
Lemma guarded_call k s :
  conversion k = None ->
  except_curses_pass (call k) s = Done tt (mkScreen (refuses s) (calls s ++ [k])).
Proof.
  intros Hk. unfold except_curses_pass, call. rewrite Hk.
  by destruct (refuses s k).
Qed.

(** The guard does not catch what the conversion raises. *)
Lemma guarded_call_unconverted k e s :
  conversion k = Some e -> except_curses_pass (call k) s = Failed e s.
Proof.
  intros Hk. unfold except_curses_pass. rewrite (call_unconverted _ _ _ Hk).
  destruct e; try reflexivity. by destruct (conversion_not_curses k).
Qed.

Lemma draw_each_app {A} (body : A -> D unit) l1 l2 s :
  draw_each body (l1 ++ l2) s = (draw_each body l1;; draw_each body l2) s.
Proof.
  revert s. induction l1 as [|a l1 IH]; intros s; [reflexivity|].
  cbn [app draw_each]. unfold mbind, D_bind.
  destruct (body a s) as [[] s1|e s1]; [|reflexivity].
  rewrite IH. reflexivity.
Qed.

(** A loop of guarded writes whose arguments convert makes every write
    and never fails. *)
Lemma draw_each_passing {A} (body : A -> D unit) (f : A -> Call) l :
  (forall a s, a ∈ l -> body a s = except_curses_pass (call (f a)) s) ->
  Forall (fun a => conversion (f a) = None) l ->
  forall s, draw_each body l s =
            Done tt (mkScreen (refuses s) (calls s ++ map f l)).
Proof.
  induction l as [|a l IH]; intros Hb Hconv s; cbn [draw_each map].
  - rewrite app_nil_r. by destruct s.
  - inversion Hconv as [|? ? Ha Hl]; subst.
    rewrite (dbind_Done _ _ s tt (mkScreen (refuses s) (calls s ++ [f a])))
      by (rewrite Hb by (by left); by apply guarded_call).
    rewrite IH by (first [assumption | intros; apply Hb; by right]).
    cbn [refuses calls]. by rewrite <- app_assoc.
Qed.

(** It stops at the first write whose arguments do not convert, with
    the exception of the conversion. *)
Lemma draw_each_stops {A} (body : A -> D unit) (f : A -> Call) pre a post e :
  (forall b s, b ∈ pre ++ a :: post ->
               body b s = except_curses_pass (call (f b)) s) ->
  Forall (fun b => conversion (f b) = None) pre ->
  conversion (f a) = Some e ->
  forall s, draw_each body (pre ++ a :: post) s =
            Failed e (mkScreen (refuses s) (calls s ++ map f pre)).
Proof.
  intros Hb Hconv Ha s. rewrite draw_each_app.
  rewrite (dbind_Done _ _ s tt (mkScreen (refuses s) (calls s ++ map f pre))).
  2:{ apply draw_each_passing; [|exact Hconv].
      intros b s' Hin. apply Hb, elem_of_app. by left. }
  cbn [draw_each]. apply dbind_Failed.
  rewrite Hb by (apply elem_of_app; right; by left).
  by apply guarded_call_unconverted.
Qed.

(** A loop of unguarded writes whose arguments convert stops at the
    first refused one, and fails there. *)
Lemma draw_each_unguarded {A} (body : A -> D unit) (f : A -> Call) l :
  (forall a s, a ∈ l -> body a s = call (f a) s) ->
  Forall (fun a => conversion (f a) = None) l ->
  forall s,
    draw_each body l s =
    (if snd (until_refused (refuses s) (map f l))
     then Failed CursesError else Done tt)
      (mkScreen (refuses s)
                (calls s ++ fst (until_refused (refuses s) (map f l)))).
Proof.
  induction l as [|a l IH]; intros Hb Hconv s; cbn [draw_each map until_refused].
  - cbn. rewrite app_nil_r. by destruct s.
  - inversion Hconv as [|? ? Ha Hl]; subst.
    destruct (refuses s (f a)) eqn:Hr.
    + apply dbind_Failed. rewrite Hb by (by left). by apply call_refused.
    + rewrite (dbind_Done _ _ s tt (mkScreen (refuses s) (calls s ++ [f a])))
        by (rewrite Hb by (by left); by apply call_accepted).
      rewrite IH by (first [assumption | intros; apply Hb; by right]).
      cbn [refuses calls].
      destruct (until_refused (refuses s) (map f l)) as [made failed].
      cbn [fst snd]. by rewrite <- app_assoc.
Qed.

Lemma map_enumerate {A B} (f : Z -> A -> B) (l : list A) :
  map (fun '(i, a) => f i a) (enumerate l) = imap (fun i a => f (Z.of_nat i) a) l.
Proof. unfold enumerate. rewrite (fmap_imap _ _ l). reflexivity. Qed.

(** ** Drawing an entity *)

Lemma entity_calls_enumerate e :
  entity_calls e =
  map (fun '(i, line) => addstr (y e + i) (x e) line (color e)) (enumerate (art e)).
Proof.
  unfold entity_calls.
  by rewrite (map_enumerate (fun i line => addstr (y e + i) (x e) line (color e))).
Qed.

Lemma Entity_draw_eq e s :
  drawable e ->
  Entity_draw e s = Done tt (mkScreen (refuses s) (calls s ++ entity_calls e)).
Proof.
  unfold drawable, converts. rewrite entity_calls_enumerate. intros Hconv.
  unfold Entity_draw. apply draw_each_passing.
  - intros [i line] s' _. reflexivity.
  - by apply Forall_fmap in Hconv.
Qed.

Lemma Entity_draw_stops e s pre k post ex :
  entity_calls e = pre ++ k :: post ->
  Forall converts pre -> conversion k = Some ex ->
  Entity_draw e s = Failed ex (mkScreen (refuses s) (calls s ++ pre)).
Proof.
  rewrite entity_calls_enumerate. unfold converts. intros Hsplit Hpre Hk.
  apply (fmap_app_inv _ (enumerate (art e))) in Hsplit
    as (l1 & l2 & -> & Htl & Hl).
  symmetry in Htl.
  apply (fmap_cons_inv _ _ l2) in Htl as (a & l2' & -> & _ & ->).
  unfold Entity_draw. rewrite Hl.
  apply (draw_each_stops _
           (fun '(i, line) => addstr (y e + i) (x e) line (color e))).
  - intros [i line] s' _. reflexivity.
  - by apply Forall_fmap in Hpre.
  - exact Hk.
Qed.

(** X21: [Entity.draw] swallows [curses.error] and nothing else.  It
    has one write per line of the art, line [i] at row [y + i] and
    column [x] in the color of the entity.  When the arguments of every
    write convert (coordinates within the range of a C [int], no null
    character in a line), it makes them all, in order, and never
    raises, whatever the window answers.  Otherwise it stops at the
    first write whose arguments do not convert, with the exception of
    the conversion: [OverflowError] for a coordinate, [ValueError] for
    a line. *)
Theorem Entity_draw_swallows_curses_error e s :
  length (entity_calls e) = length (art e) /\
  (drawable e ->
   Entity_draw e s = Done tt (mkScreen (refuses s) (calls s ++ entity_calls e))) /\
  (forall pre k post ex,
     entity_calls e = pre ++ k :: post ->
     Forall converts pre -> conversion k = Some ex ->
     (ex = OverflowError \/ ex = Simulation ValueError) /\
     Entity_draw e s = Failed ex (mkScreen (refuses s) (calls s ++ pre))).
Proof.
  split; [apply length_imap|]. split; [apply Entity_draw_eq|].
  intros pre k post ex Hsplit Hpre Hk. split; [|by eapply Entity_draw_stops].
  destruct k as [| |row col text attr]; cbn [conversion] in Hk; try discriminate.
  destruct (negb _); [injection Hk as <-; by left|].
  destruct (has_nul text); [injection Hk as <-; by right|discriminate].
Qed.

Lemma Entity_draw_swallows_curses_error_witness :
  let s := mkScreen (fun _ => true) [] in
  let far := set_x (2 ^ 40) fish_40_10 in
  Entity_draw shark_40_10 s =
  Done tt (mkScreen (refuses s) (calls s ++ entity_calls shark_40_10)) /\
  Entity_draw far s = Failed OverflowError s.
Proof.
  intros s far. split.
  - apply (proj1 (proj2 (Entity_draw_swallows_curses_error shark_40_10 s))).
    unfold drawable, converts. repeat constructor.
  - apply (proj2 (proj2 (Entity_draw_swallows_curses_error far s))
             [] (addstr 10 (2 ^ 40) "><>" (color_pair 5)) [] OverflowError).
    + reflexivity.
    + constructor.
    + reflexivity.
Defined.

(** ** The decoration *)

Lemma Forall_map_converts {A} (f : A -> Call) l :
  Forall converts (map f l) -> Forall (fun a => conversion (f a) = None) l.
Proof.
  induction l as [|a l IH]; cbn [map]; intros H; [constructor|].
  inversion H; subst. constructor; auto.
Qed.

Lemma until_refused_none r cs :
  Forall (fun c => r c = false) cs -> until_refused r cs = (cs, false).
Proof.
  induction 1 as [|c cs Hc _ IH]; cbn [until_refused]; [reflexivity|].
  by rewrite Hc, IH.
Qed.

(** The arguments of the water rows always convert. *)
Lemma water_rows_convert deco mw c :
  Forall (fun p : Z * string =>
            conversion (let '(i, line) := p in
                        addstr (i + 1) 0 (tile line (water_offset deco) mw) c) = None)
         (enumerate WATER_LINE).
Proof.
  unfold enumerate, WATER_LINE. cbn [imap].
  repeat (apply List.Forall_cons); [..|apply List.Forall_nil];
    (apply conversion_addstr; split; [reflexivity|split; [reflexivity|]];
     eapply has_nul_sub; [apply tile_chars|reflexivity]).
Qed.

Lemma add_water_lines_eq a deco s c :
  item (water_colors a) (water_color_index a) s = Done c s ->
  add_water_lines a deco s =
  (if snd (until_refused (refuses s) (water_calls a deco c))
   then Failed CursesError else Done tt)
    (mkScreen (refuses s)
              (calls s ++ fst (until_refused (refuses s) (water_calls a deco c)))).
Proof.
  intros Hc. unfold add_water_lines, water_calls.
  rewrite (dbind_Done _ _ _ _ _ Hc).
  rewrite <- (map_enumerate
                (fun i line =>
                   addstr (i + 1) 0 (tile line (water_offset deco) (max_x a)) c)).
  apply draw_each_unguarded.
  - intros [i line] s' Hin.
    assert (0 < len line) as Hlen.
    { unfold enumerate, WATER_LINE in Hin. cbn [imap] in Hin.
      elem_cases Hin; injection Hin as _ ->; reflexivity. }
    by rewrite (dbind_Done _ _ _ _ _ (water_row_eq _ _ _ _ Hlen)).
  - apply water_rows_convert.
Qed.

(** X22: [add_water_lines] looks the water color up first and raises
    [IndexError], with nothing written, when the index is not valid.
    Otherwise it writes the four rows of the table at rows 1 to 4 from
    column 0, each tiled to the width of the viewport; its writes are
    not guarded: the first refused one raises [curses.error] and the
    rows after it are not attempted. *)
Theorem add_water_lines_outcome a deco s :
  (~ valid_index (water_colors a) (water_color_index a) ->
   add_water_lines a deco s = Failed (Simulation IndexError) s) /\
  (valid_index (water_colors a) (water_color_index a) ->
   exists c, c ∈ water_colors a /\
     add_water_lines a deco s =
     (if snd (until_refused (refuses s) (water_calls a deco c))
      then Failed CursesError else Done tt)
       (mkScreen (refuses s)
                 (calls s ++ fst (until_refused (refuses s) (water_calls a deco c))))).
Proof.
  split.
  - intros Hp. unfold add_water_lines.
    apply dbind_Failed. by apply item_invalid.
  - intros Hp. destruct (item_valid _ _ s Hp) as (c & Hc & Hitem).
    exists c. split; [exact Hc|]. by apply add_water_lines_eq.
Qed.

Lemma add_water_lines_outcome_witness :
  let a := aquarium_80x24 [] in
  let deco := mkDecoration [color_pair 3] 0 5 in
  let s := mkScreen (fun c => match c with addstr 3 _ _ _ => true | _ => false end) [] in
  exists c, c ∈ water_colors a /\
    add_water_lines a deco s =
    (if snd (until_refused (refuses s) (water_calls a deco c))
     then Failed CursesError else Done tt)
      (mkScreen (refuses s)
                (calls s ++ fst (until_refused (refuses s) (water_calls a deco c)))).
Proof.
  intros a deco s.
  apply (proj2 (add_water_lines_outcome a deco s)).
  unfold valid_index. cbn. lia.
Defined.

(** The castle text, stripped and split. *)
Lemma castle_lines_eq :
  castle_lines =
  [ "++++=++++|";
    "         |";
    "        /^\";
    "       / | \";
    "_  _  /  |  \  _   _   _";
    "[ ]_[ ]_ _   _ [ ]_[ ]_[ ]";
    "|_=__- =_[ ]_[ ]_=-___-__|";
    " | _- =  =_ = _  = _=   |";
    " |= -[] - _ = _ =_-=_[] |";
    " | =_  = -  ___ =_ =  = |";
    " |=  []- - /| |\ =_ =[] |";
    " |- =_ = =| | | | - = - |";
    " |________|_|_|_|_______|" ]%string.
Proof. vm_compute. reflexivity. Qed.

Lemma castle_text_split :
  splitlines (strip (nth 0 CASTLE_ART EmptyString)) =
  [ "++++=++++|";
    "         |";
    "        /^\";
    "       / | \";
    "_  _  /  |  \  _   _   _";
    "[ ]_[ ]_ _   _ [ ]_[ ]_[ ]";
    "|_=__- =_[ ]_[ ]_=-___-__|";
    " | _- =  =_ = _  = _=   |";
    " |= -[] - _ = _ =_-=_[] |";
    " | =_  = -  ___ =_ =  = |";
    " |=  []- - /| |\ =_ =[] |";
    " |- =_ = =| | | | - = - |";
    " |________|_|_|_|_______|" ]%string.
Proof. vm_compute. reflexivity. Qed.

Lemma castle_lines_facts :
  length castle_lines = 13%nat /\ art_width castle_lines = 26 /\
  Forall (fun line => has_nul line = false) castle_lines.
Proof.
  rewrite castle_lines_eq. split; [|split]; [vm_compute; reflexivity..|].
  repeat constructor.
Qed.

(** The writes of the castle, over its lines. *)
Lemma castle_calls_eq a c :
  castle_calls a c =
  imap (fun i line => addstr (max_y a - 14 + Z.of_nat i) (max_x a - 28) line c)
       castle_lines.
Proof.
  exact (eq_refl (imap (fun i line =>
           addstr (max_y a - 14 + Z.of_nat i) (max_x a - 28) line c)
         castle_lines)).
Qed.

(** The rows and the column of the castle, and the length of its
    lines. *)
Lemma castle_calls_rows a c k :
  k ∈ castle_calls a c ->
  exists i line,
    k = addstr (max_y a - 14 + i) (max_x a - 28) line c /\
    0 <= i <= 12 /\ len line <= 26 /\ has_nul line = false.
Proof.
  intros Hk. rewrite castle_calls_eq in Hk.
  destruct castle_lines_facts as (Hlen & Hwid & Hnul).
  rewrite castle_lines_eq in Hk, Hlen, Hwid, Hnul.
  set (lines := (_ :: _)%list) in *. clearbody lines.
  apply list_elem_of_lookup in Hk as [i Hk].
  rewrite list_lookup_imap in Hk.
  destruct (lines !! i) as [line|] eqn:Hline; [|discriminate].
  injection Hk as <-. exists (Z.of_nat i), line. split; [reflexivity|].
  apply lookup_lt_Some in Hline as Hi. split; [lia|].
  apply list_elem_of_lookup_2 in Hline.
  split; [|by apply (proj1 (Forall_forall _ _) Hnul)].
  rewrite <- Hwid.
  destruct lines as [|l0 ls]; [discriminate|]. cbn [art_width].
  destruct (fold_max_ge ls (len l0)) as (Hge & Hall & _).
  apply elem_of_cons in Hline as [->|Hline]; [lia|by apply Hall].
Qed.

(** The arguments of the castle writes convert when its first and last
    rows and its column fit C [int]s. *)
Lemma castle_calls_convert a c :
  c_int (max_y a - 14) = true -> c_int (max_y a - 2) = true ->
  c_int (max_x a - 28) = true ->
  Forall converts (castle_calls a c).
Proof.
  rewrite !c_int_spec. intros Hy1 Hy2 Hx. apply Forall_forall. intros k Hk.
  destruct (castle_calls_rows a c k Hk) as (i & line & -> & Hi & _ & Hnul).
  apply conversion_addstr. rewrite !c_int_spec. repeat split; first [lia | exact Hnul].
Qed.

(** [add_castle] from the color lookup on, for any lines. *)
Lemma add_castle_from_lines deco s (lines : list string) (y0 x0 : Z) :
  match item (castle_colors deco) (castle_color_index deco) s with
  | Done c s' =>
      Forall converts (imap (fun i line => addstr (y0 + Z.of_nat i) x0 line c) lines)
  | Failed _ _ => True
  end ->
  (current_castle_color ← item (castle_colors deco) (castle_color_index deco);
   draw_each (fun '(i, line) =>
                except_curses_pass
                  (call (addstr (y0 + i) x0 line current_castle_color)))
             (enumerate lines)) s =
  match item (castle_colors deco) (castle_color_index deco) s with
  | Done c s' =>
      Done tt (mkScreen (refuses s')
                 (calls s' ++
                  imap (fun i line => addstr (y0 + Z.of_nat i) x0 line c) lines))
  | Failed e s' => Failed e s'
  end.
Proof.
  destruct (item (castle_colors deco) (castle_color_index deco) s) as [c s'|e s'] eqn:Hc.
  - intros Hconv. rewrite (dbind_Done _ _ _ _ _ Hc).
    rewrite <- (map_enumerate (fun i line => addstr (y0 + i) x0 line c)) in *.
    apply draw_each_passing.
    + intros [i line] s'' _. reflexivity.
    + by apply Forall_map_converts.
  - intros _. by apply dbind_Failed.
Qed.

Lemma add_castle_invalid a deco s :
  ~ valid_index (castle_colors deco) (castle_color_index deco) ->
  add_castle a deco s = Failed (Simulation IndexError) s.
Proof.
  intros Hp. unfold add_castle.
  rewrite (dbind_Done _ _ _ (nth 0 CASTLE_ART EmptyString) s) by reflexivity.
  cbn zeta. rewrite castle_text_split.
  set (lines := (_ :: _)%list). 
  rewrite (dbind_Done _ _ _ (art_width lines) s) by reflexivity.
  apply dbind_Failed. by apply item_invalid.
Qed.

Lemma add_castle_eq a deco s c :
  item (castle_colors deco) (castle_color_index deco) s = Done c s ->
  Forall converts (castle_calls a c) ->
  add_castle a deco s =
  Done tt (mkScreen (refuses s) (calls s ++ castle_calls a c)).
Proof.
  intros Hc Hconv. rewrite castle_calls_eq in *.
  unfold add_castle.
  rewrite (dbind_Done _ _ _ (nth 0 CASTLE_ART EmptyString) s) by reflexivity.
  cbn zeta.
  pose proof castle_lines_facts as (Hlen & Hwid & _).
  rewrite castle_lines_eq in Hlen, Hwid, Hconv |- *.
  rewrite castle_text_split.
  set (lines := (_ :: _)%list) in *. clearbody lines.
  rewrite (dbind_Done _ _ _ (art_width lines) s) by reflexivity.
  rewrite Hlen, Hwid.
  replace (max_y a - Z.of_nat 13 - 1) with (max_y a - 14) by lia.
  replace (max_x a - 26 - 2) with (max_x a - 28) by lia.
  rewrite add_castle_from_lines; rewrite Hc; [reflexivity|exact Hconv].
Qed.

(** The first write of the castle does not convert. *)
Lemma add_castle_overflow a deco s c :
  item (castle_colors deco) (castle_color_index deco) s = Done c s ->
  c_int (max_y a - 14) && c_int (max_x a - 28) = false ->
  add_castle a deco s = Failed OverflowError s.
Proof.
  intros Hc Hover. unfold add_castle.
  rewrite (dbind_Done _ _ _ (nth 0 CASTLE_ART EmptyString) s) by reflexivity.
  cbn zeta.
  pose proof castle_lines_facts as (Hlen & Hwid & _).
  rewrite castle_lines_eq in Hlen, Hwid.
  rewrite castle_text_split.
  set (lines := (_ :: _)%list) in *.
  rewrite (dbind_Done _ _ _ (art_width lines) s) by reflexivity.
  rewrite Hlen, Hwid, (dbind_Done _ _ _ _ _ Hc).
  replace (max_y a - Z.of_nat 13 - 1) with (max_y a - 14) by lia.
  replace (max_x a - 26 - 2) with (max_x a - 28) by lia.
  subst lines. unfold enumerate. cbn [imap draw_each].
  apply dbind_Failed. replace (max_y a - 14 + Z.of_nat 0) with (max_y a - 14) by lia.
  apply guarded_call_unconverted. cbn [conversion]. by rewrite Hover.
Qed.

(** X23: [add_castle] raises [IndexError], with nothing written, when
    the castle color index is not valid.  With a valid index and a
    castle whose first and last rows and whose column fit C [int]s, as
    they do for every size that [getmaxyx] returns, it never raises,
    whatever the window answers: it attempts its thirteen writes, one
    per line of the castle, from row [max_y - 14] down to row
    [max_y - 2] and from column [max_x - 28]; no line is longer than
    26 characters, so the castle keeps one free row under it and two
    free columns to its right.  When the first row or the column does
    not fit, it raises [OverflowError] with nothing written. *)
Theorem add_castle_outcome a deco s :
  (~ valid_index (castle_colors deco) (castle_color_index deco) ->
   add_castle a deco s = Failed (Simulation IndexError) s) /\
  (valid_index (castle_colors deco) (castle_color_index deco) ->
   c_int (max_y a - 14) = true -> c_int (max_y a - 2) = true ->
   c_int (max_x a - 28) = true ->
   exists c, c ∈ castle_colors deco /\
     add_castle a deco s =
     Done tt (mkScreen (refuses s) (calls s ++ castle_calls a c)) /\
     forall k, k ∈ castle_calls a c ->
       exists i line,
         k = addstr (max_y a - 14 + i) (max_x a - 28) line c /\
         0 <= i <= 12 /\ len line <= 26) /\
  (valid_index (castle_colors deco) (castle_color_index deco) ->
   c_int (max_y a - 14) && c_int (max_x a - 28) = false ->
   add_castle a deco s = Failed OverflowError s).
Proof.
  split; [apply add_castle_invalid|]. split.
  - intros Hp Hy1 Hy2 Hx. destruct (item_valid _ _ s Hp) as (c & Hc & Hitem).
    exists c. split; [exact Hc|]. split.
    + apply add_castle_eq; [exact Hitem|by apply castle_calls_convert].
    + intros k Hk.
      destruct (castle_calls_rows a c k Hk) as (i & line & H1 & H2 & H3 & _).
      eauto.
  - intros Hp Hover. destruct (item_valid _ _ s Hp) as (c & Hc & Hitem).
    by eapply add_castle_overflow.
Qed.

Lemma add_castle_outcome_witness :
  let a := aquarium_80x24 [] in
  let deco := mkDecoration [color_pair 3] 0 5 in
  let s := mkScreen (fun _ => true) [] in
  exists c, c ∈ castle_colors deco /\
    add_castle a deco s =
    Done tt (mkScreen (refuses s) (calls s ++ castle_calls a c)).
Proof.
  intros a deco s.
  destruct (proj1 (proj2 (add_castle_outcome a deco s))) as (c & Hc & H & _).
  - unfold valid_index. cbn. lia.
  - reflexivity.
  - reflexivity.
  - reflexivity.
  - exists c. auto.
Defined.

(** ** A frame *)

(** The loop of [Aquarium.draw] over the collection. *)
Lemma draw_entities_eq (h : list Entity) ls s :
  Forall (fun l => is_Some (h !! l)) ls ->
  Forall drawable (objects h ls) ->
  draw_each (fun entity => match h !! entity with
                           | Some e => Entity_draw e
                           | None => fail (Simulation BadRef)
                           end) ls s =
  Done tt (mkScreen (refuses s)
             (calls s ++ concat (map entity_calls (objects h ls)))).
Proof.
  intros Hall. revert s.
  induction Hall as [|l ls [e He] _ IH]; intros s Hdr; cbn [draw_each].
  - cbn. rewrite app_nil_r. by destruct s.
  - unfold objects in *. cbn [omap list_omap] in *. rewrite He in *.
    inversion Hdr as [|? ? He' Hdr']; subst.
    rewrite (dbind_Done _ _ s tt (mkScreen (refuses s) (calls s ++ entity_calls e)))
      by (by apply Entity_draw_eq).
    rewrite IH by assumption. cbn [refuses calls map concat].
    by rewrite <- app_assoc.
Qed.

(** The loop stops in the first entity that has a write whose arguments
    do not convert. *)
Lemma draw_entities_stops (h : list Entity) before l after s e pre k post ex :
  Forall (fun l => is_Some (h !! l)) before ->
  Forall drawable (objects h before) ->
  h !! l = Some e ->
  entity_calls e = pre ++ k :: post ->
  Forall converts pre -> conversion k = Some ex ->
  draw_each (fun entity => match h !! entity with
                           | Some e => Entity_draw e
                           | None => fail (Simulation BadRef)
                           end) (before ++ l :: after) s =
  Failed ex (mkScreen (refuses s)
               (calls s ++ concat (map entity_calls (objects h before)) ++ pre)).
Proof.
  intros Hall Hdr He Hsplit Hpre Hk. rewrite draw_each_app.
  rewrite (dbind_Done _ _ _ _ _ (draw_entities_eq h before s Hall Hdr)).
  cbn [draw_each]. apply dbind_Failed. rewrite He.
  rewrite (Entity_draw_stops e _ pre k post ex Hsplit Hpre Hk).
  cbn [refuses calls]. by rewrite <- app_assoc.
Qed.

Lemma objects_length (h : list Entity) ls :
  Forall (fun l => is_Some (h !! l)) ls -> length (objects h ls) = length ls.
Proof.
  induction 1 as [|l ls [e He] _ IH]; [reflexivity|].
  unfold objects in *. cbn [omap list_omap]. rewrite He. cbn. by rewrite IH.
Qed.

Lemma elem_of_objects (h : list Entity) ls e :
  e ∈ objects h ls <-> exists l, l ∈ ls /\ h !! l = Some e.
Proof. unfold objects. by rewrite list_elem_of_omap. Qed.

(** The frame up to the entities. *)
Lemma Aquarium_draw_decoration a deco h s :
  decorates a deco s ->
  exists cw cc,
    cw ∈ water_colors a /\ cc ∈ castle_colors deco /\
    Aquarium_draw a deco h s =
    (draw_each (fun entity => match h !! entity with
                              | Some e => Entity_draw e
                              | None => fail (Simulation BadRef)
                              end)
               (entities a);;
     call refresh)
      (mkScreen (refuses s)
         (calls s ++ [clear] ++ water_calls a deco cw ++ castle_calls a cc)).
Proof.
  intros (Hw & Hc & Hy1 & Hy2 & Hx & Hclear & Hrefresh & Hwater).
  destruct (item_valid_any _ _ Hw) as (cw & Hcw & Hiw).
  destruct (item_valid_any _ _ Hc) as (cc & Hcc & Hic).
  exists cw, cc. split; [exact Hcw|]. split; [exact Hcc|].
  unfold Aquarium_draw.
  rewrite (dbind_Done _ _ _ _ _ (call_accepted clear s eq_refl Hclear)).
  set (s1 := mkScreen _ _).
  assert (add_water_lines a deco s1 =
          Done tt (mkScreen (refuses s) (calls s1 ++ water_calls a deco cw))) as H1.
  { rewrite (add_water_lines_eq _ _ _ _ (Hiw s1)).
    rewrite until_refused_none; [reflexivity|].
    apply Forall_forall. intros k Hk. by apply (Hwater cw). }
  rewrite (dbind_Done _ _ _ _ _ H1).
  set (s2 := mkScreen _ _).
  rewrite (dbind_Done _ _ _ _ _
             (add_castle_eq a deco s2 cc (Hic s2)
                (castle_calls_convert a cc Hy1 Hy2 Hx))).
  subst s2 s1. cbn [refuses calls]. rewrite <- !app_assoc. reflexivity.
Qed.

Lemma Aquarium_draw_eq a deco h s :
  decorates a deco s ->
  Forall (fun l => is_Some (h !! l)) (entities a) ->
  Forall drawable (objects h (entities a)) ->
  exists cw cc,
    cw ∈ water_colors a /\ cc ∈ castle_colors deco /\
    Aquarium_draw a deco h s =
    Done tt
      (mkScreen (refuses s)
         (calls s ++ [clear] ++ water_calls a deco cw ++ castle_calls a cc ++
          concat (map entity_calls (objects h (entities a))) ++ [refresh])).
Proof.
  intros Hdeco Hrefs Hdr.
  destruct (Aquarium_draw_decoration a deco h s Hdeco) as (cw & cc & Hcw & Hcc & ->).
  exists cw, cc. split; [exact Hcw|]. split; [exact Hcc|].
  destruct Hdeco as (_ & _ & _ & _ & _ & _ & Hrefresh & _).
  rewrite (dbind_Done _ _ _ _ _ (draw_entities_eq h (entities a) _ Hrefs Hdr)).
  rewrite call_accepted by (first [reflexivity | exact Hrefresh]).
  cbn [refuses calls]. rewrite <- !app_assoc. reflexivity.
Qed.

(** X24: a frame.  When the window refuses [clear], [Aquarium.draw]
    raises [curses.error] and attempts nothing else.  When both color
    indices are valid, the castle lies within the range of C [int]s and
    the window accepts [clear], [refresh] and the four water rows, then:
    if the arguments of every write of every entity convert, [draw]
    returns after clearing the window, writing the water rows, the
    castle and every entity of the collection in the order of the
    collection, and refreshing last, and refused writes of the castle or
    of an entity do not stop the frame; and if some entity has a write
    whose arguments do not convert (a coordinate outside the range of a
    C [int], a null character in a line), [draw] raises the exception of
    the conversion at the first such write, without refreshing. *)
Theorem Aquarium_draw_frame a deco h s :
  (refuses s clear = true ->
   Aquarium_draw a deco h s =
   Failed CursesError (mkScreen (refuses s) (calls s ++ [clear]))) /\
  (decorates a deco s ->
   Forall (fun l => is_Some (h !! l)) (entities a) ->
   Forall drawable (objects h (entities a)) ->
   exists cw cc,
     cw ∈ water_colors a /\ cc ∈ castle_colors deco /\
     Aquarium_draw a deco h s =
     Done tt
       (mkScreen (refuses s)
          (calls s ++ [clear] ++ water_calls a deco cw ++ castle_calls a cc ++
           concat (map entity_calls (objects h (entities a))) ++ [refresh]))) /\
  (decorates a deco s ->
   forall before l after e pre k post ex,
     entities a = before ++ l :: after ->
     Forall (fun l => is_Some (h !! l)) before ->
     Forall drawable (objects h before) ->
     h !! l = Some e ->
     entity_calls e = pre ++ k :: post ->
     Forall converts pre -> conversion k = Some ex ->
     exists cw cc,
       cw ∈ water_colors a /\ cc ∈ castle_colors deco /\
       Aquarium_draw a deco h s =
       Failed ex
         (mkScreen (refuses s)
            (calls s ++ [clear] ++ water_calls a deco cw ++ castle_calls a cc ++
             concat (map entity_calls (objects h before)) ++ pre))).
Proof.
  split; [|split].
  - intros Hr. unfold Aquarium_draw.
    apply dbind_Failed. by apply call_refused.
  - apply Aquarium_draw_eq.
  - intros Hdeco before l after e pre k post ex Hents Hall Hdr He Hsplit Hpre Hk.
    destruct (Aquarium_draw_decoration a deco h s Hdeco) as (cw & cc & Hcw & Hcc & ->).
    exists cw, cc. split; [exact Hcw|]. split; [exact Hcc|].
    apply dbind_Failed. rewrite Hents.
    rewrite (draw_entities_stops h before l after _ e pre k post ex
               Hall Hdr He Hsplit Hpre Hk).
    cbn [refuses calls]. rewrite <- !app_assoc. reflexivity.
Qed.

Lemma Aquarium_draw_frame_witness :
  let a := aquarium_80x24 [0%nat; 1%nat] in
  let deco := mkDecoration [color_pair 3] 0 5 in
  let s := mkScreen (fun c => match c with
                              | addstr row _ _ _ => 10 <=? row
                              | _ => false
                              end) [] in
  (exists cw cc,
     let h := [fish_40_10; shark_40_10] in
     cw ∈ water_colors a /\ cc ∈ castle_colors deco /\
     Aquarium_draw a deco h s =
     Done tt
       (mkScreen (refuses s)
          (calls s ++ [clear] ++ water_calls a deco cw ++ castle_calls a cc ++
           concat (map entity_calls (objects h (entities a))) ++ [refresh]))) /\
  (exists cw cc,
     let h := [fish_40_10; set_x (2 ^ 40) shark_40_10] in
     cw ∈ water_colors a /\ cc ∈ castle_colors deco /\
     Aquarium_draw a deco h s =
     Failed OverflowError
       (mkScreen (refuses s)
          (calls s ++ [clear] ++ water_calls a deco cw ++ castle_calls a cc ++
           concat (map entity_calls (objects h [0%nat])) ++ []))).
Proof.
  intros a deco s.
  assert (decorates a deco s) as Hdeco.
  { unfold decorates, valid_index. cbn.
    repeat (split; [first [lia | reflexivity]|]).
    intros c k Hk. unfold water_calls, WATER_LINE in Hk. cbn [imap] in Hk.
    elem_cases Hk; subst k; reflexivity. }
  split.
  - apply (proj1 (proj2 (Aquarium_draw_frame a deco [fish_40_10; shark_40_10] s))).
    + exact Hdeco.
    + repeat constructor; eexists; reflexivity.
    + unfold drawable, converts. repeat constructor.
  - apply (proj2 (proj2 (Aquarium_draw_frame a deco
                           [fish_40_10; set_x (2 ^ 40) shark_40_10] s))
             Hdeco [0%nat] 1%nat [] (set_x (2 ^ 40) shark_40_10) []
             (addstr 10 (2 ^ 40) (nth 0 (nth 1 SHARK_ART []) EmptyString)
                     (color_pair 4))
             (tl (entity_calls (set_x (2 ^ 40) shark_40_10))) OverflowError).
    + reflexivity.
    + repeat constructor. eexists; reflexivity.
    + unfold drawable, converts. repeat constructor.
    + reflexivity.
    + reflexivity.
    + constructor.
    + reflexivity.
Defined.

(** ** The frames of the main loop *)

Lemma no_nul_check (l : list string) :
  forallb (fun line => negb (has_nul line)) l = true ->
  Forall (fun line => has_nul line = false) l.
Proof.
  rewrite forallb_forall, List.Forall_forall. intros H line Hl.
  apply negb_true_iff, H, Hl.
Qed.

(** An entity kept within the viewport has writes whose arguments
    convert. *)
Lemma tidy_drawable mx my e :
  mx < 2 ^ 31 - 28 -> my < 2 ^ 31 - 3 -> tidy mx my e -> drawable e.
Proof.
  intros Hmx Hmy (Hnul & Hlen & Hw & Hy & Hk).
  unfold drawable, entity_calls. apply Forall_forall. intros k Hin.
  apply list_elem_of_lookup in Hin as [i Hi].
  rewrite list_lookup_imap in Hi.
  destruct (art e !! i) as [line|] eqn:Hline; [|discriminate].
  injection Hi as <-.
  apply lookup_lt_Some in Hline as Hlt.
  apply list_elem_of_lookup_2 in Hline.
  apply conversion_addstr. rewrite !c_int_spec.
  split; [lia|]. split; [|by apply (proj1 (Forall_forall _ _) Hnul)].
  destruct (kind e) as [[]|]; lia.
Qed.

Lemma placed_append a w e n :
  placed a w -> tidy (max_x a) (max_y a) e ->
  placed (set_entities (entities a ++ [length (heap w)]) a) (extend e (advance n w)).
Proof.
  intros Hpl He l. cbn [entities set_entities heap extend advance max_x max_y].
  intros [Hl|Hl]%elem_of_app.
  - destruct (Hpl l Hl) as (o & Ho & Ht).
    exists o. split; [by apply lookup_app_l_Some|exact Ht].
  - apply list_elem_of_singleton in Hl as ->.
    exists e. split; [|exact He].
    rewrite lookup_app_r by lia. by rewrite Nat.sub_diag.
Qed.

Lemma placed_spawn_fish a w a' w' :
  0 <= max_x a ->
  placed a w -> spawn_fish a w = Returns a' w' -> placed a' w'.
Proof.
  intros Hmx Hpl H.
  apply spawn_fish_Returns in H
    as (pair & shape & d & y0 & c & Hpair & Hshape & Hd & Hy & _ & -> & ->).
  apply placed_append; [exact Hpl|].
  assert (has_nul shape = false /\ 3 <= len shape <= 6) as [Hnul Hlen].
  { unfold FISH_ART in Hpair.
    elem_cases Hpair; subst pair; elem_cases Hshape; subst shape;
      vm_compute; repeat split; discriminate. }
  unfold tidy.
  cbn [art width y x kind direction set_kind Entity_init art_width fold_left length].
  split; [apply no_nul_check; cbn [forallb]; by rewrite Hnul|].
  split; [lia|]. split; [lia|]. split; [lia|].
  split; [tauto|]. destruct Hd as [-> | ->]; cbn [Z.eqb Pos.eqb]; lia.
Qed.

Lemma placed_spawn_shark a w a' w' :
  0 <= max_x a ->
  placed a w -> maybe_spawn_shark a w = Returns a' w' -> placed a' w'.
Proof.
  intros Hmx Hpl H. unfold maybe_spawn_shark in H.
  rewrite (bind_eq _ _ _ _ _ (random_eq w)) in H.
  destruct (Qlt_bool (next_random w) 0.05).
  2:{ apply ret_Returns in H as [-> ->]. exact Hpl. }
  apply bind_Returns in H as (s & w1 & Hshark & [-> ->]%ret_Returns).
  destruct (Shark_eq (max_x a) (max_y a) (advance 1 w)) as (d & Hd & Heq).
  rewrite Heq in Hshark.
  destruct (Z.ltb_spec (max_y a) 14) as [|Hge]; [discriminate|].
  cbn zeta in Hshark. injection Hshark as <- <-.
  apply (placed_append a w _ 3); [exact Hpl|].
  pose proof (Z.mod_pos_bound (draws (advance 1 w) (S (cursor (advance 1 w))))
                (max_y a - 6 - 8 + 1) ltac:(lia)) as Hy.
  unfold tidy. cbn [advance draws cursor Nat.add] in Hy.
  destruct Hd as [-> | ->];
    cbn [art width y x kind direction set_kind set_x Entity_init Z.eqb Pos.eqb nth
         advance draws cursor Nat.add];
    (split; [apply no_nul_check; vm_compute; reflexivity|]); (split; [cbn [length]; lia|]);
    (split; [eval_art_width; lia|]); (split; [lia|]);
    (split; [tauto|]); eval_art_width; lia.
Qed.

Lemma placed_spawn_other_creature a w a' w' :
  0 <= max_x a ->
  placed a w -> maybe_spawn_other_creature a w = Returns a' w' -> placed a' w'.
Proof.
  intros Hmx Hpl H. unfold maybe_spawn_other_creature in H.
  rewrite (bind_eq _ _ _ _ _ (random_eq w)) in H.
  destruct (Qlt_bool (next_random w) 0.09).
  2:{ apply ret_Returns in H as [-> ->]. exact Hpl. }
  apply bind_Returns in H as (s & w1 & Hc & [-> ->]%ret_Returns).
  destruct (OtherCreature_eq (max_x a) (max_y a) (advance 1 w)) as (d & Hd & Heq).
  rewrite Heq in Hc.
  destruct (Z.ltb_spec (max_y a) 11) as [|Hge]; [discriminate|].
  cbn zeta in Hc. injection Hc as <- <-.
  apply (placed_append a w _ 3); [exact Hpl|].
  pose proof (Z.mod_pos_bound (draws (advance 1 w) (S (cursor (advance 1 w))))
                (max_y a - 6 - 5 + 1) ltac:(lia)) as Hy.
  unfold tidy. cbn [advance draws cursor Nat.add] in Hy.
  destruct Hd as [-> | ->];
    cbn [art width y x kind direction set_kind set_x Entity_init Z.eqb Pos.eqb
         advance draws cursor Nat.add];
    (split; [apply no_nul_check; vm_compute; reflexivity|]); (split; [cbn [length]; lia|]);
    (split; [eval_art_width; lia|]); (split; [lia|]);
    (split; [tauto|]); eval_art_width; lia.
Qed.

Lemma placed_cycle_water_color a w a' :
  placed a w -> cycle_water_color a = Some a' -> placed a' w.
Proof.
  intros Hpl H. unfold cycle_water_color in H.
  destruct (water_colors a); [discriminate|]. injection H as <-. exact Hpl.
Qed.

(** One move of a tidy entity that leaves it alive leaves it tidy. *)
Lemma tidy_move mx my e :
  tidy mx my e -> dead (move mx my e) = false -> tidy mx my (move mx my e).
Proof.
  intros (Hnul & Hlen & Hw & Hy & Hk) Hd.
  destruct (move_keeps mx my e) as (Hdir & Hart & Hwid & _ & _ & Hkind & _).
  unfold tidy. rewrite Hart, Hwid, Hkind, Hdir.
  destruct (kind e) as [k|] eqn:Ek; [|contradiction].
  split; [exact Hnul|]. split; [exact Hlen|]. split; [exact Hw|].
  destruct (decide (k = bubble)) as [->|Hnb].
  - rewrite (move_bubble_eq mx my e Ek) in *.
    destruct (Bubble_move_fields mx my e) as (Hx' & Hy' & Hd').
    rewrite Hd in Hd'. symmetry in Hd'. apply orb_false_iff in Hd' as [_ Hge].
    apply Z.ltb_ge in Hge. split; lia.
  - assert (horizontal e) as Hh.
    { unfold horizontal. destruct k; auto. contradiction. }
    rewrite (move_horizontal_eq mx my e Hh) in *.
    destruct (Entity_move_fields mx my e) as (Hx' & Hy' & Hd').
    rewrite Hd in Hd'. symmetry in Hd'. apply orb_false_iff in Hd' as [_ Hin].
    apply orb_false_iff in Hin as [Hlo Hhi].
    apply Z.ltb_ge in Hlo.
    assert (x (Entity_move mx my e) <= mx) as Hhi' by (destruct (Z.gtb_spec (x (Entity_move mx my e)) mx); [discriminate|lia]).
    rewrite Hwid in Hlo.
    split; [lia|].
    assert ((direction e = 1 \/ direction e = -1) /\ -28 <= x e <= mx) as [Hde Hxe]
      by (destruct k; first [exact Hk | contradiction]).
    destruct k; first [contradiction | (split; [exact Hde|lia])].
Qed.

Lemma placed_update a w a' w' :
  NoDup (entities a) ->
  placed a w -> update a w = Returns a' w' -> placed a' w'.
Proof.
  intros Hnd Hpl H.
  pose proof (update_emitters a w a' w' H) as (Hents & _ & Hbub).
  pose proof H as Hph.
  apply update_phases in Hph as (w1 & new & Hlk & _ & _ & _ & Ht & _ & Ha').
  assert (max_x a' = max_x a /\ max_y a' = max_y a) as [Emx Emy]
    by (rewrite Ha'; split; reflexivity).
  unfold placed. rewrite Emx, Emy. intros l Hl. rewrite Hents in Hl.
  apply elem_of_app in Hl as [Hl|Hl].
  - apply list_elem_of_In, filter_In in Hl as [Hl Hlive].
    apply list_elem_of_In in Hl.
    destruct (Hpl l Hl) as (e & He & Hte).
    specialize (Hlk l). rewrite He, (occ_NoDup l _ Hnd Hl) in Hlk. cbn in Hlk.
    destruct (ticked_lookup _ _ _ _ Ht Hlk) as (e' & He' & Hor).
    unfold live_at in Hlive. rewrite He' in Hlive.
    apply negb_true_iff in Hlive.
    exists e'. split; [exact He'|].
    destruct Hor as [->|[_ ->]]; [|discriminate].
    by apply tidy_move.
  - apply elem_of_seq in Hl as [Hge Hlt].
    set (em := emitters (heap w) (draws w) (cursor w) (entities a)) in *.
    assert (l - length (heap w) < length em)%nat as Hi by lia.
    destruct (lookup_lt_is_Some_2 em _ Hi) as [le Hle].
    destruct (Hbub _ _ Hle) as (e & k & n & c & g & He & Hk & Hr & Hn & _ & Hg & Hb).
    replace (length (heap w) + (l - length (heap w)))%nat with l in Hb by lia.
    apply list_elem_of_lookup_2, emitters_rolls in Hle as [Hin _].
    rewrite (occ_NoDup le _ Hnd Hin) in Hb. cbn [Nat.iter nat_rect] in Hb.
    destruct (Hpl le Hin) as (e0 & He0 & Hnul & Hlen & Hw & Hy & Hkt).
    rewrite He in He0. injection He0 as <-.
    rewrite Hk in Hkt.
    assert (horizontal e /\ (direction e = 1 \/ direction e = -1) /\
            -28 <= x e <= max_x a) as (Hh & Hd & Hx).
    { unfold horizontal. rewrite Hk. destruct k; try discriminate; tauto. }
    rewrite (move_horizontal_eq _ _ e Hh) in Hb.
    destruct (Entity_move_fields (max_x a) (max_y a) e) as (Hx' & Hy' & _).
    eexists. split; [exact Hb|].
    unfold tidy.
    cbn [art width y x kind bubble_obj set_kind Entity_init length].
    rewrite Hx', Hy'.
    split; [elem_cases Hg; subst g; apply no_nul_check; vm_compute; reflexivity|].
    split; [lia|].
    split; [elem_cases Hg; subst g; vm_compute; split; discriminate|].
    split; lia.
Qed.

(** What holds of every state the main loop reaches in a viewport of at
    least 0 columns. *)
Lemma reachable_placed a w :
  reachable a w -> 0 <= max_x a -> sound a w /\ placed a w.
Proof.
  induction 1 as [maxyx w|a w a' w' _ IH H|a w a' w' _ IH H|a w a' w' _ IH H
                  |a w a' _ IH H|a w a' w' _ IH H]; intros Hmx.
  - split; [apply sound_start|]. intros l Hl. by apply elem_of_nil in Hl.
  - assert (max_x a' = max_x a) as E.
    { apply spawn_fish_Returns in H
        as (? & ? & ? & ? & ? & _ & _ & _ & _ & _ & -> & _). reflexivity. }
    rewrite E in Hmx. destruct (IH Hmx) as [Hs Hp].
    split; [by eapply sound_spawn_fish|by eapply placed_spawn_fish].
  - assert (max_x a' = max_x a) as E.
    { unfold maybe_spawn_shark in H.
      rewrite (bind_eq _ _ _ _ _ (random_eq w)) in H.
      destruct (Qlt_bool _ _).
      - apply bind_Returns in H as (? & ? & _ & [-> _]%ret_Returns). reflexivity.
      - apply ret_Returns in H as [-> _]. reflexivity. }
    rewrite E in Hmx. destruct (IH Hmx) as [Hs Hp].
    split; [by eapply sound_spawn_shark|by eapply placed_spawn_shark].
  - assert (max_x a' = max_x a) as E.
    { unfold maybe_spawn_other_creature in H.
      rewrite (bind_eq _ _ _ _ _ (random_eq w)) in H.
      destruct (Qlt_bool _ _).
      - apply bind_Returns in H as (? & ? & _ & [-> _]%ret_Returns). reflexivity.
      - apply ret_Returns in H as [-> _]. reflexivity. }
    rewrite E in Hmx. destruct (IH Hmx) as [Hs Hp].
    split; [by eapply sound_spawn_other_creature|by eapply placed_spawn_other_creature].
  - assert (max_x a' = max_x a) as E.
    { unfold cycle_water_color in H.
      destruct (water_colors a); [discriminate|]. injection H as <-. reflexivity. }
    rewrite E in Hmx. destruct (IH Hmx) as [Hs Hp].
    split; [by eapply sound_cycle_water_color|by eapply placed_cycle_water_color].
  - assert (max_x a' = max_x a) as E.
    { apply update_Returns in H as (? & ? & _ & _ & ->). reflexivity. }
    rewrite E in Hmx. destruct (IH Hmx) as [Hs Hp].
    split; [by eapply sound_update|].
    eapply placed_update; [|exact Hp|exact H]. exact (proj1 (proj2 Hs)).
Qed.

(** X25: the frames of the main loop.  Take any state that the main
    loop can reach by spawning, cycling the water color and updating,
    in a viewport of at least 0 and less than 2^31 - 28 columns and of
    less than 2^31 - 3 rows, as every size that [getmaxyx] returns is.
    There [update] returns, and whenever it does the references of the
    new collection all lead to objects that are not dead and whose
    writes have arguments that convert: with their moves of one column
    or one row per tick, entities die before their coordinates leave
    the range of C [int]s, and no art holds a null character.  So the
    frame drawn next, with a valid castle color index and a window that
    accepts [clear], [refresh] and the water rows, returns: it writes
    the water rows, the castle and the art of the live entities, one
    group of writes per reference of the collection, and raises neither
    [OverflowError] nor [ValueError]. *)
Theorem update_then_draw a w :
  reachable a w ->
  0 <= max_x a < 2 ^ 31 - 28 -> max_y a < 2 ^ 31 - 3 ->
  (exists a' w', update a w = Returns a' w') /\
  forall a' w', update a w = Returns a' w' ->
    let drawn := objects (heap w') (entities a') in
    length drawn = length (entities a') /\
    (forall e, e ∈ drawn -> dead e = false /\ drawable e) /\
    forall deco s, decorates a' deco s ->
      exists cw cc,
        cw ∈ water_colors a' /\ cc ∈ castle_colors deco /\
        Aquarium_draw a' deco (heap w') s =
        Done tt
          (mkScreen (refuses s)
             (calls s ++ [clear] ++ water_calls a' deco cw ++ castle_calls a' cc ++
              concat (map entity_calls drawn) ++ [refresh])).
Proof.
  intros Hreach Hmx Hmy.
  destruct (reachable_placed a w Hreach ltac:(lia)) as [Hs _].
  split; [apply update_total; exact (proj1 Hs)|].
  intros a' w' H drawn.
  assert (max_x a' = max_x a /\ max_y a' = max_y a) as [Emx Emy].
  { pose proof H as Hu.
    apply update_Returns in Hu as (? & ? & _ & _ & ->). split; reflexivity. }
  destruct (reachable_placed a' w' (reach_update a w a' w' Hreach H) ltac:(lia))
    as [(_ & _ & Hlive & _) Hpl].
  assert (Forall (fun l => is_Some (heap w' !! l)) (entities a')) as Hrefs.
  { apply Forall_forall. intros l Hl. destruct (Hpl l Hl) as (e & He & _). by exists e. }
  assert (forall e, e ∈ drawn -> dead e = false /\ drawable e) as Hdrawn.
  { intros e He. apply elem_of_objects in He as (l & Hl & He).
    destruct (Hpl l Hl) as (e' & He' & Ht).
    rewrite He in He'. injection He' as <-.
    split.
    - specialize (Hlive l Hl). unfold live_at in Hlive. rewrite He in Hlive.
      by apply negb_true_iff.
    - apply (tidy_drawable (max_x a') (max_y a')); [lia|lia|exact Ht]. }
  split; [by apply objects_length|]. split; [exact Hdrawn|].
  intros deco s Hdeco.
  apply Aquarium_draw_eq; [exact Hdeco|exact Hrefs|].
  apply Forall_forall. intros e He. by apply Hdrawn.
Qed.

Lemma update_then_draw_witness :
  let deco := mkDecoration [color_pair 3] 0 5 in
  let s := mkScreen (fun c => match c with
                              | addstr row _ _ _ => 10 <=? row
                              | _ => false
                              end) [] in
  exists a w,
    spawn_fish (run_palettes (Aquarium_init (24, 80))) (world_of []) = Returns a w /\
    exists a' w',
      update a w = Returns a' w' /\
      let drawn := objects (heap w') (entities a') in
      length drawn = length (entities a') /\
      (forall e, e ∈ drawn -> dead e = false /\ drawable e) /\
      exists cw cc,
        cw ∈ water_colors a' /\ cc ∈ castle_colors deco /\
        Aquarium_draw a' deco (heap w') s =
        Done tt
          (mkScreen (refuses s)
             (calls s ++ [clear] ++ water_calls a' deco cw ++ castle_calls a' cc ++
              concat (map entity_calls drawn) ++ [refresh])).
Proof.
  intros deco s.
  destruct (spawn_fish_total (run_palettes (Aquarium_init (24, 80))) (world_of []))
    as (a & w & Hspawn); [cbn; lia|discriminate|].
  exists a, w. split; [exact Hspawn|].
  assert (max_x a = 80 /\ max_y a = 24) as [Emx Emy].
  { pose proof Hspawn as Hsp.
    apply spawn_fish_Returns in Hsp
      as (? & ? & ? & ? & ? & _ & _ & _ & _ & _ & -> & _). split; reflexivity. }
  destruct (update_then_draw a w) as [(a' & w' & Hu) Hframe].
  - exact (reach_spawn_fish _ _ _ _ (reach_start (24, 80) (world_of [])) Hspawn).
  - rewrite Emx. lia.
  - rewrite Emy. lia.
  - exists a', w'. split; [exact Hu|].
    destruct (Hframe a' w' Hu) as (Hlen & Hdrawn & Hdraw).
    split; [exact Hlen|]. split; [exact Hdrawn|].
    apply Hdraw.
    assert (max_x a' = 80 /\ max_y a' = 24 /\
            water_colors a' = run_water_colors /\
            water_color_index a' = 0) as (Ex & Ey & Ewc & Ewi).
    { pose proof Hu as Hu'.
      apply update_Returns in Hu' as (? & ? & _ & _ & ->).
      pose proof Hspawn as Hsp.
      apply spawn_fish_Returns in Hsp
        as (? & ? & ? & ? & ? & _ & _ & _ & _ & _ & -> & _).
      repeat split; reflexivity. }
    unfold decorates, valid_index. rewrite Ex, Ey, Ewc, Ewi. cbn.
    repeat (split; [first [lia | reflexivity]|]).
    intros c k Hk. unfold water_calls, WATER_LINE in Hk. cbn [imap] in Hk.
    elem_cases Hk; subst k; reflexivity.
Defined.
